(** * reinkpy: the IEEE 1284.4 link and the Epson EEPROM layer

    A shallow embedding of [reinkpy/d4.py] and [reinkpy/epson.py].

    Python values are modelled as follows.
    - [int] is [Z]; [bytes] is [list byte]; [str] is [string], read as a
      sequence of Latin-1 code points.
    - [None] in a position that may hold a value is [option].
    - An exception is an [outcome] built with [Raise]; code that mutates
      objects threads an explicit state and returns [outcome A * S].  A run
      ends where it raises: what Python does while unwinding (leaving a
      [with] block, closing a generator) is not part of the model.
    - Logging is left out, except where computing an argument of a log
      call can itself raise. *)

From Stdlib Require Import ZArith List String Ascii Lia Bool.
From Stdlib.Strings Require Byte.
From stdpp Require Import base option list gmap.

Import ListNotations.
Local Open Scope Z_scope.

Abbreviation byte := Byte.byte.
Abbreviation bytes := (list Byte.byte).

(** ** Exceptions and the two monads *)

Inductive exn : Type :=
| StructError        (* struct.error *)
| TypeError
| KeyError
| AttributeError
| UnicodeError       (* UnicodeDecodeError / UnicodeEncodeError *)
| ValueError
| AssertionError
| IndexError
| RecursionError
| InitFailed         (* Exception('Init failed') *)
| IOError (code : Z) (* anything the byte pipe or the channel raises *).

Inductive outcome (A : Type) : Type :=
| Ret (a : A)
| Raise (e : exn).
Arguments Ret {A} a.
Arguments Raise {A} e.

Definition obind {A B} (m : outcome A) (k : A -> outcome B) : outcome B :=
  match m with
  | Ret a => k a
  | Raise e => Raise e
  end.

Notation "'let?' x ':=' m 'in' k" := (obind m (fun x => k))
  (at level 10, x name, m at level 100, k at level 200).

(** [struct] reports every failure as [struct.error]. *)
Definition struct_res {A} (o : option A) : outcome A :=
  match o with
  | Some a => Ret a
  | None => Raise StructError
  end.

(** Stateful code: a state transformer that may raise.  The state at the
    point of the [Raise] is kept, as objects mutated before an exception
    stay mutated. *)
Definition M (S A : Type) : Type := S -> outcome A * S.

Definition ret {S A} (a : A) : M S A := fun s => (Ret a, s).
Definition raise {S A} (e : exn) : M S A := fun s => (Raise e, s).
Definition bind {S A B} (m : M S A) (k : A -> M S B) : M S B :=
  fun s => match m s with
           | (Ret a, s') => k a s'
           | (Raise e, s') => (Raise e, s')
           end.
Definition lift {S A} (o : outcome A) : M S A := fun s => (o, s).
Definition gets {S A} (f : S -> A) : M S A := fun s => (Ret (f s), s).
Definition modify {S} (f : S -> S) : M S unit := fun s => (Ret tt, f s).

Notation "x <- m ;; k" := (bind m (fun x => k))
  (at level 61, m at next level, k at level 200,
   format "'[v' x  <-  m  ;;  '/' k ']'").

(** ** Bytes *)

Definition Z_of_byte (b : byte) : Z := Z.of_N (Byte.to_N b).

Definition byte_of_Z (z : Z) : byte :=
  match Byte.of_N (Z.to_N (z mod 256)) with
  | Some b => b
  | None => Byte.x00
  end.

Definition bs (s : string) : bytes := list_byte_of_string s.

Definition byte_eqb (a b : byte) : bool := Byte.eqb a b.

Fixpoint starts_with (pat s : bytes) : bool :=
  match pat, s with
  | [], _ => true
  | p :: pat', c :: s' => byte_eqb p c && starts_with pat' s'
  | _ :: _, [] => false
  end.

(** [pat in s] for two byte strings. *)
Fixpoint bytes_in (pat s : bytes) : bool :=
  starts_with pat s ||
  match s with
  | [] => false
  | _ :: s' => bytes_in pat s'
  end.

(** [s.encode('ascii')] *)
Definition encode_ascii (s : string) : outcome bytes :=
  let b := list_byte_of_string s in
  if forallb (fun x => Z_of_byte x <? 128) b then Ret b else Raise UnicodeError.

(** [b.decode('ascii')] *)
Definition decode_ascii (b : bytes) : outcome string :=
  if forallb (fun x => Z_of_byte x <? 128) b then Ret (string_of_list_byte b)
  else Raise UnicodeError.

(** Python slices [l[:n]] and [l[n:]]; a negative [n] counts from the end. *)
Definition py_take {A} (n : Z) (l : list A) : list A :=
  if 0 <=? n then firstn (Z.to_nat n) l
  else firstn (Z.to_nat (Z.of_nat (length l) + n)) l.

Definition py_drop {A} (n : Z) (l : list A) : list A :=
  if 0 <=? n then skipn (Z.to_nat n) l
  else skipn (Z.to_nat (Z.of_nat (length l) + n)) l.

(** ** The [struct] module, for the format characters the code uses *)

Module struct.

Inductive endian := LE | BE.      (* '<' and '>' *)
Inductive fmtc := FB | FH.        (* 'B' and 'H' *)

Definition fsize (c : fmtc) : nat :=
  match c with FB => 1%nat | FH => 2%nat end.

Fixpoint calcsize (fmt : list fmtc) : nat :=
  match fmt with
  | [] => 0%nat
  | c :: fmt' => (fsize c + calcsize fmt')%nat
  end.

Definition pack1 (e : endian) (c : fmtc) (v : Z) : option bytes :=
  match c with
  | FB => if (0 <=? v) && (v <? 256) then Some [byte_of_Z v] else None
  | FH => if (0 <=? v) && (v <? 65536) then
            Some match e with
                 | LE => [byte_of_Z v; byte_of_Z (v / 256)]
                 | BE => [byte_of_Z (v / 256); byte_of_Z v]
                 end
          else None
  end.

(** [struct.pack(fmt, *vs)]: [None] is [struct.error] (a value out of
    range, or the wrong number of values). *)
Fixpoint pack (e : endian) (fmt : list fmtc) (vs : list Z) : option bytes :=
  match fmt, vs with
  | [], [] => Some []
  | c :: fmt', v :: vs' =>
      match pack1 e c v, pack e fmt' vs' with
      | Some b, Some r => Some (b ++ r)
      | _, _ => None
      end
  | _, _ => None
  end.

Definition unpack1 (e : endian) (c : fmtc) (b : bytes) : option (Z * bytes) :=
  match c, b with
  | FB, x :: r => Some (Z_of_byte x, r)
  | FH, x :: y :: r =>
      Some (match e with
            | LE => Z_of_byte x + 256 * Z_of_byte y
            | BE => 256 * Z_of_byte x + Z_of_byte y
            end, r)
  | _, _ => None
  end.

Fixpoint unpack_from (e : endian) (fmt : list fmtc) (b : bytes) : option (list Z) :=
  match fmt with
  | [] => match b with [] => Some [] | _ => None end
  | c :: fmt' =>
      match unpack1 e c b with
      | Some (v, r) =>
          match unpack_from e fmt' r with
          | Some vs => Some (v :: vs)
          | None => None
          end
      | None => None
      end
  end.

(** [struct.unpack(fmt, b)]: the buffer must have exactly [calcsize fmt]
    bytes, otherwise [struct.error]. *)
Definition unpack (e : endian) (fmt : list fmtc) (b : bytes) : option (list Z) :=
  unpack_from e fmt b.

End struct.
Import struct.

(** ** d4.py: [D4Link.protocol], the packet codec *)

Module packet.

(** [hTuple = namedtuple('D4PacketHeader', 'psid ssid length credit control')] *)
Record hTuple : Type := {
  psid : Z;
  ssid : Z;
  length : Z;
  credit : Z;
  control : Z
}.

(** [hStruct = struct.Struct('>BBHBB')] *)
Definition hStruct : list fmtc := [FB; FB; FH; FB; FB].
Definition hLen : nat := Eval cbv in calcsize hStruct.

Definition payload_length (h : hTuple) : Z := length h - Z.of_nat hLen.
Definition cid (h : hTuple) : Z * Z := (psid h, ssid h).

(** [decode(b)] returns [(header, payload)]. *)
Definition decode (b : bytes) : outcome (hTuple * bytes) :=
  match unpack BE hStruct (firstn hLen b) with
  | Some [p; s; l; c; k] =>
      Ret ({| psid := p; ssid := s; length := l; credit := c; control := k |},
           skipn hLen b)
  | _ => Raise StructError
  end.

(** [encode(payload, psid, ssid, credit, control)] *)
Definition encode (payload : bytes) (psid ssid credit control : Z) : outcome bytes :=
  let? h := struct_res (pack BE hStruct
              [psid; ssid; Z.of_nat hLen + Z.of_nat (List.length payload);
               credit; control]) in
  Ret (h ++ payload).

End packet.

(** ** epson.py: the model spec and the control codec *)

Module epson.

(** One entry of [Spec.mem]: a dict with the keys [addr] and [desc], and
    optionally [reset] and [min]. *)
Record mem_entry : Type := {
  addr : list Z;
  desc : string;
  reset : option (list Z);
  min : option (list Z)
}.

(** [class Spec] *)
Record Spec : Type := {
  brand : string;
  idVendor : Z;
  idProduct : option Z;
  rkey : Z;
  wkey : option bytes;
  wkey1 : option string;
  rlen : Z;
  wlen : Z;
  mem_low : Z;
  mem_high : Z;
  mem : list mem_entry;
  models : list string;
  model : option string
}.

(** [Spec()] with the dataclass defaults. *)
Definition default_spec : Spec := {|
  brand := "EPSON"; idVendor := 0x04b8; idProduct := None;
  rkey := 0; wkey := None; wkey1 := None;
  rlen := 2; wlen := 2; mem_low := 0x00; mem_high := 0xff;
  mem := []; models := []; model := None
|}.

Definition set_rkey (k : Z) (sp : Spec) : Spec := {|
  brand := brand sp; idVendor := idVendor sp; idProduct := idProduct sp;
  rkey := k; wkey := wkey sp; wkey1 := wkey1 sp;
  rlen := rlen sp; wlen := wlen sp;
  mem_low := mem_low sp; mem_high := mem_high sp;
  mem := mem sp; models := models sp; model := model sp
|}.

(** The [cmd] argument of [encode]: a [str], or the 2-tuple of a "factory
    command" whose second component is one character. *)
Inductive command : Type :=
| Plain (cmd : string)
| Factory (outer : string) (inner : ascii).

Definition ord (c : ascii) : Z := Z.of_N (N_of_ascii c).

(** [Epson.encode(cmd, payload)], with [self.spec.rkey] as a parameter. *)
Definition encode (rkey : Z) (cmd : command) (payload : bytes) : outcome bytes :=
  let? cp :=
    match cmd with
    | Factory outer inner =>
        let c := ord inner in
        let? p := struct_res
                    (pack LE [FH; FB; FB; FB]
                       [rkey; c; Z.land (Z.lnot c) 0xff;
                        Z.lor (Z.land (Z.shiftr c 1) 0x7f)
                              (Z.land (Z.shiftl c 7) 0x80)]) in
        Ret ((outer ++ outer)%string, p ++ payload)
    | Plain s => Ret (s, payload)
    end in
  let cmd := fst cp in
  let payload := snd cp in
  let? cmdb := encode_ascii cmd in
  let? l := struct_res (pack LE [FH] [Z.of_nat (List.length payload)]) in
  Ret (cmdb ++ l ++ payload).

(** *** Parsing a reply to an EEPROM read *)

Definition is_hex (c : ascii) : bool :=
  let n := ord c in
  ((48 <=? n) && (n <=? 57)) || ((97 <=? n) && (n <=? 102))
  || ((65 <=? n) && (n <=? 70)).

Definition hex_val (c : ascii) : Z :=
  let n := ord c in
  if (48 <=? n) && (n <=? 57) then n - 48
  else if (97 <=? n) && (n <=? 102) then n - 87
  else n - 55.

(** What [\s] matches among the code points below 128. *)
Definition is_space (c : ascii) : bool :=
  let n := ord c in
  ((9 <=? n) && (n <=? 13)) || ((28 <=? n) && (n <=? 32)).

(** The tail [\sEE:([0-9a-fA-F]{6,6});] of the pattern, anchored at the
    head of [s]; the result is group 1. *)
Definition match_tail (s : list ascii) : option (list ascii) :=
  match s with
  | sp :: "E"%char :: "E"%char :: ":"%char
       :: h1 :: h2 :: h3 :: h4 :: h5 :: h6 :: ";"%char :: _ =>
      if is_space sp && forallb is_hex [h1; h2; h3; h4; h5; h6]
      then Some [h1; h2; h3; h4; h5; h6] else None
  | _ => None
  end.

(** [re.match(r'.*?\sEE:([0-9a-fA-F]{6,6});', s)]: the lazy [.*?] tries
    the shortest prefix first and never crosses a newline. *)
Fixpoint re_match_EE (s : list ascii) : option (list ascii) :=
  match match_tail s with
  | Some g => Some g
  | None =>
      match s with
      | [] => None
      | c :: s' => if (ord c =? 10) then None else re_match_EE s'
      end
  end.

(** [bytes.fromhex] on a string of hex digits. *)
Fixpoint fromhex (g : list ascii) : outcome bytes :=
  match g with
  | [] => Ret []
  | h :: l :: g' =>
      if is_hex h && is_hex l then
        let? r := fromhex g' in
        Ret (byte_of_Z (16 * hex_val h + hex_val l) :: r)
      else Raise ValueError
  | _ => Raise ValueError
  end.

(** The body of the [try] in [read_eeprom]: the value read at [a] from
    the reply [r] ([None] when the channel gave no reply). *)
Definition parse_reply (c : fmtc) (a : Z) (r : option bytes) : outcome Z :=
  let? r := match r with Some r => Ret r | None => Raise AttributeError end in
  let? s := decode_ascii r in
  let? g := match re_match_EE (list_ascii_of_string s) with
            | Some g => Ret g
            | None => Raise AttributeError
            end in
  let? b := fromhex g in
  let? pv := struct_res (unpack BE [c; FB] b) in
  match pv with
  | [p; val] => if p =? a then Ret val else Raise AssertionError
  | _ => Raise StructError
  end.

(** The [try ... except:] around it: any exception records [None]. *)
Definition slot (c : fmtc) (a : Z) (r : option bytes) : Z * option Z :=
  match parse_reply c a r with
  | Ret val => (a, Some val)
  | Raise _ => (a, None)
  end.

(** [range(lo, hi)] *)
Definition py_range (lo hi : Z) : list Z :=
  map (fun i => lo + Z.of_nat i) (seq 0 (Z.to_nat (hi - lo))).

Fixpoint traverse {A B} (f : A -> outcome B) (l : list A) : outcome (list B) :=
  match l with
  | [] => Ret []
  | x :: l' => let? y := f x in let? r := traverse f l' in Ret (y :: r)
  end.

End epson.

(** ** epson.py: EEPROM operations of [class Epson]

    [Epson] is written against [self.ctrl_channel], a context manager that
    yields a callable; [EpsonD4] and [EpsonSNMP] supply it.  The section
    takes it as an interface: entering, leaving, and calling with a message,
    each acting on the state [X] of the link and of the printer behind it. *)

Record channel (X : Type) : Type := {
  chan_enter : X -> outcome unit * X;
  chan_exit : X -> outcome unit * X;
  (** [c(m)]: the reply, or [None] when nothing was received. *)
  chan_call : bytes -> X -> outcome (option bytes) * X
}.
Arguments chan_enter {X} _ _.
Arguments chan_exit {X} _ _.
Arguments chan_call {X} _ _ _.

Section Eeprom.
Import epson.

Context {X : Type} (ch : channel X).

(** The state of an [Epson] object: its [spec], the channel, and the
    transcript of the messages handed to [c] with the reply to each, in
    order (kept by the model only, to state what was sent). *)
Record estate : Type := {
  spec : Spec;
  chan : X;
  sent : list (bytes * option bytes)
}.

Definition with_chan {A} (f : X -> outcome A * X) : M estate A :=
  fun s => let (o, x) := f (chan s) in
           (o, {| spec := spec s; chan := x; sent := sent s |}).

Definition ctrl_enter : M estate unit := with_chan (chan_enter ch).
Definition ctrl_exit : M estate unit := with_chan (chan_exit ch).

Definition reply_of (o : outcome (option bytes)) : option bytes :=
  match o with
  | Ret r => r
  | Raise _ => None
  end.

Definition ctrl_call (m : bytes) : M estate (option bytes) :=
  fun s =>
    let (o, x) := chan_call ch m (chan s) in
    (o, {| spec := spec s; chan := x; sent := sent s ++ [(m, reply_of o)] |}).

Definition put_rkey (k : Z) : M estate unit :=
  modify (fun s => {| spec := set_rkey k (spec s); chan := chan s; sent := sent s |}).

(** The loop [for (x, r) in zip(xs, self._ictrl(msgs...)): body], where
    [msgs] was built from [xs], one message per element.  Each round
    has the generator encode the message (reading [spec.rkey] then) and
    call the channel, and then runs the body. *)
Fixpoint ictrl_rounds {A B} (items : list (A * (command * bytes)))
    (body : A -> option bytes -> B -> M estate B) (acc : B) : M estate B :=
  match items with
  | [] => ret acc
  | (x, (cmd, payload)) :: rest =>
      rk <- gets (fun s => rkey (spec s)) ;;
      m <- lift (encode rk cmd payload) ;;
      r <- ctrl_call m ;;
      acc' <- body x r acc ;;
      ictrl_rounds rest body acc'
  end.

(** The generator enters [ctrl_channel] when [zip] first advances it and
    leaves it when it is discarded at the end of the loop; with no element
    it is never started. *)
Definition zip_ictrl {A B} (items : list (A * (command * bytes)))
    (body : A -> option bytes -> B -> M estate B) (acc : B) : M estate B :=
  match items with
  | [] => ret acc
  | _ :: _ =>
      _ <- ctrl_enter ;;
      acc' <- ictrl_rounds items body acc ;;
      _ <- ctrl_exit ;;
      ret acc'
  end.

(** [Epson.read_eeprom(addr...)] *)
Definition read_eeprom (addr : list Z) : M estate (list (Z * option Z)) :=
  sp <- gets spec ;;
  let addr := match addr with
              | [] => py_range (mem_low sp) (mem_high sp + 1)
              | _ :: _ => addr
              end in
  let c := if rlen sp =? 1 then FB else FH in
  msgs <- lift (traverse
            (fun a => let? p := struct_res (pack LE [c] [a]) in
                      Ret (a, (Factory "|" "A", p))) addr) ;;
  zip_ictrl msgs (fun a r res => ret (res ++ [slot c a r])) [].

(** The body of the loop of [write_eeprom] for the pair [av] and the reply
    [r]: [res &= (b':OK;' in r) and ((not check_read) or
    (self.read_eeprom(a) == [(a, v)]))]. *)
Definition write_body (check_read : bool) (av : Z * option Z)
    (r : option bytes) (res : bool) : M estate bool :=
  match r with
  | None => raise TypeError
  | Some r =>
      if bytes_in (bs ":OK;") r then
        if check_read then
          rd <- read_eeprom [fst av] ;;
          ret (res && bool_decide (rd = [av]))
        else ret (res && true)
      else ret (res && false)
  end.

(** Lines 192-203 of [write_eeprom]: resolve the key, build the messages,
    send them and accumulate [res].  A value may be [None] since the
    restoring call passes the pairs that [read_eeprom] returned. *)
Definition write_pass (addrval : list (Z * option Z)) (wkey_arg : option bytes)
    (check_read : bool) : M estate bool :=
  sp <- gets spec ;;
  let wk := match wkey_arg with None => wkey sp | Some k => Some k end in
  let c := if wlen sp =? 1 then FB else FH in
  msgs <- lift (traverse
            (fun av : Z * option Z =>
               let? p := match snd av with
                         | Some v => struct_res (pack LE [c; FB] [fst av; v])
                         | None => Raise StructError
                         end in
               match wk with
               | Some k => Ret (av, (Factory "|" "B", p ++ k))
               | None => Raise TypeError
               end) addrval) ;;
  zip_ictrl msgs (write_body check_read) true.

(** [Epson.write_eeprom(addrval..., wkey, check_read, atomic)].  The call it
    makes to itself has [atomic=False], so it is one more [write_pass]. *)
Definition write_eeprom (addrval : list (Z * option Z)) (wkey_arg : option bytes)
    (check_read atomic : bool) : M estate bool :=
  prev <- (if atomic then read_eeprom (map fst addrval) else ret []) ;;
  sp <- gets spec ;;
  let wk := match wkey_arg with None => wkey sp | Some k => Some k end in
  res <- write_pass addrval wkey_arg check_read ;;
  if atomic && negb res then
    _ <- write_pass prev wk check_read ;;
    ret res
  else ret res.

(** The [for c in ikeys: ... else: ...] of [find_rkey]. *)
Fixpoint find_rkey_loop (ikeys : list Z) (orig pos : Z) : M estate (option Z) :=
  match ikeys with
  | [] => _ <- put_rkey orig ;; ret None
  | c :: rest =>
      _ <- put_rkey c ;;
      rd <- read_eeprom [pos] ;;
      match rd with
      | [] => raise IndexError
      | (_, Some _) :: _ => ret (Some c)
      | (_, None) :: _ => find_rkey_loop rest orig pos
      end
  end.

(** [Epson.find_rkey(ikeys)] *)
Definition find_rkey (ikeys : list Z) : M estate (option Z) :=
  orig <- gets (fun s => rkey (spec s)) ;;
  pos <- gets (fun s => mem_low (spec s)) ;;
  _ <- ctrl_enter ;;
  r <- find_rkey_loop ikeys orig pos ;;
  _ <- ctrl_exit ;;
  ret r.

End Eeprom.

Arguments estate X : clear implicits.

(** ** A scripted control channel

    The replies are fixed in advance and handed out one per call; entering
    and leaving do nothing.  Used to run the EEPROM operations on concrete
    printers' answers. *)

Module mock.
Import epson.

Definition script : Type := list (option bytes).

Definition call (m : bytes) (x : script) : outcome (option bytes) * script :=
  match x with
  | [] => (Ret None, [])
  | r :: x' => (Ret r, x')
  end.

Definition ch : channel script := {|
  chan_enter := fun x => (Ret tt, x);
  chan_exit := fun x => (Ret tt, x);
  chan_call := call
|}.

Definition start (sp : Spec) (x : script) : estate script :=
  {| spec := sp; chan := x; sent := [] |}.

End mock.

(** ** epson.py: the reset operations built from [Spec.mem] *)

Module reset.
Import epson.

(** Case folding of [re.I], on Latin-1 code points. *)
Definition lower (c : ascii) : ascii :=
  let n := ord c in
  if ((65 <=? n) && (n <=? 90))
     || ((192 <=? n) && (n <=? 222) && negb (n =? 215))
  then ascii_of_N (Z.to_N (n + 32)) else c.

Definition ci_eqb (a b : ascii) : bool := Ascii.eqb (lower a) (lower b).

Fixpoint ci_prefix (pat s : list ascii) : bool :=
  match pat, s with
  | [], _ => true
  | p :: pat', c :: s' => ci_eqb p c && ci_prefix pat' s'
  | _ :: _, [] => false
  end.

(** [re.search(pat, s, re.I)] for a pattern without metacharacters, as
    the two patterns of [_mem_ops] are. *)
Fixpoint re_search_I (pat s : list ascii) : bool :=
  ci_prefix pat s ||
  match s with
  | [] => false
  | _ :: s' => re_search_I pat s'
  end.

Definition matches (pat : string) (m : mem_entry) : bool :=
  re_search_I (list_ascii_of_string pat) (list_ascii_of_string (desc m)).

(** [av[k] = v] on a dict kept as an association list in insertion
    order: an existing key keeps its place and takes the new value. *)
Fixpoint dict_set (k v : Z) (av : list (Z * Z)) : list (Z * Z) :=
  match av with
  | [] => [(k, v)]
  | (k', v') :: av' =>
      if k' =? k then (k, v) :: av' else (k', v') :: dict_set k v av'
  end.

(** [av.update(kvs)] *)
Definition dict_update (av kvs : list (Z * Z)) : list (Z * Z) :=
  fold_left (fun d kv => dict_set (fst kv) (snd kv) d) kvs av.

(** [[0]*n] *)
Definition zeros (n : nat) : list Z := repeat 0 n.

(** The loop of [get_mem]. *)
Definition merge (pat : string) (mem : list mem_entry) : list (Z * Z) :=
  fold_left
    (fun av m =>
       if matches pat m then
         dict_update av
           (combine (addr m)
              match reset m with
              | Some r => r
              | None => zeros (List.length (addr m))
              end)
       else av)
    mem [].

(** [Spec.get_mem(pat)] *)
Definition get_mem (sp : Spec) (pat : string) : option mem_entry :=
  match merge pat (mem sp) with
  | [] => None
  | av => Some {| addr := map fst av;
                  desc := ("All " ++ pat ++ "s")%string;
                  reset := Some (map snd av);
                  min := None |}
  end.

(** [x or y] on two sequences, an absent one counting as empty. *)
Definition seq_or (x : option (list Z)) (y : list Z) : list Z :=
  match x with
  | Some (v :: l) => v :: l
  | _ => y
  end.

(** [\w] on Latin-1 code points. *)
Definition is_word (c : ascii) : bool :=
  let n := ord c in
  ((48 <=? n) && (n <=? 57)) || ((65 <=? n) && (n <=? 90))
  || ((97 <=? n) && (n <=? 122)) || (n =? 95)
  || (n =? 170) || (n =? 178) || (n =? 179) || (n =? 181) || (n =? 185)
  || (n =? 186) || ((188 <=? n) && (n <=? 190))
  || ((192 <=? n) && (n <=? 214)) || ((216 <=? n) && (n <=? 246))
  || ((248 <=? n) && (n <=? 255)).

(** [re.subn(r'\W', '_', s)[0]] *)
Definition slug (s : string) : string :=
  string_of_list_ascii
    (map (fun c => if is_word c then c else "_"%char) (list_ascii_of_string s)).

Definition hex_char (d : Z) : ascii :=
  ascii_of_N (Z.to_N (if d <? 10 then 48 + d else 55 + d)).

Fixpoint hex_digits (fuel : nat) (n : Z) : list ascii :=
  match fuel with
  | O => []
  | S f => (if n <? 16 then [] else hex_digits f (n / 16)) ++ [hex_char (n mod 16)]
  end.

(** ['%02X' % a] *)
Definition fmt_02X (a : Z) : string :=
  let d := hex_digits (S (Z.to_nat (Z.log2 (Z.abs a)))) (Z.abs a) in
  string_of_list_ascii
    (if a <? 0 then "-"%char :: d
     else if (List.length d <? 2)%nat then "0"%char :: d else d).

(** The callable that [_make_reset] returns: its [__name__] and the pairs
    it passes to [write_eeprom(..., atomic=True)]. *)
Record reset_op : Type := {
  op_name : string;
  op_pairs : list (Z * Z)
}.

(** [Epson._make_reset] applied to the keys of an entry *)
Definition _make_reset (m : mem_entry) : reset_op :=
  let reset := seq_or (reset m) (seq_or (min m) (zeros (List.length (addr m)))) in
  {| op_name :=
       ("do_reset_" ++ slug (desc m) ++ "_"
          ++ String.concat "" (map (fun a => ("x" ++ fmt_02X a)%string) (addr m)))%string;
     op_pairs := combine (addr m) reset |}.

(** [Epson._mem_ops()], as the list of what it yields. *)
Definition _mem_ops (sp : Spec) : list reset_op :=
  map _make_reset (mem sp)
  ++ flat_map (fun g => match get_mem sp g with
                        | Some m => [_make_reset m]
                        | None => []
                        end)
       ["waste counter"; "platen pad counter"]%string.

End reset.

Section RunReset.
Context {X : Type} (ch : channel X).

(** Calling the operation: [self.write_eeprom( *zip(addr, reset), atomic=True)]. *)
Definition run_reset (op : reset.reset_op) : M (estate X) bool :=
  write_eeprom ch (map (fun av => (fst av, Some (snd av))) (reset.op_pairs op))
    None true true.

End RunReset.

(** ** epson.py: [find_wkey] *)

Section FindWkey.
Import epson.

Context {X : Type} (ch : channel X).

Definition set_wkey (k : option bytes) (sp : Spec) : Spec := {|
  brand := brand sp; idVendor := idVendor sp; idProduct := idProduct sp;
  rkey := rkey sp; wkey := k; wkey1 := wkey1 sp;
  rlen := rlen sp; wlen := wlen sp;
  mem_low := mem_low sp; mem_high := mem_high sp;
  mem := mem sp; models := models sp; model := model sp
|}.

Definition put_wkey (k : bytes) : M (estate X) unit :=
  modify (fun s => {| spec := set_wkey (Some k) (spec s);
                      chan := chan s; sent := sent s |}).

(** The [for k in ikeys:] of [find_wkey]; falling off its end returns
    [None].  Both writes take the defaults [check_read=True] and
    [atomic=False]; the result of the second is not looked at.  The
    [print(k)] before it is left out. *)
Fixpoint find_wkey_loop (ikeys : list bytes) (addr val newval : Z)
    : M (estate X) (option bytes) :=
  match ikeys with
  | [] => ret None
  | k :: rest =>
      ok <- write_eeprom ch [(addr, Some newval)] (Some k) true false ;;
      if ok then
        _ <- write_eeprom ch [(addr, Some val)] (Some k) true false ;;
        _ <- put_wkey k ;;
        ret (Some k)
      else find_wkey_loop rest addr val newval
  end.

(** [Epson.find_wkey(ikeys, addr)] for an iterable [ikeys] of keys.  The
    branch for [ikeys is None], which collects the keys of the model
    database, is left out.  [val + 1] is computed before the channel is
    entered, and raises a [TypeError] when the read gave no value. *)
Definition find_wkey (ikeys : list bytes) (addr : option Z)
    : M (estate X) (option bytes) :=
  a <- match addr with
       | None => gets (fun s => mem_low (spec s))
       | Some a => ret a
       end ;;
  rd <- read_eeprom ch [a] ;;
  val <- match rd with
         | [] => raise IndexError
         | (_, v) :: _ => ret v
         end ;;
  match val with
  | None => raise TypeError
  | Some val =>
      _ <- ctrl_enter ch ;;
      r <- find_wkey_loop ikeys a val (val + 1) ;;
      _ <- ctrl_exit ch ;;
      ret r
  end.

End FindWkey.

(** ** d4.py: the transaction protocol ([_make_tx_command], [protocol_0x20],
       [protocol_0x10]) *)

Module tx.

(** A field value of a command tuple: an [int], [None], or the trailing
    [str]. *)
Inductive fval : Type :=
| FInt (z : Z)
| FNone
| FStr (s : string).

(** One row [(code, name, sformat, fields, defaults)] of a command table;
    [star] tells whether [sformat] ends with ['*']. *)
Record row : Type := {
  code : Z;
  name : string;
  sformat : list fmtc;
  star : bool;
  fields : list string;
  defaults : list fval
}.

(** An instance of the named tuple made for a row. *)
Record pkt : Type := {
  p_row : row;
  p_vals : list fval
}.

Definition B := FB.
Definition H := FH.

Definition mk (code : Z) (name : string) (sformat : list fmtc) (star : bool)
    (fields : list string) (defaults : list fval) : row :=
  {| code := code; name := name; sformat := sformat; star := star;
     fields := fields; defaults := defaults |}.

Definition protocol_0x20 : list row := [
  mk 0x00 "Init" [B] false ["revision"] [FInt 0x20];
  mk 0x80 "InitReply" [B; B] false ["result"; "revision"] [FInt 0x20];
  mk 0x01 "OpenChannel" [B; B; H; H; H] false
     ["sidP"; "sidS"; "maxPTS"; "maxSTP"; "maxCredit"]
     [FInt 0x100; FInt 0x100; FInt 0x0];
  mk 0x81 "OpenChannelReply" [B; B; B; H; H; H; H] false
     ["result"; "sidP"; "sidS"; "maxPTS"; "maxSTP"; "maxCredit"; "grantedCredit"]
     [FNone; FNone; FNone; FNone; FNone];
  mk 0x02 "CloseChannel" [B; B] false ["sidP"; "sidS"] [];
  mk 0x82 "CloseChannelReply" [B; B; B] false ["result"; "sidP"; "sidS"] [];
  mk 0x03 "Credit" [B; B; H] false ["sidP"; "sidS"; "addCredit"] [];
  mk 0x83 "CreditReply" [B; B; B] false ["result"; "sidP"; "sidS"] [];
  mk 0x04 "CreditRequest" [B; B; H] false ["sidP"; "sidS"; "maxCredit"] [FInt 0x0];
  mk 0x84 "CreditRequestReply" [B; B; B; H] false
     ["result"; "sidP"; "sidS"; "addCredit"] [];
  mk 0x08 "Exit" [] false [] [];
  mk 0x88 "ExitReply" [B] false ["result"] [];
  mk 0x09 "GetSocketID" [] true ["serviceName"] [];
  mk 0x89 "GetSocketIDReply" [B; B] true ["result"; "socketID"; "serviceName"] [];
  mk 0x0A "GetServiceName" [B] false ["socketID"] [];
  mk 0x8A "GetServiceNameReply" [B; B] true ["result"; "socketID"; "serviceName"] [];
  mk 0x7F "Error" [B; B; B] false ["errorPSID"; "errorSSID"; "errorCode"] []
]%string.

Definition protocol_0x10 : list row := [
  mk 0x00 "Init" [B] false ["revision"] [FInt 0x10];
  mk 0x80 "InitReply" [B; B] false ["result"; "revision"] [FInt 0x10];
  mk 0x01 "OpenChannel" [B; B; H; H; H; H] false
     ["sidP"; "sidS"; "maxPTS"; "maxSTP"; "maxCredit"; "initCredit"]
     [FInt 0x0100; FInt 0x0100; FInt 0x0000; FInt 0x0000];
  mk 0x81 "OpenChannelReply" [B; B; B; H; H; H; H] false
     ["result"; "sidP"; "sidS"; "maxPTS"; "maxSTP"; "maxCredit"; "grantedCredit"]
     [FNone; FNone; FNone; FNone; FNone];
  mk 0x02 "CloseChannel" [B; B; B] false ["sidP"; "sidS"; "x1"] [FInt 0x00];
  mk 0x82 "CloseChannelReply" [B; B; B] false ["result"; "sidP"; "sidS"] [];
  mk 0x03 "Credit" [B; B; H] false ["sidP"; "sidS"; "addCredit"] [];
  mk 0x83 "CreditReply" [B; B; B] false ["result"; "sidP"; "sidS"] [];
  mk 0x04 "CreditRequest" [B; B; H; H] false ["sidP"; "sidS"; "x1"; "x2"]
     [FInt 0x0080; FInt 0xffff];
  mk 0x84 "CreditRequestReply" [B; B; B; H] false
     ["result"; "sidP"; "sidS"; "addCredit"] [];
  mk 0x08 "Exit" [] false [] [];
  mk 0x88 "ExitReply" [B] false ["result"] [];
  mk 0x09 "GetSocketID" [] true ["serviceName"] [];
  mk 0x89 "GetSocketIDReply" [B; B] true ["result"; "socketID"; "serviceName"] [];
  mk 0x0A "GetServiceName" [B] false ["socketID"] [];
  mk 0x8A "GetServiceNameReply" [B; B] true ["result"; "socketID"; "serviceName"] [];
  mk 0x7F "Error" [B; B; B] false ["errorPSID"; "errorSSID"; "errorCode"] []
]%string.

(** The revision a transaction channel speaks: its [protocol] attribute. *)
Inductive revision : Type := Rev10 | Rev20.

Definition table (r : revision) : list row :=
  match r with
  | Rev10 => protocol_0x10
  | Rev20 => protocol_0x20
  end.

(** [cmd_by_name[n]] and [cmd_by_code[c]]; no name or code occurs twice
    in a table. *)
Definition cmd_by_name (r : revision) (n : string) : option row :=
  find (fun x => String.eqb (name x) n) (table r).

Definition cmd_by_code (r : revision) (c : Z) : option row :=
  find (fun x => code x =? c) (table r).

(** [ERRORS]: the codes 0x80 to 0x87 have a message. *)
Definition has_error_text (c : Z) : bool := (0x80 <=? c) && (c <=? 0x87).

(** [hTuple( *args)]: too many arguments, or too few for the fields without
    a default, is a [TypeError]; defaults fill the rightmost fields. *)
Definition make (rw : row) (args : list fval) : outcome pkt :=
  let n := List.length (fields rw) in
  let d := List.length (defaults rw) in
  let k := List.length args in
  if (n <? k)%nat then Raise TypeError
  else if (k <? n - d)%nat then Raise TypeError
  else Ret {| p_row := rw;
              p_vals := args ++ skipn (k - (n - d)) (defaults rw) |}.

(** The loop of [decode] over shorter and shorter formats, for a
    truncated packet: [k] letters are tried, then [k-1], down to one. *)
Fixpoint decode_truncated (rw : row) (k : nat) (b : bytes) : option (outcome pkt) :=
  match k with
  | O => None
  | S k' =>
      let fmt := firstn k (sformat rw) in
      let bCap := calcsize fmt in
      if (bCap <=? List.length b)%nat then
        Some (let? f := struct_res (unpack BE fmt (firstn bCap b)) in
              make rw (map FInt f))
      else decode_truncated rw k' b
  end.

(** [hTuple.decode(b)] *)
Definition row_decode (rw : row) (b : bytes) : outcome pkt :=
  let hLen := calcsize (sformat rw) in
  let full :=
    let? f := struct_res (unpack BE (sformat rw) (firstn hLen b)) in
    if star rw then
      let? s := decode_ascii (skipn hLen b) in
      make rw (map FInt f ++ [FStr s])
    else make rw (map FInt f) in
  if (List.length b <? hLen)%nat && negb (star rw) then
    match decode_truncated rw (List.length (sformat rw) - 1) b with
    | Some r => r
    | None => full
    end
  else full.

Definition as_int (v : fval) : option Z :=
  match v with
  | FInt z => Some z
  | _ => None
  end.

Fixpoint as_ints (vs : list fval) : option (list Z) :=
  match vs with
  | [] => Some []
  | v :: vs' =>
      match as_int v, as_ints vs' with
      | Some z, Some zs => Some (z :: zs)
      | _, _ => None
      end
  end.

(** [hStruct.pack( *vs)]: a value that is not an [int] is a [struct.error]. *)
Definition pack_vals (fmt : list fmtc) (vs : list fval) : outcome bytes :=
  match as_ints vs with
  | Some zs => struct_res (pack BE fmt zs)
  | None => Raise StructError
  end.

(** [hTuple.encode( *a)] *)
Definition row_encode (rw : row) (args : list fval) : outcome bytes :=
  let? t := make rw args in
  if star rw then
    let? h := pack_vals (sformat rw) (removelast (p_vals t)) in
    let? s := match List.last (p_vals t) FNone with
              | FStr s => encode_ascii s
              | _ => Raise AttributeError
              end in
    Ret (byte_of_Z (code rw) :: h ++ s)
  else
    let? h := pack_vals (sformat rw) (p_vals t) in
    Ret (byte_of_Z (code rw) :: h).

(** [protocol.decode(b)] *)
Definition decode (r : revision) (b : bytes) : outcome pkt :=
  let? c := struct_res (unpack BE [B] (firstn 1 b)) in
  match c with
  | [c] =>
      match cmd_by_code r c with
      | Some rw => row_decode rw (skipn 1 b)
      | None => Raise KeyError
      end
  | _ => Raise StructError
  end.

(** [protocol.encode(cmd, *a)] *)
Definition encode (r : revision) (cmd : string) (args : list fval) : outcome bytes :=
  match cmd_by_name r cmd with
  | Some rw => row_encode rw args
  | None => Raise KeyError
  end.

(** [p.<field>] *)
Fixpoint lookup_field (fs : list string) (vs : list fval) (f : string) : option fval :=
  match fs, vs with
  | n :: fs', v :: vs' => if String.eqb n f then Some v else lookup_field fs' vs' f
  | _, _ => None
  end.

Definition attr (p : pkt) (f : string) : option fval :=
  lookup_field (fields (p_row p)) (p_vals p) f.

(** [hasattr(p, f)] for a name that only occurs as a field. *)
Definition hasattr (p : pkt) (f : string) : bool :=
  existsb (String.eqb f) (fields (p_row p)).

(** Truth value of a tuple. *)
Definition truthy (p : pkt) : bool :=
  match p_vals p with
  | [] => false
  | _ :: _ => true
  end.

End tx.

(** ** d4.py: [D4Link], [TXChannel] and [Channel]

    The link talks to [self.target], a byte pipe with [write] and [read];
    the section takes it as an interface acting on the pipe's state [P]. *)

Record pipe (P : Type) : Type := {
  pipe_enter : P -> outcome unit * P;
  pipe_write : bytes -> P -> outcome Z * P;
  pipe_read : P -> outcome bytes * P
}.
Arguments pipe_enter {P} _ _.
Arguments pipe_write {P} _ _ _.
Arguments pipe_read {P} _ _.

Module d4.

(** A channel object is referred to by its location in [heap]: the link's
    table and the callers of [send] hold references to the same objects. *)
Definition loc : Type := nat.

(** A [TXChannel] ([is_tx]) or a [Channel].  [rx_pkt] is the
    [_received] of a [TXChannel], [rx_data] that of a [Channel]. *)
Record chanobj : Type := {
  is_tx : bool;
  ch_cid : Z * Z;
  ch_name : string;
  ch_credit : Z;
  ch_protocol : tx.revision;
  rx_pkt : option tx.pkt;
  rx_data : option bytes
}.

Definition new_txchannel : chanobj := {|
  is_tx := true; ch_cid := (0x00, 0x00); ch_name := "(transaction channel)";
  ch_credit := 0; ch_protocol := tx.Rev20; rx_pkt := None; rx_data := None
|}.

Definition new_channel (cid : Z * Z) (name : string) : chanobj := {|
  is_tx := false; ch_cid := cid; ch_name := name;
  ch_credit := 0; ch_protocol := tx.Rev20; rx_pkt := None; rx_data := None
|}.

#[global] Instance chanobj_inhabited : Inhabited chanobj := populate new_txchannel.

Definition add_credit (z : Z) (o : chanobj) : chanobj := {|
  is_tx := is_tx o; ch_cid := ch_cid o; ch_name := ch_name o;
  ch_credit := ch_credit o + z; ch_protocol := ch_protocol o;
  rx_pkt := rx_pkt o; rx_data := rx_data o
|}.

Definition set_protocol (r : tx.revision) (o : chanobj) : chanobj := {|
  is_tx := is_tx o; ch_cid := ch_cid o; ch_name := ch_name o;
  ch_credit := ch_credit o; ch_protocol := r;
  rx_pkt := rx_pkt o; rx_data := rx_data o
|}.

Definition set_rx_pkt (p : option tx.pkt) (o : chanobj) : chanobj := {|
  is_tx := is_tx o; ch_cid := ch_cid o; ch_name := ch_name o;
  ch_credit := ch_credit o; ch_protocol := ch_protocol o;
  rx_pkt := p; rx_data := rx_data o
|}.

Definition set_rx_data (d : option bytes) (o : chanobj) : chanobj := {|
  is_tx := is_tx o; ch_cid := ch_cid o; ch_name := ch_name o;
  ch_credit := ch_credit o; ch_protocol := ch_protocol o;
  rx_pkt := rx_pkt o; rx_data := d
|}.

Section Link.
Context {P : Type} (io : pipe P).

(** The state of a [D4Link].  [received] is its [_received] attribute,
    empty until first set.  [dispatched] is kept by the model only: the
    calls of [_on_received], in order. *)
Record link : Type := {
  target : P;
  heap : gmap loc chanobj;
  channels : gmap (Z * Z) loc;
  txn : loc;
  received : bytes;
  nctx : Z;
  CMD_ENTER_D4 : option bytes;
  CMD_ENTER_D4_REPLY : option bytes;
  dispatched : list (packet.hTuple * bytes)
}.

Definition obj (l : link) (c : loc) : chanobj := heap l !!! c.

Definition upd_chan (c : loc) (f : chanobj -> chanobj) (l : link) : link := {|
  target := target l;
  heap := <[c := f (obj l c)]> (heap l);
  channels := channels l; txn := txn l; received := received l;
  nctx := nctx l; CMD_ENTER_D4 := CMD_ENTER_D4 l;
  CMD_ENTER_D4_REPLY := CMD_ENTER_D4_REPLY l; dispatched := dispatched l
|}.

Definition set_received (b : bytes) (l : link) : link := {|
  target := target l; heap := heap l;
  channels := channels l; txn := txn l; received := b;
  nctx := nctx l; CMD_ENTER_D4 := CMD_ENTER_D4 l;
  CMD_ENTER_D4_REPLY := CMD_ENTER_D4_REPLY l; dispatched := dispatched l
|}.

Definition set_nctx (n : Z) (l : link) : link := {|
  target := target l; heap := heap l;
  channels := channels l; txn := txn l; received := received l;
  nctx := n; CMD_ENTER_D4 := CMD_ENTER_D4 l;
  CMD_ENTER_D4_REPLY := CMD_ENTER_D4_REPLY l; dispatched := dispatched l
|}.

Definition log_dispatch (h : packet.hTuple) (b : bytes) (l : link) : link := {|
  target := target l; heap := heap l;
  channels := channels l; txn := txn l; received := received l;
  nctx := nctx l; CMD_ENTER_D4 := CMD_ENTER_D4 l;
  CMD_ENTER_D4_REPLY := CMD_ENTER_D4_REPLY l;
  dispatched := dispatched l ++ [(h, b)]
|}.

Definition with_target {A} (f : P -> outcome A * P) : M link A :=
  fun l => let (o, p) := f (target l) in
           (o, {| target := p; heap := heap l;
                  channels := channels l; txn := txn l; received := received l;
                  nctx := nctx l; CMD_ENTER_D4 := CMD_ENTER_D4 l;
                  CMD_ENTER_D4_REPLY := CMD_ENTER_D4_REPLY l;
                  dispatched := dispatched l |}).

Definition credit_of (l : link) (c : loc) : Z := ch_credit (obj l c).

(** The tail of [D4Link.send], from [channel.credit -= cost] on. *)
Definition dispatch (payload : bytes) (c : loc) (credit control cost : Z)
    : M link Z :=
  _ <- modify (upd_chan c (add_credit (- cost))) ;;
  cid <- gets (fun l => ch_cid (obj l c)) ;;
  b <- lift (packet.encode payload (fst cid) (snd cid) credit control) ;;
  with_target (pipe_write io b).

Definition int_attr (p : tx.pkt) (f : string) : outcome Z :=
  match tx.attr p f with
  | Some (tx.FInt z) => Ret z
  | Some _ => Raise TypeError
  | None => Raise AttributeError
  end.

(** [TXChannel.on_received(data, header)] for the channel object
    [self].  The [try] covers the decoding only. *)
Definition tx_on_received (self : loc) (data : bytes) : M link unit :=
  rev <- gets (fun l => ch_protocol (obj l self)) ;;
  match tx.decode rev data with
  | Raise _ => ret tt
  | Ret p =>
      _ <- modify (upd_chan self (set_rx_pkt (Some p))) ;;
      _ <- (if tx.hasattr p "addCredit" then
              sidP <- lift (int_attr p "sidP") ;;
              sidS <- lift (int_attr p "sidS") ;;
              tbl <- gets channels ;;
              match tbl !! (sidP, sidS) with
              | None => raise KeyError
              | Some c =>
                  add <- lift (int_attr p "addCredit") ;;
                  modify (upd_chan c (add_credit add))
              end
            else ret tt) ;;
      if String.eqb (tx.name (tx.p_row p)) "Error" then
        code <- lift (int_attr p "errorCode") ;;
        if tx.has_error_text code then ret tt else raise KeyError
      else ret tt
  end.

(** [c.on_received(payload, header)], by the class of [c]. *)
Definition chan_on_received (c : loc) (data : bytes) : M link unit :=
  tx <- gets (fun l => is_tx (obj l c)) ;;
  if tx then tx_on_received c data
  else modify (upd_chan c (set_rx_data (Some data))).

(** [D4Link._on_received(header, payload)] *)
Definition _on_received (header : packet.hTuple) (payload : bytes) : M link unit :=
  _ <- modify (log_dispatch header payload) ;;
  tbl <- gets channels ;;
  match tbl !! packet.cid header with
  | None => ret tt
  | Some c =>
      _ <- modify (upd_chan c (add_credit (packet.credit header))) ;;
      match payload with
      | [] => ret tt
      | _ :: _ => chan_on_received c payload
      end
  end.

(** The [for] loop of [D4Link.retreive] with [n] rounds left and the
    local [rest]. *)
Fixpoint retreive_loop (n : nat) (rest : bytes) : M link unit :=
  match n with
  | O => ret tt
  | S n' =>
      resp <- with_target (pipe_read io) ;;
      match resp with
      | [] => retreive_loop n' rest
      | _ :: _ =>
          let rest := rest ++ resp in
          hp <- lift (packet.decode rest) ;;
          let header := fst hp in
          let payload := snd hp in
          if Z.of_nat (List.length payload) <? packet.payload_length header
          then retreive_loop n' rest
          else
            let pl := packet.payload_length header in
            _ <- modify (set_received (py_drop pl payload)) ;;
            _on_received header (py_take pl payload)
      end
  end.

(** [D4Link.retreive(retries)] *)
Definition retreive (retries : nat) : M link unit :=
  rest <- gets received ;;
  retreive_loop (1 + retries) rest.

(** The [for r in range(8)] loop of [TXChannel.__call__]. *)
Fixpoint tx_wait (n : nat) (self : loc) (cmd : string) : M link (option tx.pkt) :=
  match n with
  | O => ret None
  | S n' =>
      _ <- retreive 6 ;;
      r <- gets (fun l => rx_pkt (obj l self)) ;;
      match r with
      | Some p =>
          if tx.truthy p && String.eqb (tx.name (tx.p_row p)) (cmd ++ "Reply")
          then ret (Some p)
          else tx_wait n' self cmd
      | None => tx_wait n' self cmd
      end
  end.

(** [TXChannel.__call__(cmd, *a)] on the object [self], with
    [sender payload] standing for the call of [self.link.send] that
    [TXChannel.send] makes.  The packet is decoded once for the
    argument of [_log.debug]. *)
Definition tx_call_with (sender : bytes -> M link (option Z)) (self : loc)
    (cmd : string) (args : list tx.fval) : M link (option tx.pkt) :=
  rev <- gets (fun l => ch_protocol (obj l self)) ;;
  payload <- lift (tx.encode rev cmd args) ;;
  _ <- lift (tx.decode rev payload) ;;
  _ <- sender payload ;;
  _ <- modify (upd_chan self (set_rx_pkt None)) ;;
  tx_wait 8 self cmd.

(** [self.txn('CreditRequest', *channel.cid)]: [TXChannel.send] passes
    [check=False] and [cost=1] for this command, so [D4Link.send] goes
    straight to its tail. *)
Definition credit_request (c : loc) : M link (option tx.pkt) :=
  t <- gets txn ;;
  cid <- gets (fun l => ch_cid (obj l c)) ;;
  tx_call_with
    (fun payload => w <- dispatch payload t 1 0 1 ;; ret (Some w))
    t "CreditRequest" [tx.FInt (fst cid); tx.FInt (snd cid)].

(** The [for retry in range(3)] loop of [D4Link.send]: [true] when it
    left by [break], [false] when it ran out (the [else] branch). *)
Fixpoint credit_loop (n : nat) (c : loc) (cost : Z) : M link bool :=
  match n with
  | O => ret false
  | S n' =>
      cr <- gets (fun l => credit_of l c) ;;
      if cost <=? cr then ret true
      else _ <- credit_request c ;; credit_loop n' c cost
  end.

(** [D4Link.send(payload, channel, credit, control, cost, check)];
    [None] is the return without a value after "Missing credits". *)
Definition send (payload : bytes) (c : loc) (credit control cost : Z)
    (check : bool) : M link (option Z) :=
  if check then
    ok <- credit_loop 3 c cost ;;
    if ok then w <- dispatch payload c credit control cost ;; ret (Some w)
    else ret None
  else w <- dispatch payload c credit control cost ;; ret (Some w).

Definition no_check (cmd : string) : bool :=
  String.eqb cmd "CreditRequest" || String.eqb cmd "Credit".

(** [self.txn(cmd, *a)]: [TXChannel.__call__] with [TXChannel.send]. *)
Definition tx_call (cmd : string) (args : list tx.fval) : M link (option tx.pkt) :=
  t <- gets txn ;;
  tx_call_with
    (fun payload =>
       send payload t 1 0 (if String.eqb cmd "Init" then 0 else 1)
         (negb (no_check cmd)))
    t cmd args.

(** [D4Link._send_init(revision)]; [Some true] is [True], [None] the
    return without a value.  The recursion has no bound in the source
    but the interpreter's: [fuel] calls are allowed.  [raise
    NotImplemented] raises a [TypeError], [NotImplemented] not being an
    exception. *)
Fixpoint _send_init (fuel : nat) (revision : Z) : M link (option bool) :=
  match fuel with
  | O => raise RecursionError
  | S fuel' =>
      p <- tx_call "Init" [tx.FInt revision] ;;
      match p with
      | None => raise TypeError
      | Some p =>
          match tx.p_vals p with
          | [tx.FInt res; tx.FInt rev] =>
              if res =? 0x00 then ret (Some true)
              else if (res =? 0x01) || (res =? 0x0B) then raise TypeError
              else if res =? 0x02 then
                if negb (rev =? revision) then
                  if rev =? 0x10 then
                    t <- gets txn ;;
                    _ <- modify (upd_chan t (set_protocol tx.Rev10)) ;;
                    _send_init fuel' rev
                  else if rev =? 0x20 then
                    t <- gets txn ;;
                    _ <- modify (upd_chan t (set_protocol tx.Rev20)) ;;
                    _send_init fuel' rev
                  else ret None
                else ret None
              else ret None
          | _ => raise ValueError
          end
      end
  end.

(** The [for i in range(5)] loop of [__enter__]. *)
Fixpoint enter_d4_poll (n : nat) (reply : option bytes) (r : bytes) : M link unit :=
  match n with
  | O => ret tt
  | S n' =>
      b <- with_target (pipe_read io) ;;
      let r := r ++ b in
      match reply with
      | None => raise TypeError
      | Some rep => if bytes_in rep r then ret tt else enter_d4_poll n' reply r
      end
  end.

(** [D4Link.__enter__()], with the depth allowed to [_send_init]. *)
Definition __enter__ (fuel : nat) : M link unit :=
  n <- gets nctx ;;
  _ <- (if n =? 0 then
          _ <- with_target (pipe_enter io) ;;
          cmd <- gets CMD_ENTER_D4 ;;
          _ <- match cmd with
               | Some (x :: c') =>
                   w <- with_target (pipe_write io (x :: c')) ;;
                   if w =? 0 then raise AssertionError
                   else
                     rep <- gets CMD_ENTER_D4_REPLY ;;
                     enter_d4_poll 5 rep []
               | _ => ret tt
               end ;;
          ok <- _send_init fuel 0x20 ;;
          match ok with
          | Some true => ret tt
          | _ => raise InitFailed
          end
        else ret tt) ;;
  modify (fun l => set_nctx (nctx l + 1) l).

(** [D4Link(target)]: [__init__] with [_init_channels]. *)
Definition D4Link (tgt : P) : link := {|
  target := tgt;
  heap := {[ 0%nat := new_txchannel ]};
  channels := {[ (0x00, 0x00) := 0%nat ]};
  txn := 0%nat;
  received := [];
  nctx := 0;
  CMD_ENTER_D4 := None;
  CMD_ENTER_D4_REPLY := None;
  dispatched := []
|}.

(** The link after [EpsonD4._init_link]: the two byte strings are set
    and [get_channel('EPSON-CTRL', (0x02, 0x02))] has created the
    control channel, here at location 1. *)
Definition ctrl : loc := 1%nat.

Definition EpsonD4_link (tgt : P) : link := {|
  target := tgt;
  heap := {[ 0%nat := new_txchannel;
             ctrl := new_channel (0x02, 0x02) "EPSON-CTRL" ]};
  channels := {[ (0x00, 0x00) := 0%nat; (0x02, 0x02) := ctrl ]};
  txn := 0%nat;
  received := [];
  nctx := 0;
  CMD_ENTER_D4 :=
    Some ([Byte.x00; Byte.x00; Byte.x00; Byte.x1b; Byte.x01]
            ++ bs "@EJL 1284.4" ++ [Byte.x0a] ++ bs "@EJL" ++ [Byte.x0a]
            ++ bs "@EJL" ++ [Byte.x0a]);
  CMD_ENTER_D4_REPLY :=
    Some [Byte.x00; Byte.x00; Byte.x00; Byte.x08; Byte.x01; Byte.x00;
          Byte.xc5; Byte.x00];
  dispatched := []
|}.

End Link.

Arguments link P : clear implicits.

End d4.

(** ** A scripted byte pipe

    [read] hands out the prepared chunks one by one, then empty reads;
    [write] records what was written and returns its length. *)

Module mockpipe.

Record state : Type := {
  reads : list bytes;
  written : list bytes
}.

Definition read (p : state) : outcome bytes * state :=
  match reads p with
  | [] => (Ret [], p)
  | b :: r => (Ret b, {| reads := r; written := written p |})
  end.

Definition write (b : bytes) (p : state) : outcome Z * state :=
  (Ret (Z.of_nat (List.length b)),
   {| reads := reads p; written := written p ++ [b] |}).

Definition io : pipe state := {|
  pipe_enter := fun p => (Ret tt, p);
  pipe_write := write;
  pipe_read := read
|}.

Definition start (chunks : list bytes) : state :=
  {| reads := chunks; written := [] |}.

(** A packet as the peer would put it on the wire. *)
Definition wire (payload : bytes) (psid ssid credit control : Z) : bytes :=
  match packet.encode payload psid ssid credit control with
  | Ret b => b
  | Raise _ => []
  end.

End mockpipe.

(** ** The spec's words

    Definitions that follow the specification rather than the source: the
    layouts, relations and scenarios against which the embedded code is
    compared below. *)

Section SpecWords.
Import epson.

(** [v:u16] little-endian, as the spec writes it. *)
Definition u16_le (v : Z) : bytes := [byte_of_Z (v mod 256); byte_of_Z (v / 256)].

(** The read-key checksum triplet of the spec for an inner character of
    code [c]: [c], [~c & 0xFF], [rot1(c)]. *)
Definition rot1 (c : Z) : Z :=
  Z.lor (Z.land (Z.shiftr c 1) 0x7F) (Z.land (Z.shiftl c 7) 0x80).

Definition triplet (c : Z) : bytes :=
  [byte_of_Z c; byte_of_Z (Z.land (Z.lnot c) 0xFF); byte_of_Z (rot1 c)].

(** The reply the spec describes: ["@BDC PS EE:<6 hex chars>;"]. *)
Definition reply_text (h : list ascii) : string :=
  ("@BDC PS EE:" ++ string_of_list_ascii h ++ ";")%string.

Definition reply_form (h : list ascii) : bytes := bs (reply_text h).

Fixpoint be_int (b : bytes) (acc : Z) : Z :=
  match b with
  | [] => acc
  | x :: r => be_int r (256 * acc + Z_of_byte x)
  end.

(** What the hex characters encode according to the spec: an address of
    [rl] bytes, big-endian, followed by a one-byte value. *)
Definition echoed (rl : Z) (h : list ascii) : option (Z * Z) :=
  match fromhex h with
  | Ret b =>
      if Z.of_nat (List.length b) =? rl + 1
      then Some (be_int (firstn (Z.to_nat rl) b) 0, Z_of_byte (List.last b Byte.x00))
      else None
  | Raise _ => None
  end.

(** A reply parses when it is ASCII text in which the pattern of
    [read_eeprom] finds its hex group, and the group encodes an address
    and a value. *)
Definition parsed (rl : Z) (r : option bytes) : option (Z * Z) :=
  match r with
  | Some b =>
      match decode_ascii b with
      | Ret s =>
          match re_match_EE (list_ascii_of_string s) with
          | Some g => echoed rl g
          | None => None
          end
      | Raise _ => None
      end
  | None => None
  end.

Definition addr_fmt (rl : Z) : fmtc := if rl =? 1 then FB else FH.

Definition read_msg (c : fmtc) (a : Z) : outcome (Z * (command * bytes)) :=
  let? p := struct_res (pack LE [c] [a]) in Ret (a, (Factory "|" "A", p)).

(** A message that [encode] builds for the factory read [('|', 'A')]. *)
Definition is_factory_read (m : bytes) : Prop :=
  exists rk p, encode rk (Factory "|" "A") p = Ret m.

(** A message whose outer command is ["||"] and whose inner character,
    the seventh byte, is ["B"]: what [encode] builds for [('|', 'B')]. *)
Definition is_factory_write (m : bytes) : bool :=
  starts_with (bs "||") m &&
  match nth_error m 6 with
  | Some b => byte_eqb b Byte.x42
  | None => false
  end.

(** The read that [find_rkey] makes for the candidate [k]: a factory read
    of [pos] encoded under [k], and the reply [e] it got. *)
Definition tried (c : fmtc) (pos k : Z) (e : bytes * option bytes) : Prop :=
  exists p, pack LE [c] [pos] = Some p /\
            encode k (Factory "|" "A") p = Ret (fst e).

Definition unparsed (c : fmtc) (pos : Z) (e : bytes * option bytes) : Prop :=
  slot c pos (snd e) = (pos, None).

End SpecWords.

Section WriteWords.
Import epson.

Context {X : Type} (ch : channel X).

(** The spec's words for one pair: the factory write of [(a, v)] under the
    key [k] was sent and answered by [r]; the pair succeeded when [r]
    contains [":OK;"] and, unless [check_read] is off, a fresh read of [a]
    returned [v]. *)
Definition write_msg (sp : Spec) (k : bytes) (a v : Z) (m : bytes) : Prop :=
  exists p, pack LE [if wlen sp =? 1 then FB else FH; FB] [a; v] = Some p /\
            encode (rkey sp) (Factory "|" "B") (p ++ k) = Ret m.

Definition pair_checked (check_read : bool) (a v : Z) (r : bytes)
    (s1 : estate X) (ok : bool) (s2 : estate X) : Prop :=
  if bytes_in (bs ":OK;") r then
    if check_read then
      exists rd, read_eeprom ch [a] s1 = (Ret rd, s2) /\
                 ok = bool_decide (rd = [(a, Some v)])
    else ok = true /\ s2 = s1
  else ok = false /\ s2 = s1.

(** The result is the AND over all pairs. *)
Inductive pairs_written (k : bytes) (check_read : bool) :
    list (Z * option Z) -> estate X -> bool -> estate X -> Prop :=
| pw_nil s : pairs_written k check_read [] s true s
| pw_cons a v rest s m r s1 ok s2 b s3 :
    write_msg (spec s) k a v m ->
    ctrl_call ch m s = (Ret (Some r), s1) ->
    pair_checked check_read a v r s1 ok s2 ->
    pairs_written k check_read rest s2 b s3 ->
    pairs_written k check_read ((a, Some v) :: rest) s (ok && b) s3.

Definition write_item (sp : Spec) (k : bytes) (av : Z * option Z)
    (it : (Z * option Z) * (command * bytes)) : Prop :=
  exists v p, snd av = Some v /\
    pack LE [if wlen sp =? 1 then FB else FH; FB] [fst av; v] = Some p /\
    it = (av, (Factory "|" "B", p ++ k)).

(** A channel that never raises. *)
Definition answering : Prop :=
  (forall x, exists x', chan_enter ch x = (Ret tt, x'))
  /\ (forall x, exists x', chan_exit ch x = (Ret tt, x'))
  /\ (forall m x, exists r x', chan_call ch m x = (Ret r, x')).

End WriteWords.

Section Scenarios.
Import epson reset d4.

(** The printer of the spec's scenario 4: address 0x10 holds 0x42, the
    write is acknowledged, the read-back shows 0xFF; the restoring write
    is acknowledged and read back. *)
Definition printer_readback_fails : estate mock.script :=
  mock.start default_spec
    [Some (bs "@BDC PS EE:001042;"); Some (bs "@BDC PS EE:OK;");
     Some (bs "@BDC PS EE:0010FF;"); Some (bs "@BDC PS EE:OK;");
     Some (bs "@BDC PS EE:001042;")].

(** A printer that answers neither the read nor the write as hoped, for
    instance under a wrong read key: the reply to the read carries no
    value and the reply to the write no [":OK;"]. *)
Definition printer_unreadable : estate mock.script :=
  mock.start default_spec
    [Some (bs "@BDC PS EE:NA;"); Some (bs "@BDC PS EE:NA;")].

Definition count_writes (s : estate mock.script) : nat :=
  List.length (filter (fun e => is_factory_write (fst e)) (sent s)).

(** The pairs that the loop of [get_mem] takes from one entry. *)
Definition entry_pairs (m : mem_entry) : list (Z * Z) :=
  combine (addr m)
    match reset m with
    | Some r => r
    | None => zeros (List.length (addr m))
    end.

Definition merge_from (pat : string) (mem : list mem_entry)
    (av : list (Z * Z)) : list (Z * Z) :=
  fold_left (fun av m => if matches pat m then dict_update av (entry_pairs m) else av)
    mem av.

(** A spec with one waste-counter entry that gives [min] and no [reset]. *)
Definition spec_with_min : Spec := {|
  brand := "EPSON"; idVendor := 0x04b8; idProduct := None;
  rkey := 0; wkey := None; wkey1 := None;
  rlen := 2; wlen := 2; mem_low := 0x00; mem_high := 0xff;
  mem := [{| addr := [0x10]; desc := "Waste counter";
             reset := None; min := Some [0x05] |}];
  models := []; model := None
|}.

(** The link of the spec's scenario: the peer answers the first [Init]
    with [InitReply(0x02, 0x10)] and the second with
    [InitReply(0x00, 0x10)]. *)
Definition peer_rev10 : link mockpipe.state :=
  D4Link (mockpipe.start
            [mockpipe.wire [Byte.x80; Byte.x02; Byte.x10] 0 0 1 0;
             mockpipe.wire [Byte.x80; Byte.x00; Byte.x10] 0 0 1 0]).

(** A peer that answers [Init] with a revision the code does not know. *)
Definition peer_rev30 : link mockpipe.state :=
  D4Link (mockpipe.start [mockpipe.wire [Byte.x80; Byte.x02; Byte.x30] 0 0 1 0]).

(** A peer that answers [Init] with "retry later". *)
Definition peer_busy : link mockpipe.state :=
  D4Link (mockpipe.start [mockpipe.wire [Byte.x80; Byte.x01; Byte.x20] 0 0 1 0]).

(** [CreditRequestReply(result=0, sidP=2, sidS=2, addCredit=1)] on the
    wire. *)
Definition grant_one : bytes :=
  mockpipe.wire [Byte.x84; Byte.x00; Byte.x02; Byte.x02; Byte.x00; Byte.x01] 0 0 1 0.

(** The spec's scenario 5: the control channel has no credit and the peer
    grants one to the first request. *)
Definition peer_grants : link mockpipe.state :=
  EpsonD4_link (mockpipe.start [grant_one]).

(** A peer that never answers. *)
Definition peer_silent : link mockpipe.state :=
  EpsonD4_link (mockpipe.start []).

(** A peer that stays silent through two whole transactions (8 calls of
    [retreive], 7 reads each) and grants one credit to the third request. *)
Definition peer_grants_late : link mockpipe.state :=
  EpsonD4_link (mockpipe.start (repeat [] 112 ++ [grant_one])).

(** A peer that stays silent through one whole transaction and grants one
    credit to the second request. *)
Definition peer_grants_second : link mockpipe.state :=
  EpsonD4_link (mockpipe.start (repeat [] 56 ++ [grant_one])).

(** The [CreditRequest] for the control channel on the wire. *)
Definition credit_request_wire : bytes :=
  mockpipe.wire [Byte.x04; Byte.x02; Byte.x02; Byte.x00; Byte.x00] 0 0 1 0.

(** The packet of the spec's scenario 6, on the control channel. *)
Definition hello : bytes := mockpipe.wire (bs "hello") 2 2 0 0.

End Scenarios.

Section LinkWords.
Import d4.

Context {P : Type} (io : pipe P).

(** [n] rounds of the retry loop: before each, the credit was below the
    cost and a [CreditRequest] transaction was made and returned. *)
Inductive credit_rounds (c : loc) (cost : Z) : nat -> link P -> link P -> Prop :=
| rounds_O l : credit_rounds c cost 0 l l
| rounds_S n l r l1 l2 :
    credit_of l c < cost ->
    credit_request io c l = (Ret r, l1) ->
    credit_rounds c cost n l1 l2 ->
    credit_rounds c cost (S n) l l2.

(** Actions that leave the record of dispatches alone. *)
Definition quiet {A} (m : M (link P) A) : Prop :=
  forall l o l', m l = (o, l') -> dispatched l' = dispatched l.

End LinkWords.

(** ** Words for the transaction tables *)

Section TableWords.
Import tx.

(** What the tables promise of a row: its code is one byte and finds the
    row back, there is one field per format letter (and one more for the
    trailing string), and no more defaults than fields. *)
Definition row_wf (r : revision) (rw : row) : Prop :=
  cmd_by_code r (code rw) = Some rw
  /\ 0 <= code rw < 256
  /\ List.length (fields rw)
     = (List.length (sformat rw) + if star rw then 1 else 0)%nat
  /\ (List.length (defaults rw) <= List.length (fields rw))%nat.

End TableWords.

(** ** d4.py: [class Channel]

    [send], [retreive] and [__call__] of a data channel, on the channel
    object at [self].  The messages handed to [__call__] are [bytes] by
    their type, so its [isinstance] test passes. *)

Module Channel.
Import d4.

Section Chan.
Context {P : Type} (io : pipe P).

(** The [for r in range(1 + retries)] loop of [Channel.retreive]. *)
Fixpoint retreive_loop (n : nat) (self : loc) : M (link P) (option bytes) :=
  match n with
  | O => ret None
  | S n' =>
      _ <- d4.retreive io 6 ;;
      r <- gets (fun l => rx_data (obj l self)) ;;
      match r with
      | Some (x :: d) => ret (Some (x :: d))
      | _ => retreive_loop n' self
      end
  end.

(** [Channel.retreive(retries)] *)
Definition retreive (self : loc) (retries : nat) : M (link P) (option bytes) :=
  _ <- modify (upd_chan self (set_rx_data None)) ;;
  retreive_loop (1 + retries) self.

(** [Channel.send(data)] *)
Definition send (self : loc) (data : bytes) : M (link P) (option Z) :=
  d4.send io data self 1 0 1 true.


End Chan.
End Channel.

Section ReceiveWords.
Import d4.

Context {P : Type} (io : pipe P).

(** [n] reads in a row that bring nothing. *)
Inductive silent : nat -> link P -> link P -> Prop :=
| silent_O l : silent 0 l l
| silent_S n l l1 l2 :
    with_target (pipe_read io) l = (Ret [], l1) ->
    silent n l1 l2 ->
    silent (S n) l l2.

(** The channel objects, the table and the buffer are the same in both
    states. *)
Definition same_channels (l l' : link P) : Prop :=
  heap l' = heap l /\ channels l' = channels l /\ txn l' = txn l
  /\ received l' = received l /\ dispatched l' = dispatched l.

End ReceiveWords.

Section ReceiveScenarios.
Import d4.

(** The link of [EpsonD4] over a pipe that will deliver [chunks]. *)
Definition peer_sends (chunks : list bytes) : link mockpipe.state :=
  EpsonD4_link (mockpipe.start chunks).

(** A silent pipe, with one whole packet already in the buffer. *)
Definition buffered_hello : link mockpipe.state :=
  set_received hello (peer_sends []).

End ReceiveScenarios.


Section TxRows.

(** The rows of [CreditRequestReply] and [Error], which are the same in
    both tables. *)
Definition row_credit_reply : tx.row :=
  tx.mk 0x84 "CreditRequestReply" [FB; FB; FB; FH] false
    ["result"; "sidP"; "sidS"; "addCredit"]%string [].

Definition row_error : tx.row :=
  tx.mk 0x7F "Error" [FB; FB; FB] false
    ["errorPSID"; "errorSSID"; "errorCode"]%string [].

End TxRows.

(** ** Words for the EEPROM transcript *)

Section TranscriptWords.

(** A transcript entry whose reply acknowledges: it contains [":OK;"]. *)
Definition acked (e : bytes * option bytes) : bool :=
  match snd e with
  | Some r => bytes_in (bs ":OK;") r
  | None => false
  end.

End TranscriptWords.

Section FindWkeyScenarios.
Import epson.

(** A printer that holds 0x41 at address 0, refuses the first write and
    accepts the following ones, the reads after them showing what was
    written. *)
Definition printer_second_key : estate mock.script :=
  mock.start default_spec
    [Some (bs "@BDC PS EE:000041;"); Some (bs "@BDC PS EE:NA;");
     Some (bs "@BDC PS EE:OK;"); Some (bs "@BDC PS EE:000042;");
     Some (bs "@BDC PS EE:OK;"); Some (bs "@BDC PS EE:000041;")].

(** A printer that holds 0xFF at address 0. *)
Definition printer_holds_FF : estate mock.script :=
  mock.start default_spec [Some (bs "@BDC PS EE:0000FF;")].

End FindWkeyScenarios.

Section ResetScenarios.
Import epson.

(** A spec with two waste counters that share the address 0x11, the
    second without [reset], and a platen pad counter. *)
Definition spec_two_counters : Spec := {|
  brand := "EPSON"; idVendor := 0x04b8; idProduct := None;
  rkey := 0; wkey := None; wkey1 := None;
  rlen := 2; wlen := 2; mem_low := 0x00; mem_high := 0xff;
  mem := [{| addr := [0x10; 0x11]; desc := "Waste counter 1";
             reset := Some [0x00; 0x5e]; min := None |};
          {| addr := [0x20]; desc := "Platen pad counter";
             reset := Some [0x01]; min := None |};
          {| addr := [0x11; 0x12]; desc := "waste COUNTER 2";
             reset := None; min := None |}];
  models := []; model := None
|}.

Definition all_waste_two : mem_entry :=
  {| addr := [0x10; 0x11; 0x12]; desc := "All waste counters";
     reset := Some [0x00; 0x00; 0x00]; min := None |}.

End ResetScenarios.

(** ** Reasoning about runs *)

Lemma bind_Ret_inv {S A B} (m : M S A) (k : A -> M S B) s b s' :
  bind m k s = (Ret b, s') ->
  exists a s1, m s = (Ret a, s1) /\ k a s1 = (Ret b, s').
Proof.
  unfold bind. destruct (m s) as [[a|e] s1]; intros H.
  - exists a, s1. split; [reflexivity | exact H].
  - discriminate.
Qed.

Lemma bind_Ret {S A B} (m : M S A) (k : A -> M S B) s a s1 :
  m s = (Ret a, s1) -> bind m k s = k a s1.
Proof. unfold bind. intros ->. reflexivity. Qed.

Lemma lift_Ret_inv {S A} (o : outcome A) (s : S) a s' :
  lift o s = (Ret a, s') -> o = Ret a /\ s' = s.
Proof. unfold lift. intros H. inversion H. split; reflexivity. Qed.

Lemma bind_inv {S A B} (m : M S A) (k : A -> M S B) s o s' :
  bind m k s = (o, s') ->
  (exists a s1, m s = (Ret a, s1) /\ k a s1 = (o, s'))
  \/ (exists e, m s = (Raise e, s') /\ o = Raise e).
Proof.
  unfold bind. destruct (m s) as [[a|e] s1]; intros H.
  - left. exists a, s1. split; [reflexivity | exact H].
  - right. exists e. inversion H; subst. split; reflexivity.
Qed.

Lemma traverse_Ret_inv {A B} (f : A -> outcome B) : forall l r,
  epson.traverse f l = Ret r -> Forall2 (fun x y => f x = Ret y) l r.
Proof.
  induction l as [|x l IH]; intros r H; simpl in H.
  - inversion H. constructor.
  - destruct (f x) as [y|e] eqn:Ex; [|discriminate]. cbn [obind] in H.
    destruct (epson.traverse f l) as [r'|e] eqn:El; [|discriminate].
    inversion H; subst. constructor; [exact Ex | apply IH; reflexivity].
Qed.

(** Peel the successful steps off a hypothesis about a run. *)
Ltac run_step :=
  match goal with
  | H : bind _ _ _ = (Ret _, _) |- _ =>
      let a := fresh "a" in
      let s := fresh "s" in
      let H1 := fresh "Hrun" in
      apply bind_Ret_inv in H as (a & s & H1 & H)
  | H : ret _ _ = (_, _) |- _ => unfold ret in H; inversion H; subst; clear H
  | H : gets _ _ = (_, _) |- _ => unfold gets in H; inversion H; subst; clear H
  | H : modify _ _ = (_, _) |- _ => unfold modify in H; inversion H; subst; clear H
  | H : raise _ _ = (Ret _, _) |- _ => discriminate H
  | H : lift _ _ = (Ret _, _) |- _ =>
      let E := fresh "Hlift" in
      apply lift_Ret_inv in H as [E ->]
  end.

Ltac run_inv := repeat run_step.

(** ** Properties of the byte and [struct] layer *)

Lemma Z_of_byte_range (b : byte) : 0 <= Z_of_byte b < 256.
Proof.
  unfold Z_of_byte. pose proof (Byte.to_N_bounded b). lia.
Qed.

Lemma Z_of_byte_of_Z (z : Z) : 0 <= z < 256 -> Z_of_byte (byte_of_Z z) = z.
Proof.
  intros Hz. unfold Z_of_byte, byte_of_Z.
  rewrite Z.mod_small by lia.
  destruct (Byte.of_N (Z.to_N z)) as [b|] eqn:E.
  - apply Byte.to_of_N in E. rewrite E. lia.
  - apply Byte.of_N_None_iff in E. lia.
Qed.

Lemma byte_of_Z_of_byte (b : byte) : byte_of_Z (Z_of_byte b) = b.
Proof.
  unfold byte_of_Z. pose proof (Z_of_byte_range b) as Hr.
  rewrite Z.mod_small by lia. unfold Z_of_byte.
  rewrite N2Z.id, Byte.of_to_N. reflexivity.
Qed.

Lemma byte_of_Z_mod (z : Z) : byte_of_Z (z mod 256) = byte_of_Z z.
Proof.
  unfold byte_of_Z. rewrite Z.mod_mod by lia. reflexivity.
Qed.

Lemma Z_of_byte_of_Z_mod (z : Z) : Z_of_byte (byte_of_Z z) = z mod 256.
Proof.
  rewrite <- byte_of_Z_mod. apply Z_of_byte_of_Z. apply Z.mod_pos_bound. lia.
Qed.

Lemma byte_eqb_eq (a b : byte) : byte_eqb a b = true <-> a = b.
Proof.
  unfold byte_eqb. split.
  - apply Byte.byte_dec_bl.
  - apply Byte.byte_dec_lb.
Qed.

Lemma pack1_length e c v b : pack1 e c v = Some b -> List.length b = fsize c.
Proof.
  destruct c, e; simpl; intros H;
    destruct (_ && _); inversion H; reflexivity.
Qed.

Lemma unpack1_pack1 e c v b r :
  pack1 e c v = Some b -> unpack1 e c (b ++ r) = Some (v, r).
Proof.
  destruct c; simpl; intros H.
  - destruct ((0 <=? v) && (v <? 256)) eqn:E; inversion H; subst; clear H.
    apply andb_true_iff in E as [H0 H1].
    apply Z.leb_le in H0. apply Z.ltb_lt in H1.
    simpl. rewrite Z_of_byte_of_Z by lia. reflexivity.
  - destruct ((0 <=? v) && (v <? 65536)) eqn:E; inversion H; subst; clear H.
    apply andb_true_iff in E as [H0 H1].
    apply Z.leb_le in H0. apply Z.ltb_lt in H1.
    assert (Hq : 0 <= v / 256 < 256).
    { split; [apply Z.div_pos; lia | apply Z.div_lt_upper_bound; lia]. }
    destruct e; simpl;
      rewrite (Z_of_byte_of_Z (v / 256)) by lia;
      rewrite (Z_of_byte_of_Z_mod v);
      do 2 f_equal; pose proof (Z.div_mod v 256); lia.
Qed.

(** Unpacking what [pack] produced gives the values back. *)
Lemma unpack_pack e fmt : forall vs b,
  pack e fmt vs = Some b -> unpack e fmt b = Some vs.
Proof.
  unfold unpack.
  induction fmt as [|c fmt IH]; intros [|v vs] b H; simpl in H; try discriminate.
  - inversion H. reflexivity.
  - destruct (pack1 e c v) as [b1|] eqn:E1; [|discriminate].
    destruct (pack e fmt vs) as [r|] eqn:E2; [|discriminate].
    inversion H; subst; clear H. simpl.
    rewrite (unpack1_pack1 _ _ _ _ r E1).
    rewrite (IH _ _ E2). reflexivity.
Qed.

Lemma pack_length e fmt : forall vs b,
  pack e fmt vs = Some b -> List.length b = calcsize fmt.
Proof.
  induction fmt as [|c fmt IH]; intros [|v vs] b H; simpl in H; try discriminate.
  - inversion H. reflexivity.
  - destruct (pack1 e c v) as [b1|] eqn:E1; [|discriminate].
    destruct (pack e fmt vs) as [r|] eqn:E2; [|discriminate].
    inversion H; subst; clear H.
    rewrite length_app, (pack1_length _ _ _ _ E1), (IH _ _ E2). reflexivity.
Qed.

(** ** The packet codec round trip *)

Section PacketCodec.
Import packet.

Lemma header_pack (p s l c k : Z) :
  0 <= p < 256 -> 0 <= s < 256 -> 0 <= l < 65536 ->
  0 <= c < 256 -> 0 <= k < 256 ->
  exists h, pack BE hStruct [p; s; l; c; k] = Some h /\ List.length h = hLen.
Proof.
  intros Hp Hs Hl Hc Hk. unfold hStruct. simpl.
  repeat match goal with
         | |- context [(0 <=? ?x) && (?x <? ?m)] =>
             replace ((0 <=? x) && (x <? m)) with true
               by (symmetry; apply andb_true_iff; split;
                   [apply Z.leb_le | apply Z.ltb_lt]; lia)
         end.
  eexists. split; reflexivity.
Qed.

(** C5.  For unsigned-byte [psid], [ssid], [credit], [control] and a
    payload of at most 0xFFF9 bytes, [encode] succeeds and [decode] of its
    result is the header with exactly those fields and
    [length = 6 + len(payload)], together with the original payload. *)
Theorem packet_decode_encode (payload : bytes) (p s c k : Z) :
  0 <= p < 256 -> 0 <= s < 256 -> 0 <= c < 256 -> 0 <= k < 256 ->
  Z.of_nat (List.length payload) <= 0xFFF9 ->
  exists b,
    encode payload p s c k = Ret b /\
    decode b =
      Ret ({| psid := p; ssid := s;
              length := 6 + Z.of_nat (List.length payload);
              credit := c; control := k |}, payload).
Proof.
  intros Hp Hs Hc Hk Hlen.
  destruct (header_pack p s (Z.of_nat hLen + Z.of_nat (List.length payload)) c k)
    as (h & Hh & Hl); try assumption.
  { unfold hLen. lia. }
  exists (h ++ payload). unfold encode, decode.
  rewrite Hh. simpl obind. split; [reflexivity|].
  change (Z.of_nat hLen) with 6 in Hh.
  rewrite firstn_app, Hl, Nat.sub_diag, firstn_O, app_nil_r.
  rewrite <- Hl at 1. rewrite firstn_all.
  rewrite (unpack_pack _ _ _ _ Hh).
  rewrite skipn_app, Hl, Nat.sub_diag. simpl skipn at 2.
  rewrite <- Hl, skipn_all. reflexivity.
Qed.

Lemma packet_decode_encode_witness :
  exists b,
    encode (bs "di") 2 2 1 0 = Ret b /\
    decode b =
      Ret ({| psid := 2; ssid := 2; length := 6 + 2;
              credit := 1; control := 0 |}, bs "di").
Proof.
  apply (packet_decode_encode (bs "di") 2 2 1 0); simpl; lia.
Defined.

End PacketCodec.

(** ** The factory wrap of the control codec *)

Section FactoryWrap.
Import epson.

Lemma pack1_u16_le (v : Z) :
  0 <= v < 65536 -> pack1 LE FH v = Some (u16_le v).
Proof.
  intros Hv. unfold pack1, u16_le.
  replace ((0 <=? v) && (v <? 65536)) with true
    by (symmetry; apply andb_true_iff; split;
        [apply Z.leb_le | apply Z.ltb_lt]; lia).
  rewrite byte_of_Z_mod. reflexivity.
Qed.

Lemma pack_triplet (inner : ascii) :
  pack LE [FB; FB; FB]
    [ord inner; Z.land (Z.lnot (ord inner)) 0xff;
     Z.lor (Z.land (Z.shiftr (ord inner) 1) 0x7f)
           (Z.land (Z.shiftl (ord inner) 7) 0x80)]
  = Some (triplet (ord inner)).
Proof.
  destruct inner as [[] [] [] [] [] [] [] []]; vm_compute; reflexivity.
Qed.

Lemma encode_factory_bar (rk : Z) (inner : ascii) (p : bytes) :
  0 <= rk < 65536 ->
  5 + Z.of_nat (List.length p) < 65536 ->
  encode rk (Factory "|" inner) p =
    Ret (bs "||" ++ u16_le (5 + Z.of_nat (List.length p))
           ++ u16_le rk ++ triplet (ord inner) ++ p).
Proof.
  intros Hrk Hlen. unfold encode.
  change (pack LE [FH; FB; FB; FB] ?l) with
    (match pack1 LE FH rk,
           pack LE [FB; FB; FB]
             [ord inner; Z.land (Z.lnot (ord inner)) 0xff;
              Z.lor (Z.land (Z.shiftr (ord inner) 1) 0x7f)
                    (Z.land (Z.shiftl (ord inner) 7) 0x80)] with
     | Some b, Some r => Some (b ++ r)
     | _, _ => None
     end).
  rewrite pack1_u16_le, pack_triplet by assumption.
  cbn [struct_res obind fst snd].
  change (encode_ascii ("|" ++ "|")) with (Ret (bs "||")).
  cbn [obind].
  assert (Hl : Z.of_nat (List.length ((u16_le rk ++ triplet (ord inner)) ++ p))
               = 5 + Z.of_nat (List.length p)).
  { rewrite length_app. simpl List.length. lia. }
  rewrite Hl.
  change (pack LE [FH] [?v]) with
    (match pack1 LE FH v, Some (@nil byte) with
     | Some b, Some r => Some (b ++ r)
     | _, _ => None
     end).
  rewrite pack1_u16_le by lia.
  cbn [struct_res obind]. rewrite app_nil_r, <- !app_assoc. reflexivity.
Qed.

(** C2.  For a 16-bit read key and a payload [p] whose wrapped length
    [5 + len p] fits the 16-bit length field, [encode(("|","A"), p)] is
    exactly ["||"], [5 + len p] and [rkey] as little-endian 16-bit words,
    the bytes 0x41 0xBE 0xA0, then [p]; with inner ["B"] the three bytes
    are 0x42 0xBD 0x21; and for every inner character of code [c] they are
    [c], [~c & 0xFF], [((c>>1)&0x7F)|((c<<7)&0x80)]. *)
Theorem encode_factory_layout (rk : Z) (p : bytes) :
  0 <= rk < 65536 ->
  5 + Z.of_nat (List.length p) < 65536 ->
  encode rk (Factory "|" "A") p =
    Ret (bs "||" ++ u16_le (5 + Z.of_nat (List.length p)) ++ u16_le rk
           ++ [Byte.x41; Byte.xbe; Byte.xa0] ++ p)
  /\ encode rk (Factory "|" "B") p =
    Ret (bs "||" ++ u16_le (5 + Z.of_nat (List.length p)) ++ u16_le rk
           ++ [Byte.x42; Byte.xbd; Byte.x21] ++ p)
  /\ forall inner : ascii,
      encode rk (Factory "|" inner) p =
        Ret (bs "||" ++ u16_le (5 + Z.of_nat (List.length p)) ++ u16_le rk
               ++ [byte_of_Z (ord inner);
                   byte_of_Z (Z.land (Z.lnot (ord inner)) 0xFF);
                   byte_of_Z (Z.lor (Z.land (Z.shiftr (ord inner) 1) 0x7F)
                                    (Z.land (Z.shiftl (ord inner) 7) 0x80))]
               ++ p).
Proof.
  intros Hrk Hlen. split; [|split].
  - apply (encode_factory_bar rk "A" p Hrk Hlen).
  - apply (encode_factory_bar rk "B" p Hrk Hlen).
  - intros inner. apply (encode_factory_bar rk inner p Hrk Hlen).
Qed.

Lemma encode_factory_layout_witness :
  encode 0x0003 (Factory "|" "A") [Byte.x05; Byte.x00] =
    Ret [Byte.x7c; Byte.x7c; Byte.x07; Byte.x00; Byte.x03; Byte.x00;
         Byte.x41; Byte.xbe; Byte.xa0; Byte.x05; Byte.x00].
Proof.
  pose proof (encode_factory_layout 0x0003 [Byte.x05; Byte.x00]) as H.
  destruct H as [HA _]; [lia | simpl; lia |].
  exact HA.
Defined.

End FactoryWrap.


(** ** Parsing the reply to an EEPROM read *)

Section ReadReply.
Import epson.

Arguments Z_of_byte : simpl never.
Arguments byte_of_Z : simpl never.
Arguments is_hex : simpl never.

Lemma is_hex_ascii (c : ascii) : is_hex c = true -> ord c < 128.
Proof.
  destruct c as [[] [] [] [] [] [] [] []]; vm_compute; congruence.
Qed.

Lemma byte_of_ascii_ord (c : ascii) : Z_of_byte (byte_of_ascii c) = ord c.
Proof.
  destruct c as [[] [] [] [] [] [] [] []]; reflexivity.
Qed.

Lemma slot_parsed (rl a : Z) (r : option bytes) :
  rl = 1 \/ rl = 2 ->
  slot (addr_fmt rl) a r =
    (a, match parsed rl r with
        | Some (a', v) => if a' =? a then Some v else None
        | None => None
        end).
Proof.
  intros Hrl. unfold slot, parse_reply, parsed.
  destruct r as [b|]; [|reflexivity]. cbn [obind].
  destruct (decode_ascii b) as [s|e]; [|reflexivity]. cbn [obind].
  destruct (re_match_EE (list_ascii_of_string s)) as [g|]; [|reflexivity].
  cbn [obind]. unfold echoed.
  destruct (fromhex g) as [bb|e]; [|reflexivity]. cbn [obind].
  destruct Hrl as [-> | ->]; cbn [addr_fmt Z.eqb];
    destruct bb as [|x [|y [|z [|w bb]]]];
    match goal with
    | |- context [Z.of_nat (Datatypes.length ?l) =? ?n] =>
        first [ replace (Z.of_nat (Datatypes.length l) =? n) with false
                  by (symmetry; apply Z.eqb_neq; cbn [Datatypes.length]; lia)
              | replace (Z.of_nat (Datatypes.length l) =? n) with true
                  by (symmetry; apply Z.eqb_eq; cbn [Datatypes.length]; lia) ]
    end; simpl; try reflexivity.
  - replace (256 * 0 + Z_of_byte x) with (Z_of_byte x) by lia.
    destruct (Z_of_byte x =? a); reflexivity.
  - replace (256 * (256 * 0 + Z_of_byte x) + Z_of_byte y)
      with (256 * Z_of_byte x + Z_of_byte y) by lia.
    destruct (_ =? a); reflexivity.
Qed.

Lemma parsed_reply_form (rl : Z) (h : list ascii) :
  List.length h = 6%nat -> forallb is_hex h = true ->
  parsed rl (Some (reply_form h)) = echoed rl h.
Proof.
  intros Hlen Hhex.
  destruct h as [|h1 [|h2 [|h3 [|h4 [|h5 [|h6 [|h7 h]]]]]]]; try discriminate.
  cbn [forallb] in Hhex.
  repeat (apply andb_true_iff in Hhex as [? Hhex]).
  unfold parsed, reply_form, decode_ascii, bs.
  assert (Hascii : forallb (fun x => Z_of_byte x <? 128)
                     (list_byte_of_string (reply_text [h1; h2; h3; h4; h5; h6])) = true).
  { unfold reply_text, list_byte_of_string. simpl. rewrite !byte_of_ascii_ord.
    repeat match goal with
           | H : is_hex ?c = true |- context [ord ?c <? 128] =>
               replace (ord c <? 128) with true
                 by (symmetry; apply Z.ltb_lt, is_hex_ascii, H)
           end.
    reflexivity. }
  rewrite Hascii, string_of_list_byte_of_string.
  assert (Hm : re_match_EE (list_ascii_of_string (reply_text [h1; h2; h3; h4; h5; h6]))
               = Some [h1; h2; h3; h4; h5; h6]).
  { unfold reply_text. simpl list_ascii_of_string.
    cbn -[is_hex].
    repeat match goal with
           | H : is_hex ?c = true |- _ => rewrite H; clear H
           end.
    vm_compute. reflexivity. }
  rewrite Hm. reflexivity.
Qed.

End ReadReply.

Section EepromFacts.
Import epson.

Context {X : Type} (ch : channel X).

(** Entering and leaving the channel touch neither the spec nor the
    transcript, whatever their outcome. *)
Lemma with_chan_frame {A} (f : X -> outcome A * X) (s : estate X) o s' :
  with_chan f s = (o, s') -> spec s' = spec s /\ sent s' = sent s.
Proof.
  unfold with_chan. destruct (f (chan s)) as [o' x]. intros H.
  inversion H; subst. split; reflexivity.
Qed.

Lemma ctrl_call_frame (m : bytes) (s : estate X) o s' :
  ctrl_call ch m s = (o, s') ->
  spec s' = spec s /\ sent s' = sent s ++ [(m, reply_of o)].
Proof.
  unfold ctrl_call. destruct (chan_call ch m (chan s)) as [o' x]. intros H.
  inversion H; subst. split; reflexivity.
Qed.

Lemma read_rounds_run (c : fmtc) :
  forall (items : list (Z * (command * bytes))) acc (s : estate X) res s',
    ictrl_rounds ch items (fun a r res => ret (res ++ [slot c a r])) acc s
      = (Ret res, s') ->
    exists new,
      sent s' = sent s ++ new /\ spec s' = spec s /\
      Forall2 (fun it e => encode (rkey (spec s)) (fst (snd it)) (snd (snd it))
                           = Ret (fst e)) items new /\
      res = acc ++ zip_with (fun it e => slot c (fst it) (snd e)) items new.
Proof.
  induction items as [|[a [cmd p]] items IH]; intros acc s res s' H; simpl in H.
  - run_inv. exists []. rewrite !app_nil_r. repeat split. constructor.
  - run_inv.
    match goal with
    | Hc : ctrl_call _ _ _ = _ |- _ =>
        destruct (ctrl_call_frame _ _ _ _ Hc) as [Hsp Hse]; simpl in Hse
    end.
    apply IH in H as (new & Hs & Hspec & Hf & Hres).
    eexists (_ :: new). rewrite Hs, Hse, <- app_assoc. simpl.
    rewrite Hspec, Hsp. repeat split.
    + constructor; [eassumption | rewrite <- Hsp; exact Hf].
    + rewrite Hres, <- app_assoc. reflexivity.
Qed.

Lemma read_rounds_compose (rk : Z) (c : fmtc) :
  forall addr msgs new,
    Forall2 (fun a y => read_msg c a = Ret y) addr msgs ->
    Forall2 (fun (it : Z * (command * bytes)) (e : bytes * option bytes) =>
               encode rk (fst (snd it)) (snd (snd it)) = Ret (fst e)) msgs new ->
    Forall2 (fun a e => exists p, pack LE [c] [a] = Some p /\
               encode rk (Factory "|" "A") p = Ret (fst e)) addr new
    /\ zip_with (fun (it : Z * (command * bytes)) (e : bytes * option bytes) =>
                   slot c (fst it) (snd e)) msgs new
       = zip_with (fun a (e : bytes * option bytes) => slot c a (snd e)) addr new.
Proof.
  intros addr msgs new H1. revert new.
  induction H1 as [|a y addr msgs Hy H1 IH]; intros new H2;
    inversion H2 as [|? e ? new' He Hrest]; subst.
  - split; [constructor | reflexivity].
  - destruct (IH _ Hrest) as [IHa IHb].
    unfold read_msg in Hy.
    destruct (pack LE [c] [a]) as [p|] eqn:Ep; [|discriminate].
    cbn in Hy. inversion Hy; subst. cbn in He. split.
    + constructor; [exists p; split; [exact Ep | exact He] | exact IHa].
    + cbn. rewrite IHb. reflexivity.
Qed.

(** What a returning [read_eeprom] did: one factory read per requested
    address, in order, and for each the slot computed from its reply. *)
Lemma read_eeprom_run (addr : list Z) (s : estate X) res s' :
  read_eeprom ch addr s = (Ret res, s') ->
  let sp := spec s in
  let addr' := match addr with
               | [] => py_range (mem_low sp) (mem_high sp + 1)
               | _ :: _ => addr
               end in
  let c := if rlen sp =? 1 then FB else FH in
  exists new,
    sent s' = sent s ++ new /\ spec s' = spec s /\
    Forall2 (fun a e => exists p, pack LE [c] [a] = Some p /\
               encode (rkey sp) (Factory "|" "A") p = Ret (fst e)) addr' new /\
    res = zip_with (fun a (e : bytes * option bytes) => slot c a (snd e)) addr' new.
Proof.
  intros H sp addr' c. unfold read_eeprom in H.
  run_inv. fold sp in Hlift, H. fold addr' c in Hlift, H.
  apply traverse_Ret_inv in Hlift. fold (read_msg c) in Hlift.
  clearbody addr' c.
  unfold zip_ictrl in H. destruct a0 as [|m0 msgs].
  - run_inv. inversion Hlift; subst. exists []. rewrite app_nil_r.
    repeat split. constructor.
  - run_inv.
    destruct (with_chan_frame _ _ _ _ Hrun) as [Hsp1 Hse1].
    destruct (with_chan_frame _ _ _ _ Hrun1) as [Hsp2 Hse2].
    apply read_rounds_run in Hrun0 as (new & Hs & Hspec & Hf & Hres).
    rewrite Hsp1 in Hf.
    destruct (read_rounds_compose _ _ _ _ _ Hlift Hf) as [Hc1 Hc2].
    exists new. rewrite Hse2, Hs, Hse1, Hsp2, Hspec, Hsp1.
    repeat split; [exact Hc1 | rewrite Hres, Hc2; reflexivity].
Qed.

(** C6.  With an address width of 1 or 2 and for every requested address
    [a]: a reply ["@BDC PS EE:<6 hex chars>;"] whose hex characters encode
    ([rlen]-byte big-endian address, one-byte value) the pair [(a, v)]
    gives the slot [(a, v)]; such a reply echoing another address gives
    [(a, none)]; a reply that does not parse gives [(a, none)]; a
    returning [read_eeprom] lists exactly these slots for the replies it
    got, in request order; and for [rlen=2], [a=5] the reply
    ["@BDC PS EE:00050F;"] yields [[(5, 0x0F)]]. *)
Theorem read_reply_slot (rl a : Z) :
  rl = 1 \/ rl = 2 ->
  (forall h v,
      List.length h = 6%nat -> forallb is_hex h = true ->
      echoed rl h = Some (a, v) ->
      slot (addr_fmt rl) a (Some (reply_form h)) = (a, Some v))
  /\ (forall h a' v,
      List.length h = 6%nat -> forallb is_hex h = true ->
      echoed rl h = Some (a', v) -> a' <> a ->
      slot (addr_fmt rl) a (Some (reply_form h)) = (a, None))
  /\ (forall r, parsed rl r = None -> slot (addr_fmt rl) a r = (a, None))
  /\ (forall addr (s : estate X) res s',
      rlen (spec s) = rl -> addr <> [] ->
      read_eeprom ch addr s = (Ret res, s') ->
      exists new,
        sent s' = sent s ++ new /\
        res = zip_with (fun a (e : bytes * option bytes) =>
                          slot (addr_fmt rl) a (snd e)) addr new)
  /\ fst (read_eeprom mock.ch [5]
            (mock.start default_spec [Some (bs "@BDC PS EE:00050F;")]))
     = Ret [(5, Some 0x0F)].
Proof.
  intros Hrl. repeat split.
  - intros h v Hlen Hhex He.
    rewrite slot_parsed, parsed_reply_form, He, Z.eqb_refl by assumption.
    reflexivity.
  - intros h a' v Hlen Hhex He Hne.
    rewrite slot_parsed, parsed_reply_form, He by assumption.
    apply Z.eqb_neq in Hne. rewrite Hne. reflexivity.
  - intros r Hp. rewrite slot_parsed, Hp by assumption. reflexivity.
  - intros addr s res s' Hr Hne H.
    apply read_eeprom_run in H as (new & Hs & _ & _ & Hres).
    exists new. split; [exact Hs|].
    rewrite Hr in Hres. destruct addr; [congruence | exact Hres].
Qed.

End EepromFacts.

Lemma read_reply_slot_witness :
  epson.slot (addr_fmt 2) 5 (Some (reply_form (list_ascii_of_string "00050F")))
  = (5, Some 0x0F).
Proof.
  refine (proj1 (read_reply_slot mock.ch 2 5 (or_intror eq_refl))
            (list_ascii_of_string "00050F") 0x0F _ _ _);
    reflexivity.
Defined.


(** ** Writing without a key *)

Section KeyFacts.
Import epson.

Context {X : Type} (ch : channel X).

Lemma encode_factory_shape (rk : Z) (inner : ascii) (p m : bytes) :
  encode rk (Factory "|" inner) p = Ret m ->
  exists l0 l1 k0 k1,
    m = [Byte.x7c; Byte.x7c; l0; l1; k0; k1] ++ triplet (ord inner) ++ p.
Proof.
  unfold encode.
  change (pack LE [FH; FB; FB; FB] ?l) with
    (match pack1 LE FH rk,
           pack LE [FB; FB; FB]
             [ord inner; Z.land (Z.lnot (ord inner)) 0xff;
              Z.lor (Z.land (Z.shiftr (ord inner) 1) 0x7f)
                    (Z.land (Z.shiftl (ord inner) 7) 0x80)] with
     | Some b, Some r => Some (b ++ r)
     | _, _ => None
     end).
  rewrite pack_triplet.
  destruct (pack1 LE FH rk) as [kb|] eqn:Ek; [|discriminate].
  cbn [struct_res obind fst snd].
  change (encode_ascii ("|" ++ "|")) with (Ret (bs "||")). cbn [obind].
  destruct (pack LE [FH] _) as [lb|] eqn:El; [|discriminate].
  cbn [struct_res obind]. intros H. inversion H; subst; clear H.
  apply pack1_length in Ek. apply pack_length in El.
  destruct kb as [|k0 [|k1 [|]]]; try discriminate.
  destruct lb as [|l0 [|l1 [|]]]; try discriminate.
  exists l0, l1, k0, k1. reflexivity.
Qed.

Lemma factory_write_is_write (rk : Z) (p m : bytes) :
  encode rk (Factory "|" "B") p = Ret m -> is_factory_write m = true.
Proof.
  intros H. apply encode_factory_shape in H as (l0 & l1 & k0 & k1 & ->).
  reflexivity.
Qed.

Lemma factory_read_not_write (m : bytes) :
  is_factory_read m -> is_factory_write m = false.
Proof.
  intros (rk & p & H).
  apply encode_factory_shape in H as (l0 & l1 & k0 & k1 & ->).
  reflexivity.
Qed.

(** Whatever its outcome, [read_eeprom] leaves the spec alone and hands
    only factory reads to the channel. *)
Lemma read_rounds_any (c : fmtc) :
  forall (items : list (Z * (command * bytes))) acc (s : estate X) o s',
    Forall (fun it => fst (snd it) = Factory "|" "A") items ->
    ictrl_rounds ch items (fun a r res => ret (res ++ [slot c a r])) acc s
      = (o, s') ->
    spec s' = spec s /\
    exists new, sent s' = sent s ++ new /\
                Forall (fun e => is_factory_read (fst e)) new.
Proof.
  induction items as [|[a [cmd p]] items IH]; intros acc s o s' Hall H; simpl in H.
  - run_inv. split; [reflexivity|]. exists []. rewrite app_nil_r.
    split; [reflexivity | constructor].
  - inversion Hall as [|? ? Hc Hall']; subst. simpl in Hc. subst cmd.
    apply bind_inv in H as [(rk & s1 & H1 & H) | (e & H1 & ->)]; run_inv.
    apply bind_inv in H as [(m & s2 & H2 & H) | (e & H2 & ->)].
    2:{ unfold lift in H2. inversion H2; subst. split; [reflexivity|].
        exists []. rewrite app_nil_r. split; [reflexivity | constructor]. }
    unfold lift in H2. inversion H2 as [[Hm Hs2]]; subst s2; clear H2.
    assert (Hrd : is_factory_read m) by (eexists _, _; exact Hm).
    apply bind_inv in H as [(r & s3 & H3 & H) | (e & H3 & ->)].
    + destruct (ctrl_call_frame _ _ _ _ _ H3) as [Hsp Hse].
      apply bind_inv in H as [(acc' & s4 & H4 & H) | (e & H4 & ->)]; run_inv.
      apply IH in H as (Hspec & new & Hs & Hnew); [|exact Hall'].
      split; [congruence|].
      exists ((m, reply_of (Ret r)) :: new).
      rewrite Hs, Hse, <- app_assoc. split; [reflexivity|].
      constructor; [exact Hrd | exact Hnew].
    + destruct (ctrl_call_frame _ _ _ _ _ H3) as [Hsp Hse].
      split; [exact Hsp|].
      exists [(m, reply_of (Raise e))]. split; [exact Hse|].
      constructor; [exact Hrd | constructor].
Qed.

Lemma read_eeprom_any (addr : list Z) (s : estate X) o s' :
  read_eeprom ch addr s = (o, s') ->
  spec s' = spec s /\
  exists new, sent s' = sent s ++ new /\
              Forall (fun e => is_factory_read (fst e)) new.
Proof.
  unfold read_eeprom. intros H.
  assert (Hnil : spec s = spec s /\
            exists new : list (bytes * option bytes), sent s = sent s ++ new /\
              Forall (fun e => is_factory_read (fst e)) new).
  { split; [reflexivity|]. exists []. rewrite app_nil_r.
    split; [reflexivity | constructor]. }
  apply bind_inv in H as [(sp & s0 & H0 & H) | (e & H0 & ->)]; run_inv.
  apply bind_inv in H as [(msgs & s1 & H1 & H) | (e & H1 & ->)].
  2:{ unfold lift in H1. inversion H1; subst. exact Hnil. }
  unfold lift in H1. inversion H1 as [[Ht Hs1]]; subst s1; clear H1.
  apply traverse_Ret_inv in Ht.
  assert (Hall : Forall (fun it : Z * (command * bytes) =>
                           fst (snd it) = Factory "|" "A") msgs).
  { clear H. induction Ht as [|a y ? ? Hy Ht IH]; constructor; [|exact IH].
    destruct (struct_res _) in Hy; [|discriminate].
    cbn in Hy. inversion Hy. reflexivity. }
  unfold zip_ictrl in H. destruct msgs as [|m0 msgs]; [run_inv; exact Hnil|].
  apply bind_inv in H as [(u & s1 & H1 & H) | (e & H1 & ->)].
  2:{ destruct (with_chan_frame _ _ _ _ H1) as [-> ->]. exact Hnil. }
  destruct (with_chan_frame _ _ _ _ H1) as [Hsp1 Hse1].
  apply bind_inv in H as [(res & s2 & H2 & H) | (e & H2 & ->)].
  2:{ apply read_rounds_any in H2 as (Hsp & new & Hs & Hnew); [|exact Hall].
      split; [congruence|]. exists new. rewrite Hs, Hse1.
      split; [reflexivity | exact Hnew]. }
  apply read_rounds_any in H2 as (Hsp & new & Hs & Hnew); [|exact Hall].
  apply bind_inv in H as [(u' & s3 & H3 & H) | (e & H3 & ->)]; run_inv.
  all: destruct (with_chan_frame _ _ _ _ H3) as [Hsp3 Hse3].
  all: split; [congruence|]; exists new; rewrite Hse3, Hs, Hse1;
    split; [reflexivity | exact Hnew].
Qed.

(** Without a key the messages cannot be built: the first pair raises
    while the arguments of [_ictrl] are being computed. *)
Lemma write_pass_no_key (addrval : list (Z * option Z)) (cr : bool) (s : estate X) :
  wkey (spec s) = None ->
  write_pass ch addrval None cr s =
    match addrval with
    | [] => (Ret true, s)
    | (a, v) :: _ =>
        (Raise match v with
               | Some v =>
                   match pack LE [if wlen (spec s) =? 1 then FB else FH; FB] [a; v] with
                   | Some _ => TypeError
                   | None => StructError
                   end
               | None => StructError
               end, s)
    end.
Proof.
  intros Hk. unfold write_pass, bind, gets, lift. rewrite Hk.
  destruct addrval as [|[a v] rest]; [reflexivity|].
  cbn [traverse fst snd].
  destruct v as [v|]; [|reflexivity].
  destruct (pack LE _ [a; v]); reflexivity.
Qed.

(** C9.  With no explicit [wkey] and no [wkey] in the spec,
    [write_eeprom] is refused: for a non-empty list of pairs it raises,
    and in every case no factory write is handed to the channel (all it
    may send are the factory reads of the [atomic] pre-read); no key is
    made up. *)
Theorem write_without_key_refused (addrval : list (Z * option Z))
    (check_read atomic : bool) (s : estate X) o s' :
  wkey (spec s) = None ->
  write_eeprom ch addrval None check_read atomic s = (o, s') ->
  (addrval <> [] -> exists e, o = Raise e)
  /\ spec s' = spec s
  /\ exists new,
       sent s' = sent s ++ new /\
       Forall (fun e => is_factory_read (fst e) /\ is_factory_write (fst e) = false) new.
Proof.
  intros Hk H. unfold write_eeprom in H.
  apply bind_inv in H as [(prev & s1 & H1 & H) | (e & H1 & ->)].
  - assert (Hfr : spec s1 = spec s /\
              exists new, sent s1 = sent s ++ new /\
                          Forall (fun e => is_factory_read (fst e)) new).
    { destruct atomic.
      - apply read_eeprom_any in H1. exact H1.
      - run_inv. split; [reflexivity|]. exists []. rewrite app_nil_r.
        split; [reflexivity | constructor]. }
    destruct Hfr as (Hsp & new & Hs & Hnew).
    apply bind_inv in H as [(sp & s2 & H2 & H) | (e & H2 & ->)]; run_inv.
    rewrite <- Hsp in Hk.
    apply bind_inv in H as [(res & s3 & H3 & H) | (e & H3 & ->)];
      rewrite (write_pass_no_key _ _ _ Hk) in H3;
      destruct addrval as [|[a v] rest]; inversion H3; subst; clear H3.
    + cbn in H. rewrite andb_false_r in H. run_inv.
      split; [congruence|]. split; [exact Hsp|]. exists new.
      split; [exact Hs|].
      eapply List.Forall_impl; [|exact Hnew].
      intros x Hx. split; [exact Hx | apply factory_read_not_write, Hx].
    + split; [intros _; eexists; reflexivity|]. split; [exact Hsp|].
      exists new. split; [exact Hs|].
      eapply List.Forall_impl; [|exact Hnew].
      intros x Hx. split; [exact Hx | apply factory_read_not_write, Hx].
  - destruct atomic; [|run_inv].
    apply read_eeprom_any in H1 as (Hsp & new & Hs & Hnew).
    split; [intros _; eexists; reflexivity|]. split; [exact Hsp|].
    exists new. split; [exact Hs|].
    eapply List.Forall_impl; [|exact Hnew].
    intros x Hx. split; [exact Hx | apply factory_read_not_write, Hx].
Qed.

End KeyFacts.

Lemma write_without_key_refused_witness :
  (exists e, fst (write_eeprom mock.ch [(16, Some 0)] None true true
                    (mock.start epson.default_spec
                       [Some (bs "@BDC PS EE:001042;")])) = Raise e)
  /\ Forall (fun e => is_factory_write (fst e) = false)
        (sent (snd (write_eeprom mock.ch [(16, Some 0)] None true true
                      (mock.start epson.default_spec
                         [Some (bs "@BDC PS EE:001042;")])))).
Proof.
  set (s0 := mock.start epson.default_spec [Some (bs "@BDC PS EE:001042;")]).
  destruct (write_eeprom mock.ch [(16, Some 0)] None true true s0) as [o s'] eqn:E.
  destruct (write_without_key_refused mock.ch [(16, Some 0)] true true s0 o s'
              eq_refl E) as (Hr & _ & new & Hs & Hnew).
  split.
  - apply Hr. discriminate.
  - simpl in *. rewrite Hs. eapply List.Forall_impl; [|exact Hnew].
    intros x Hx. apply Hx.
Defined.

(** ** [find_rkey] *)

Section FindRkey.
Import epson.

Context {X : Type} (ch : channel X).

Lemma set_rkey_same (sp : Spec) : set_rkey (rkey sp) sp = sp.
Proof. destruct sp. reflexivity. Qed.

Lemma put_rkey_run (k : Z) (s : estate X) o s' :
  put_rkey k s = (o, s') ->
  o = Ret tt /\ spec s' = set_rkey k (spec s) /\ sent s' = sent s.
Proof.
  unfold put_rkey, modify. intros H. inversion H; subst. repeat split.
Qed.

Lemma slot_fst (c : fmtc) (a : Z) (r : option bytes) : fst (slot c a r) = a.
Proof. unfold slot. destruct (parse_reply c a r); reflexivity. Qed.

Lemma find_rkey_loop_run (orig pos : Z) :
  forall ikeys (s : estate X) r s',
    find_rkey_loop ch ikeys orig pos s = (Ret r, s') ->
    let c := if rlen (spec s) =? 1 then FB else FH in
    match r with
    | None =>
        spec s' = set_rkey orig (spec s) /\
        exists new,
          sent s' = sent s ++ new /\
          Forall2 (tried c pos) ikeys new /\ Forall (unparsed c pos) new
    | Some k =>
        spec s' = set_rkey k (spec s) /\
        exists pre post new e v,
          ikeys = pre ++ k :: post /\
          sent s' = sent s ++ new ++ [e] /\
          Forall2 (tried c pos) pre new /\ Forall (unparsed c pos) new /\
          tried c pos k e /\ slot c pos (snd e) = (pos, Some v)
    end.
Proof.
  induction ikeys as [|k ikeys IH]; intros s r s' H c; simpl in H.
  - apply bind_Ret_inv in H as (u & s1 & H1 & H).
    apply put_rkey_run in H1 as (_ & Hsp1 & Hse1). run_inv.
    split; [exact Hsp1|]. exists []. rewrite app_nil_r.
    repeat split; [exact Hse1 | constructor | constructor].
  - apply bind_Ret_inv in H as (u & s1 & H1 & H).
    apply put_rkey_run in H1 as (_ & Hsp0 & Hse0).
    apply bind_Ret_inv in H as (rd & s2 & H2 & H).
    apply read_eeprom_run in H2 as (new1 & Hs1 & Hsp1 & Hf1 & Hres).
    rewrite Hsp0 in Hf1, Hres.
    cbn [spec rlen set_rkey rkey] in Hf1, Hres. fold c in Hf1, Hres.
    subst rd.
    inversion Hf1 as [|? e1 ? ? He1 Hnil]; subst. inversion Hnil; subst.
    cbn [zip_with] in H.
    assert (Hfst : fst (slot c pos (snd e1)) = pos) by apply slot_fst.
    destruct (slot c pos (snd e1)) as [a1 [v|]] eqn:Esl;
      cbn in Hfst; subst a1.
    + run_inv. split; [congruence|].
      exists [], ikeys, [], e1, v. rewrite Hs1, Hse0. simpl.
      repeat split; try constructor; assumption.
    + apply IH in H. rewrite Hsp1, Hsp0 in H. cbn [spec rlen set_rkey] in H.
      fold c in H. destruct r as [k'|].
      * destruct H as (Hsp & pre & post & new & e & v & Hik & Hs & Hf & Hu & Ht & Hv).
        split; [rewrite Hsp; reflexivity|].
        exists (k :: pre), post, (e1 :: new), e, v. rewrite Hs, Hs1, Hse0, Hik.
        simpl. rewrite <- app_assoc. simpl.
        repeat split; try assumption; constructor; assumption.
      * destruct H as (Hsp & new & Hs & Hf & Hu).
        split; [rewrite Hsp; reflexivity|].
        exists (e1 :: new). rewrite Hs, Hs1, Hse0, <- app_assoc. simpl.
        repeat split; constructor; assumption.
Qed.

(** In every outcome, [find_rkey] changes no field of the spec but
    [rkey]. *)
Lemma find_rkey_loop_frame (orig pos : Z) :
  forall ikeys (s : estate X) o s',
    find_rkey_loop ch ikeys orig pos s = (o, s') ->
    exists k, spec s' = set_rkey k (spec s).
Proof.
  induction ikeys as [|k ikeys IH]; intros s o s' H; simpl in H.
  - apply bind_inv in H as [(u & s1 & H1 & H) | (e & H1 & ->)];
      apply put_rkey_run in H1 as (? & Hsp1 & ?); [|discriminate].
    run_inv. exists orig. exact Hsp1.
  - apply bind_inv in H as [(u & s1 & H1 & H) | (e & H1 & ->)].
    2:{ apply put_rkey_run in H1 as (? & ? & ?). discriminate. }
    apply put_rkey_run in H1 as (_ & Hsp1 & _).
    apply bind_inv in H as [(rd & s2 & H2 & H) | (e & H2 & ->)];
      apply read_eeprom_any in H2 as (Hsp2 & _).
    2:{ exists k. congruence. }
    destruct rd as [|[a [v|]] rd].
    + unfold raise in H. inversion H; subst. exists k. congruence.
    + run_inv. exists k. congruence.
    + apply IH in H as (k' & Hk'). exists k'.
      rewrite Hk', Hsp2, Hsp1. reflexivity.
Qed.

(** A read of one address returns when the channel answers, the address
    fits the address width and the read key fits 16 bits. *)
Lemma read_eeprom_returns (a : Z) (s : estate X) p :
  answering ch ->
  0 <= rkey (spec s) < 65536 ->
  pack LE [if rlen (spec s) =? 1 then FB else FH] [a] = Some p ->
  exists res s', read_eeprom ch [a] s = (Ret res, s') /\ List.length res = 1%nat.
Proof.
  intros (Hen & Hex & Hcall) Hrk Hp.
  pose proof (pack_length _ _ _ _ Hp) as Hlen.
  assert (Hl2 : 5 + Z.of_nat (List.length p) < 65536).
  { destruct (rlen (spec s) =? 1); simpl in Hlen; lia. }
  pose proof (encode_factory_bar (rkey (spec s)) "A" p Hrk Hl2) as Henc.
  unfold read_eeprom, zip_ictrl.
  unfold bind at 1. unfold gets at 1.
  unfold bind at 1. unfold lift. cbn [traverse obind]. rewrite Hp.
  cbn [struct_res obind].
  destruct (Hen (chan s)) as (x1 & Hx1).
  unfold bind at 1. unfold ctrl_enter, with_chan at 1. rewrite Hx1.
  unfold bind at 1. cbn [ictrl_rounds].
  unfold bind at 1. unfold gets at 1. cbn [spec].
  unfold bind at 1. unfold lift. rewrite Henc.
  destruct (Hcall (bs "||" ++ u16_le (5 + Z.of_nat (List.length p))
                     ++ u16_le (rkey (spec s)) ++ triplet (ord "A") ++ p) x1)
    as (r & x2 & Hx2).
  unfold bind at 1. unfold ctrl_call at 1. cbn [chan]. rewrite Hx2.
  unfold bind at 1. unfold ret at 1. unfold ret at 1.
  destruct (Hex x2) as (x3 & Hx3).
  unfold bind at 1. unfold ctrl_exit, with_chan at 1. cbn [chan]. rewrite Hx3.
  unfold ret. eexists _, _. split; reflexivity.
Qed.

(** [find_rkey] returns when the channel answers, [mem_low] fits the
    address width and the candidates fit 16 bits. *)
Lemma find_rkey_returns (ikeys : list Z) (s : estate X) p :
  answering ch ->
  pack LE [if rlen (spec s) =? 1 then FB else FH] [mem_low (spec s)] = Some p ->
  Forall (fun k => 0 <= k < 65536) ikeys ->
  exists r s', find_rkey ch ikeys s = (Ret r, s').
Proof.
  intros Hans Hp Hks.
  assert (Hloop : forall ikeys (s0 : estate X),
             Forall (fun k => 0 <= k < 65536) ikeys ->
             rlen (spec s0) = rlen (spec s) ->
             exists r s', find_rkey_loop ch ikeys (rkey (spec s)) (mem_low (spec s)) s0
                          = (Ret r, s')).
  { clear Hks ikeys. induction ikeys as [|k ikeys IH]; intros s0 Hks Hrl.
    - eexists _, _. reflexivity.
    - inversion Hks as [|? ? Hk Hks']; subst.
      cbn [find_rkey_loop]. unfold bind at 1. unfold put_rkey, modify at 1.
      set (s1 := {| spec := set_rkey k (spec s0); chan := chan s0; sent := sent s0 |}).
      destruct (read_eeprom_returns (mem_low (spec s)) s1 p Hans)
        as (res & s2 & Hrd & Hlen).
      { exact Hk. }
      { cbn [spec s1 rlen set_rkey]. rewrite Hrl. exact Hp. }
      rewrite (bind_Ret _ _ _ _ _ Hrd).
      destruct res as [|[a [v|]] res]; [discriminate Hlen| |].
      + eexists _, _. reflexivity.
      + apply IH; [exact Hks'|].
        apply read_eeprom_any in Hrd as [Hsp _]. rewrite Hsp. exact Hrl. }
  destruct Hans as (Hen & Hex & Hcall).
  change (find_rkey ch ikeys s) with
    ((_ <- ctrl_enter ch ;;
      r <- find_rkey_loop ch ikeys (rkey (spec s)) (mem_low (spec s)) ;;
      _ <- ctrl_exit ch ;;
      ret r) s).
  destruct (Hen (chan s)) as (x1 & Hx1).
  unfold bind at 1. unfold ctrl_enter, with_chan at 1. rewrite Hx1.
  destruct (Hloop ikeys {| spec := spec s; chan := x1; sent := sent s |} Hks eq_refl)
    as (r & s' & Hr).
  rewrite (bind_Ret _ _ _ _ _ Hr).
  destruct (Hex (chan s')) as (x3 & Hx3).
  unfold bind at 1. unfold ctrl_exit, with_chan at 1. rewrite Hx3.
  eexists _, _. reflexivity.
Qed.

(** C10.  [find_rkey] changes no field of the spec other than [rkey], in
    any outcome.  When it returns none, [rkey] is back to its original
    value and every candidate was tried, in order, without a parsed read;
    when it returns a candidate [k], [rkey] is [k], the read of
    [mem_low] made under [k] parsed, and the candidates before [k] did
    not. *)
Theorem find_rkey_restores (ikeys : list Z) (s : estate X) o s' :
  find_rkey ch ikeys s = (o, s') ->
  let c := if rlen (spec s) =? 1 then FB else FH in
  let pos := mem_low (spec s) in
  (exists k, spec s' = set_rkey k (spec s))
  /\ match o with
     | Ret None =>
         spec s' = spec s /\
         exists new,
           sent s' = sent s ++ new /\
           Forall2 (tried c pos) ikeys new /\ Forall (unparsed c pos) new
     | Ret (Some k) =>
         rkey (spec s') = k /\
         exists pre post new e v,
           ikeys = pre ++ k :: post /\
           sent s' = sent s ++ new ++ [e] /\
           Forall2 (tried c pos) pre new /\ Forall (unparsed c pos) new /\
           tried c pos k e /\ slot c pos (snd e) = (pos, Some v)
     | Raise _ => True
     end.
Proof.
  intros H c pos.
  change (find_rkey ch ikeys s) with
    ((_ <- ctrl_enter ch ;;
      r <- find_rkey_loop ch ikeys (rkey (spec s)) (mem_low (spec s)) ;;
      _ <- ctrl_exit ch ;;
      ret r) s) in H.
  apply bind_inv in H as [(u & s1 & H1 & H) | (e & H1 & ->)];
    destruct (with_chan_frame _ _ _ _ H1) as [Hsp1 Hse1].
  2:{ split; [|exact I]. exists (rkey (spec s)).
      rewrite Hsp1, set_rkey_same. reflexivity. }
  apply bind_inv in H as [(r & s2 & H2 & H) | (e & H2 & ->)].
  2:{ split; [|exact I]. apply find_rkey_loop_frame in H2 as (k & Hk).
      exists k. congruence. }
  pose proof (find_rkey_loop_frame _ _ _ _ _ _ H2) as (k0 & Hk0).
  apply find_rkey_loop_run in H2. rewrite Hsp1, Hse1 in H2.
  apply bind_inv in H as [(u' & s3 & H3 & H) | (e & H3 & ->)];
    destruct (with_chan_frame _ _ _ _ H3) as [Hsp3 Hse3].
  2:{ split; [|exact I]. exists k0. congruence. }
  run_inv. split; [exists k0; congruence|].
  rewrite Hsp3, Hse3. destruct r as [k|].
  - destruct H2 as (Hsp & Hrest). split; [rewrite Hsp; reflexivity | exact Hrest].
  - destruct H2 as (Hsp & Hrest).
    split; [rewrite Hsp; apply set_rkey_same | exact Hrest].
Qed.

End FindRkey.

Lemma find_rkey_restores_witness :
  let s0 := mock.start epson.default_spec
              [None; Some (bs "x"); Some (bs "@BDC PS EE:000042;")] in
  exists k, spec (snd (find_rkey mock.ch [1; 2; 3; 4] s0)) = epson.set_rkey k (spec s0).
Proof.
  intros s0.
  destruct (find_rkey mock.ch [1; 2; 3; 4] s0) as [o s'] eqn:E.
  exact (proj1 (find_rkey_restores mock.ch [1; 2; 3; 4] s0 o s' E)).
Defined.

(** ** [write_eeprom] *)

Section WriteEeprom.
Import epson.

Context {X : Type} (ch : channel X).

Lemma write_rounds_run (k : bytes) (cr : bool) (sp : Spec) :
  forall addrval items acc (s : estate X) res s',
    Forall2 (write_item sp k) addrval items ->
    spec s = sp ->
    ictrl_rounds ch items (write_body ch cr) acc s = (Ret res, s') ->
    exists b, pairs_written ch k cr addrval s b s' /\ res = acc && b /\ spec s' = sp.
Proof.
  intros addrval items acc s res s' Hf. revert acc s res s'.
  induction Hf as [|[a v] it addrval items Hit Hf IH]; intros acc s res s' Hsp H;
    simpl in H.
  - run_inv. exists true. rewrite andb_true_r. repeat split. constructor.
  - destruct Hit as (v' & p & Hv & Hp & ->). cbn [fst snd] in Hv, Hp. subst v.
    apply bind_Ret_inv in H as (rk & s0 & H0 & H).
    unfold gets in H0. inversion H0; subst rk s0; clear H0.
    apply bind_Ret_inv in H as (m & s1 & H1 & H).
    apply lift_Ret_inv in H1 as [Hm ->].
    apply bind_Ret_inv in H as (r & s2 & H2 & H).
    destruct (ctrl_call_frame _ _ _ _ _ H2) as [Hsp2 _].
    apply bind_Ret_inv in H as (acc' & s3 & H3 & H).
    unfold write_body in H3. destruct r as [r|]; [|discriminate H3].
    assert (Hok : exists ok, pair_checked ch cr a v' r s2 ok s3 /\
                             acc' = acc && ok /\ spec s3 = spec s2).
    { unfold pair_checked. destruct (bytes_in (bs ":OK;") r).
      - destruct cr.
        + apply bind_Ret_inv in H3 as (rd & s4 & H4 & H3). run_inv.
          pose proof (read_eeprom_any _ _ _ _ _ H4) as [Hsp4 _].
          eexists. split; [exists rd; split; [exact H4 | reflexivity]|].
          split; [reflexivity | exact Hsp4].
        + run_inv. exists true. repeat split.
      - run_inv. exists false. repeat split. }
    destruct Hok as (ok & Hck & -> & Hsp3).
    apply IH in H as (b & Hpw & -> & Hsp'); [|congruence].
    exists (ok && b). split; [|split; [symmetry; apply andb_assoc | exact Hsp']].
    econstructor; [|exact H2|exact Hck|exact Hpw].
    exists p. rewrite Hsp. split; [exact Hp | rewrite <- Hsp; exact Hm].
Qed.

(** What a returning [write_pass] did. *)
Lemma write_pass_run (addrval : list (Z * option Z)) (wk : option bytes)
    (cr : bool) (s : estate X) b s' :
  write_pass ch addrval wk cr s = (Ret b, s') ->
  spec s' = spec s /\
  match addrval with
  | [] => b = true /\ s' = s
  | _ :: _ =>
      exists k s1 s2,
        match wk with None => wkey (spec s) | Some k => Some k end = Some k /\
        ctrl_enter ch s = (Ret tt, s1) /\
        pairs_written ch k cr addrval s1 b s2 /\
        ctrl_exit ch s2 = (Ret tt, s')
  end.
Proof.
  intros H.
  change (write_pass ch addrval wk cr s) with
    ((msgs <- lift (traverse
               (fun av : Z * option Z =>
                  let? p := match snd av with
                            | Some v => struct_res
                                (pack LE [if wlen (spec s) =? 1 then FB else FH; FB]
                                   [fst av; v])
                            | None => Raise StructError
                            end in
                  match match wk with None => wkey (spec s) | Some k => Some k end with
                  | Some k => Ret (av, (Factory "|" "B", p ++ k))
                  | None => Raise TypeError
                  end) addrval) ;;
      zip_ictrl ch msgs (write_body ch cr) true) s) in H.
  apply bind_Ret_inv in H as (msgs & s0 & H0 & H).
  apply lift_Ret_inv in H0 as [Ht ->].
  apply traverse_Ret_inv in Ht.
  destruct addrval as [|av addrval].
  - inversion Ht; subst. cbn in H. run_inv. repeat split.
  - inversion Ht as [|? it ? msgs' Hit Hrest]; subst.
    destruct (match wk with None => wkey (spec s) | Some k => Some k end)
      as [k|] eqn:Ek.
    2:{ destruct (match snd av with Some _ => _ | None => _ end) in Hit;
        discriminate. }
    assert (Hitems : Forall2 (write_item (spec s) k) (av :: addrval) (it :: msgs')).
    { clear H. revert Ht. generalize (it :: msgs'). generalize (av :: addrval).
      intros l1 l2 HF. induction HF as [|x y l1 l2 Hxy HF IH]; constructor; [|exact IH].
      destruct (snd x) as [v|] eqn:Ev; [|discriminate].
      destruct (pack LE _ _) as [p|] eqn:Ep; [|discriminate].
      cbn in Hxy. inversion Hxy; subst.
      exists v, p. repeat split; assumption. }
    unfold zip_ictrl in H.
    apply bind_Ret_inv in H as ([] & s1 & H1 & H).
    apply bind_Ret_inv in H as (res & s2 & H2 & H).
    apply bind_Ret_inv in H as ([] & s3 & H3 & H).
    unfold ret in H. inversion H; subst b s3; clear H.
    destruct (with_chan_frame _ _ _ _ H1) as [Hsp1 _].
    destruct (with_chan_frame _ _ _ _ H3) as [Hsp3 _].
    apply (write_rounds_run k cr (spec s)) with (addrval := av :: addrval) in H2
      as (b & Hpw & -> & Hsp2); [|exact Hitems|exact Hsp1].
    split; [congruence|].
    exists k, s1, s2. repeat split; assumption.
Qed.

(** A returning atomic [write_eeprom]: [prev] is read before anything is
    written; on a true result nothing more happens; on a false result the
    pairs of [prev] are written once more, non-atomically, and the result
    stays false. *)
Lemma write_eeprom_atomic_run (addrval : list (Z * option Z)) (wk : option bytes)
    (cr : bool) (s : estate X) b s' :
  write_eeprom ch addrval wk cr true s = (Ret b, s') ->
  exists prev s1 s2,
    read_eeprom ch (map fst addrval) s = (Ret prev, s1) /\
    write_pass ch addrval wk cr s1 = (Ret b, s2) /\
    if b then s' = s2
    else exists b',
        write_pass ch prev
          match wk with None => wkey (spec s1) | Some k => Some k end cr s2
        = (Ret b', s').
Proof.
  intros H. unfold write_eeprom in H.
  apply bind_Ret_inv in H as (prev & s1 & H1 & H).
  apply bind_Ret_inv in H as (sp & s0 & H0 & H).
  unfold gets in H0. inversion H0; subst sp s0; clear H0.
  apply bind_Ret_inv in H as (res & s2 & H2 & H).
  exists prev, s1, s2. split; [exact H1|]. destruct res; cbn in H.
  - run_inv. split; [exact H2 | reflexivity].
  - apply bind_Ret_inv in H as (b' & s3 & H3 & H). run_inv.
    split; [exact H2|]. exists b'. exact H3.
Qed.

End WriteEeprom.

(** *** The restoring write on concrete printers *)

Section AtomicRestore.
Import epson.

(** The rollback of scenario 4: one restoring write of the original
    value, and the result is false. *)
Lemma write_eeprom_rollback_scenario :
  let r := write_eeprom mock.ch [(0x10, Some 0x00)] (Some (bs "Azzzzzzz"))
             true true printer_readback_fails in
  fst r = Ret false
  /\ count_writes (snd r) = 2%nat
  /\ nth_error (map fst (sent (snd r))) 3 =
       match encode 0 (Factory "|" "B")
               ([Byte.x10; Byte.x00; Byte.x42] ++ bs "Azzzzzzz") with
       | Ret m => Some m
       | Raise _ => None
       end.
Proof. vm_compute. repeat split. Qed.

(** C1, on the code.  An atomic write of [(5, 0)] to a printer whose
    reply to the pre-read does not parse and whose reply to the write
    lacks [":OK;"]: [prev] is [[(5, none)]], the result of the write is
    false, and the restoring call raises [struct.error] while packing the
    value [none], before anything is sent.  The call does not return
    false, and no restoring write reaches the printer: the only factory
    write in the transcript is the original one. *)
Theorem write_eeprom_restore_raises :
  let r := write_eeprom mock.ch [(5, Some 0)] (Some (bs "Azzzzzzz"))
             true true printer_unreadable in
  fst (read_eeprom mock.ch [5] printer_unreadable) = Ret [(5, None)]
  /\ fst r = Raise StructError
  /\ List.length (sent (snd r)) = 2%nat
  /\ count_writes (snd r) = 1%nat.
Proof. vm_compute. repeat split. Qed.

End AtomicRestore.

(** ** The aggregate reset operations *)

Section ResetOps.
Import epson reset.

Lemma dict_set_keys (k v : Z) : forall av a,
  List.In a (map fst (dict_set k v av)) <-> a = k \/ List.In a (map fst av).
Proof.
  induction av as [|[k' v'] av IH]; intros a; simpl.
  - intuition congruence.
  - destruct (k' =? k) eqn:E; simpl.
    + apply Z.eqb_eq in E. subst k'. intuition congruence.
    + rewrite IH. intuition congruence.
Qed.

Lemma dict_set_nodup (k v : Z) : forall av,
  List.NoDup (map fst av) -> List.NoDup (map fst (dict_set k v av)).
Proof.
  induction av as [|[k' v'] av IH]; intros Hnd; simpl.
  - constructor; [intros [] | constructor].
  - inversion Hnd as [|? ? Hni Hnd']; subst.
    destruct (k' =? k) eqn:E; simpl.
    + apply Z.eqb_eq in E. subst k'. constructor; assumption.
    + constructor; [|apply IH, Hnd'].
      rewrite dict_set_keys. intros [H|H]; [|exact (Hni H)].
      apply Z.eqb_neq in E. congruence.
Qed.

Lemma dict_update_keys : forall kvs av a,
  List.In a (map fst (dict_update av kvs))
  <-> List.In a (map fst av) \/ List.In a (map fst kvs).
Proof.
  unfold dict_update.
  induction kvs as [|[k v] kvs IH]; intros av a; simpl.
  - intuition.
  - rewrite IH, dict_set_keys. simpl. intuition congruence.
Qed.

Lemma dict_update_nodup : forall kvs av,
  List.NoDup (map fst av) -> List.NoDup (map fst (dict_update av kvs)).
Proof.
  unfold dict_update.
  induction kvs as [|[k v] kvs IH]; intros av Hnd; simpl; [exact Hnd|].
  apply IH, dict_set_nodup, Hnd.
Qed.

Lemma merge_from_keys (pat : string) : forall ms av a,
  List.In a (map fst (merge_from pat ms av))
  <-> List.In a (map fst av)
      \/ exists m, List.In m ms /\ matches pat m = true
                   /\ List.In a (map fst (entry_pairs m)).
Proof.
  unfold merge_from.
  induction ms as [|m ms IH]; intros av a; simpl.
  - split; [auto|]. intros [H|H]; [exact H|]. destruct H as (m & [] & _).
  - rewrite IH. destruct (matches pat m) eqn:Em.
    + rewrite dict_update_keys. split.
      * intros [[H|H]|H]; [left; exact H | right; exists m; auto |].
        destruct H as (m' & Hin & Hm & Ha). right. exists m'. auto.
      * intros [H|H]; [auto|]. destruct H as (m' & [Heq|Hin] & Hm & Ha).
        -- subst m'. auto.
        -- right. exists m'. auto.
    + split.
      * intros [H|H]; [auto|].
        destruct H as (m' & Hin & Hm & Ha). right. exists m'. auto.
      * intros [H|H]; [auto|]. destruct H as (m' & [Heq|Hin] & Hm & Ha).
        -- subst m'. congruence.
        -- right. exists m'. auto.
Qed.

Lemma merge_from_nodup (pat : string) : forall ms av,
  List.NoDup (map fst av) -> List.NoDup (map fst (merge_from pat ms av)).
Proof.
  unfold merge_from.
  induction ms as [|m ms IH]; intros av Hnd; simpl; [exact Hnd|].
  apply IH. destruct (matches pat m); [apply dict_update_nodup|]; exact Hnd.
Qed.

Lemma entry_pairs_keys (m : mem_entry) :
  match reset m with
  | Some r => (List.length (addr m) <= List.length r)%nat
  | None => True
  end ->
  map fst (entry_pairs m) = addr m.
Proof.
  unfold entry_pairs. intros H.
  assert (Hgen : forall (l : list Z) (r : list Z),
             (List.length l <= List.length r)%nat -> map fst (combine l r) = l).
  { induction l as [|x l IH]; intros [|y r] Hl; simpl in *; try lia; [reflexivity..|].
    rewrite IH by lia. reflexivity. }
  apply Hgen. destruct (reset m); [exact H|].
  unfold zeros. rewrite repeat_length. lia.
Qed.

(** The aggregate operation writes the merged pairs. *)
Lemma aggregate_pairs (sp : Spec) (pat : string) (m : mem_entry) :
  get_mem sp pat = Some m ->
  op_pairs (_make_reset m) = merge pat (mem sp).
Proof.
  unfold get_mem. destruct (merge pat (mem sp)) as [|[k v] av] eqn:E; [discriminate|].
  intros H. inversion H; subst; clear H. cbn.
  f_equal. clear E. induction av as [|[k' v'] av IH]; [reflexivity|].
  cbn. rewrite IH. reflexivity.
Qed.

(** When every matching entry has as many reset values as addresses (or
    none at all), the aggregate operation writes each address of each
    matching entry exactly once, and nothing else. *)
Lemma aggregate_covers (sp : Spec) (pat : string) (m : mem_entry) :
  get_mem sp pat = Some m ->
  (forall e, List.In e (mem sp) -> matches pat e = true ->
             match reset e with
             | Some r => (List.length (addr e) <= List.length r)%nat
             | None => True
             end) ->
  List.NoDup (map fst (op_pairs (_make_reset m)))
  /\ forall a, List.In a (map fst (op_pairs (_make_reset m)))
               <-> exists e, List.In e (mem sp) /\ matches pat e = true
                             /\ List.In a (addr e).
Proof.
  intros Hg Hlen. rewrite (aggregate_pairs _ _ _ Hg).
  change (merge pat (mem sp)) with (merge_from pat (mem sp) []).
  split; [apply merge_from_nodup; constructor|].
  intros a. rewrite merge_from_keys. simpl. split.
  - intros [[]|H]. destruct H as (e & Hin & Hm & Ha). exists e.
    rewrite entry_pairs_keys in Ha by (apply Hlen; assumption). auto.
  - intros (e & Hin & Hm & Ha). right. exists e.
    rewrite entry_pairs_keys by (apply Hlen; assumption). auto.
Qed.

(** C7, on the code.  The operation of the entry itself resets address
    0x10 to its [min], 5; the aggregate operation built from the same
    entry resets it to 0: [get_mem] falls back to zeros and never looks
    at [min]. *)
Theorem aggregate_reset_ignores_min :
  _mem_ops spec_with_min =
    [ {| op_name := "do_reset_Waste_counter_x10"; op_pairs := [(0x10, 0x05)] |};
      {| op_name := "do_reset_All_waste_counters_x10"; op_pairs := [(0x10, 0)] |} ].
Proof. vm_compute. reflexivity. Qed.

End ResetOps.

(** ** [D4Link.send]: credit before dispatch *)

Section SendCredit.
Import d4.

Context {P : Type} (io : pipe P).

Lemma obj_upd_same (c : loc) (f : chanobj -> chanobj) (l : link P) :
  obj (upd_chan c f l) c = f (obj l c).
Proof. unfold obj, upd_chan. simpl. apply lookup_total_insert_eq. Qed.

Lemma with_target_frame {A} (f : P -> outcome A * P) (l : link P) o l' :
  with_target f l = (o, l') ->
  heap l' = heap l /\ channels l' = channels l /\ txn l' = txn l /\
  received l' = received l /\ dispatched l' = dispatched l /\
  f (target l) = (o, target l').
Proof.
  unfold with_target. destruct (f (target l)) as [o' p] eqn:E. intros H.
  inversion H; subst. simpl. repeat split.
Qed.

(** What a returning [dispatch] did: the credit went down by [cost], and
    the encoded packet was written, whose result is returned. *)
Lemma dispatch_run (payload : bytes) (c : loc) (credit control cost : Z)
    (l : link P) w l' :
  dispatch io payload c credit control cost l = (Ret w, l') ->
  credit_of l' c = credit_of l c - cost /\
  exists b,
    packet.encode payload (fst (ch_cid (obj l c))) (snd (ch_cid (obj l c)))
      credit control = Ret b /\
    pipe_write io b (target l) = (Ret w, target l').
Proof.
  unfold dispatch. intros H.
  apply bind_Ret_inv in H as ([] & l1 & H1 & H).
  unfold modify in H1. inversion H1; subst l1; clear H1.
  apply bind_Ret_inv in H as (cid & l2 & H2 & H).
  unfold gets in H2. inversion H2; subst cid l2; clear H2.
  apply bind_Ret_inv in H as (b & l3 & H3 & H).
  apply lift_Ret_inv in H3 as [Hb ->].
  apply with_target_frame in H as (Hh & _ & _ & _ & _ & Hw).
  rewrite obj_upd_same in Hb. cbn [ch_cid add_credit] in Hb. split.
  - unfold credit_of.
    replace (obj l' c) with (obj (upd_chan c (add_credit (- cost)) l) c)
      by (unfold obj; rewrite Hh; reflexivity).
    rewrite obj_upd_same. cbn [ch_credit add_credit]. lia.
  - exists b. split; [exact Hb | exact Hw].
Qed.

Lemma credit_loop_run (c : loc) (cost : Z) :
  forall n (l : link P) ok l',
    credit_loop io n c cost l = (Ret ok, l') ->
    if ok then exists k, (k < n)%nat /\ credit_rounds io c cost k l l'
                         /\ cost <= credit_of l' c
    else credit_rounds io c cost n l l'.
Proof.
  induction n as [|n IH]; intros l ok l' H; simpl in H.
  - unfold ret in H. inversion H; subst. constructor.
  - apply bind_Ret_inv in H as (cr & l0 & H0 & H).
    unfold gets in H0. inversion H0; subst cr l0; clear H0.
    destruct (cost <=? credit_of l c) eqn:E.
    + unfold ret in H. inversion H; subst. apply Z.leb_le in E.
      exists 0%nat. split; [lia|]. split; [constructor | exact E].
    + apply Z.leb_gt in E.
      apply bind_Ret_inv in H as (r & l1 & H1 & H).
      apply IH in H. destruct ok.
      * destruct H as (k & Hk & Hr & Hc).
        exists (S k). split; [lia|]. split; [|exact Hc].
        econstructor; eassumption.
      * econstructor; eassumption.
Qed.

(** What a returning [send] with [check=true] did, as the code has it.
    - If it dispatched (returned the write result [w]), at most two
      [CreditRequest] rounds came first, each made because the credit was
      below the cost; at the moment of dispatch the credit was at least
      the cost; the credit went down by exactly the cost; the encoded
      packet was written and [w] is the result of that write; so with a
      non-negative cost the credit is not negative before or after.
    - If it did not (returned none), three [CreditRequest] rounds were
      made, each with the credit below the cost, and the run ended there.
    The credit is tested before each request and not after the last one.
    Each round is a transaction of its own: an unchecked send on the
    transaction channel, at the cost of one credit of that channel. *)
Lemma send_checked_run (payload : bytes) (c : loc) (credit control cost : Z)
    (l : link P) r l' :
  send io payload c credit control cost true l = (Ret r, l') ->
  match r with
  | Some w =>
      exists k ld,
        (k < 3)%nat /\ credit_rounds io c cost k l ld /\
        cost <= credit_of ld c /\
        dispatch io payload c credit control cost ld = (Ret w, l') /\
        credit_of l' c = credit_of ld c - cost /\
        (0 <= cost -> 0 <= credit_of ld c /\ 0 <= credit_of l' c) /\
        exists b,
          packet.encode payload (fst (ch_cid (obj ld c))) (snd (ch_cid (obj ld c)))
            credit control = Ret b /\
          pipe_write io b (target ld) = (Ret w, target l')
  | None => credit_rounds io c cost 3 l l'
  end.
Proof.
  unfold send. intros H.
  apply bind_Ret_inv in H as (ok & ld & Hloop & H).
  apply credit_loop_run in Hloop. destruct ok.
  - destruct Hloop as (k & Hk & Hr & Hc).
    apply bind_Ret_inv in H as (w & l1 & Hd & H).
    unfold ret in H. inversion H; subst r l1; clear H.
    pose proof (dispatch_run _ _ _ _ _ _ _ _ Hd) as [Hcr Hw].
    exists k, ld.
    split; [exact Hk|]. split; [exact Hr|]. split; [exact Hc|].
    split; [exact Hd|]. split; [exact Hcr|]. split; [|exact Hw].
    intros Hcost. split; lia.
  - unfold ret in H. inversion H; subst. exact Hloop.
Qed.


(** [self.txn('CreditRequest', ...)] as a call of [tx_call] is the
    transaction used in the loop. *)
Lemma tx_call_credit_request (c : loc) (l : link P) :
  credit_request io c l =
    tx_call io "CreditRequest"
      [tx.FInt (fst (ch_cid (obj l c))); tx.FInt (snd (ch_cid (obj l c)))] l.
Proof. reflexivity. Qed.

(** What a returning round of the loop did: the [CreditRequest] for the
    channel was encoded by the table of the transaction channel and
    written as one packet on that channel, at the cost of one of its
    credits, and the reply was waited for. *)
Lemma credit_request_run (c : loc) (l : link P) r l' :
  credit_request io c l = (Ret r, l') ->
  let t := txn l in
  exists payload b w l1,
    tx.encode (ch_protocol (obj l t)) "CreditRequest"
      [tx.FInt (fst (ch_cid (obj l c))); tx.FInt (snd (ch_cid (obj l c)))]
    = Ret payload
    /\ packet.encode payload (fst (ch_cid (obj l t))) (snd (ch_cid (obj l t))) 1 0
       = Ret b
    /\ pipe_write io b (target l) = (Ret w, target l1)
    /\ credit_of l1 t = credit_of l t - 1
    /\ tx_wait io 8 t "CreditRequest" (upd_chan t (set_rx_pkt None) l1) = (Ret r, l').
Proof.
  intros H t. unfold credit_request in H.
  apply bind_Ret_inv in H as (t' & l0 & H0 & H).
  unfold gets in H0. inversion H0; subst t' l0; clear H0.
  apply bind_Ret_inv in H as (cid & l0 & H0 & H).
  unfold gets in H0. inversion H0; subst cid l0; clear H0.
  unfold tx_call_with in H.
  apply bind_Ret_inv in H as (rev & l0 & H0 & H).
  unfold gets in H0. inversion H0; subst rev l0; clear H0.
  apply bind_Ret_inv in H as (payload & l0 & H0 & H).
  apply lift_Ret_inv in H0 as [Hp ->].
  apply bind_Ret_inv in H as (pk & l0 & H0 & H).
  apply lift_Ret_inv in H0 as [_ ->].
  apply bind_Ret_inv in H as (ow & l1 & H1 & H).
  apply bind_Ret_inv in H1 as (w & l1' & Hd & H1).
  unfold ret in H1. inversion H1; subst ow l1'; clear H1.
  apply bind_Ret_inv in H as (u & l2 & H2 & H).
  unfold modify in H2. inversion H2; subst u l2; clear H2.
  fold t in Hp, Hd, H.
  apply dispatch_run in Hd as (Hcr & b & Hb & Hw).
  exists payload, b, w, l1. repeat split; assumption.
Qed.

End SendCredit.

(** Scenario 5: one [CreditRequest], then the payload on the wire, and
    the channel's credit back at 0. *)
Lemma send_granted_scenario :
  let r := d4.send mockpipe.io (bs "hello") d4.ctrl 1 0 1 true peer_grants in
  fst r = Ret (Some 11)
  /\ mockpipe.written (d4.target (snd r)) =
       [credit_request_wire; mockpipe.wire (bs "hello") 2 2 1 0]
  /\ d4.credit_of (snd r) d4.ctrl = 0.
Proof. vm_compute. repeat split. Qed.

(** Without any answer three requests are written and nothing else; the
    channel's credit is untouched. *)
Lemma send_starved_scenario :
  let r := d4.send mockpipe.io (bs "hello") d4.ctrl 1 0 1 true peer_silent in
  fst r = Ret None
  /\ mockpipe.written (d4.target (snd r)) =
       [credit_request_wire; credit_request_wire; credit_request_wire]
  /\ d4.credit_of (snd r) d4.ctrl = 0.
Proof. vm_compute. repeat split. Qed.

(** The requests of a checked send on the transaction channel itself go
    out on that same channel: against a silent peer its credit goes from
    0 to -3. *)
Lemma send_on_txn_starved_scenario :
  let r := d4.send mockpipe.io (bs "hello") 0%nat 1 0 1 true peer_silent in
  fst r = Ret None
  /\ mockpipe.written (d4.target (snd r)) =
       [mockpipe.wire [Byte.x04; Byte.x00; Byte.x00; Byte.x00; Byte.x00] 0 0 1 0;
        mockpipe.wire [Byte.x04; Byte.x00; Byte.x00; Byte.x00; Byte.x00] 0 0 1 0;
        mockpipe.wire [Byte.x04; Byte.x00; Byte.x00; Byte.x00; Byte.x00] 0 0 1 0]
  /\ d4.credit_of (snd r) 0%nat = -3.
Proof. vm_compute. repeat split. Qed.

(** C4, on the code.  A send of ["hello"] with [check=true] and cost 1 on
    the control channel, whose credit is 0, to a peer that stays silent
    through the first two [CreditRequest] transactions and grants one
    credit to the third.  The three requests are written and all the
    peer's answers read; the grant arrives, so that the credit is 1, no
    less than the cost; yet [send] takes the [else] branch of its loop and
    returns none, and the payload is never written.  The loop looks at
    the credit before each request and not after the last one: the same
    grant made to the second request is used, and the payload follows the
    two requests on the wire. *)
Theorem send_third_grant_dropped :
  let late := d4.send mockpipe.io (bs "hello") d4.ctrl 1 0 1 true peer_grants_late in
  let second := d4.send mockpipe.io (bs "hello") d4.ctrl 1 0 1 true peer_grants_second in
  d4.credit_of peer_grants_late d4.ctrl = 0
  /\ fst late = Ret None
  /\ mockpipe.written (d4.target (snd late)) =
       [credit_request_wire; credit_request_wire; credit_request_wire]
  /\ mockpipe.reads (d4.target (snd late)) = []
  /\ d4.credit_of (snd late) d4.ctrl = 1
  /\ fst second = Ret (Some 11)
  /\ mockpipe.written (d4.target (snd second)) =
       [credit_request_wire; credit_request_wire; mockpipe.wire (bs "hello") 2 2 1 0]
  /\ d4.credit_of (snd second) d4.ctrl = 0.
Proof. vm_compute. repeat split. Qed.

(** ** [D4Link._send_init]: revision negotiation *)

Section InitNegotiation.
Import d4.

Context {P : Type} (io : pipe P).

(** C3.  Let [Init(revision)] be answered by [InitReply(res, rev)].
    Result 0x00 is success.  Results 0x01 and 0x0B raise.  Result 0x02
    with another revision that is 0x10 or 0x20 switches the transaction
    channel's table to it and issues [Init] again with it; with an unknown
    revision [_send_init] returns nothing, and [__enter__] then fails with
    "Init failed".  Under the 0x10 table [Init(0x10)] is the bytes 00 10.
    Against the peer of the scenario the link writes [Init] with 0x20,
    then with 0x10, ends on the 0x10 table and succeeds. *)
Theorem init_negotiation (fuel : nat) (revision : Z) (l : link P) p l1 res rev :
  tx_call io "Init" [tx.FInt revision] l = (Ret (Some p), l1) ->
  tx.p_vals p = [tx.FInt res; tx.FInt rev] ->
  (res = 0x00 -> _send_init io (S fuel) revision l = (Ret (Some true), l1))
  /\ (res = 0x01 \/ res = 0x0B ->
      _send_init io (S fuel) revision l = (Raise TypeError, l1))
  /\ (res = 0x02 -> rev <> revision -> rev = 0x10 ->
      _send_init io (S fuel) revision l =
        _send_init io fuel 0x10 (upd_chan (txn l1) (set_protocol tx.Rev10) l1))
  /\ (res = 0x02 -> rev <> revision -> rev = 0x20 ->
      _send_init io (S fuel) revision l =
        _send_init io fuel 0x20 (upd_chan (txn l1) (set_protocol tx.Rev20) l1))
  /\ (res = 0x02 -> rev <> 0x10 -> rev <> 0x20 ->
      _send_init io (S fuel) revision l = (Ret None, l1))
  /\ tx.encode tx.Rev10 "Init" [tx.FInt 0x10] = Ret [Byte.x00; Byte.x10]
  /\ (let r := _send_init mockpipe.io 2 0x20 peer_rev10 in
      fst r = Ret (Some true)
      /\ mockpipe.written (target (snd r)) =
           [mockpipe.wire [Byte.x00; Byte.x20] 0 0 1 0;
            mockpipe.wire [Byte.x00; Byte.x10] 0 0 1 0]
      /\ ch_protocol (obj (snd r) (txn (snd r))) = tx.Rev10)
  /\ fst (__enter__ mockpipe.io 1000 peer_rev30) = Raise InitFailed
  /\ fst (__enter__ mockpipe.io 1000 peer_busy) = Raise TypeError.
Proof.
  intros Hcall Hvals.
  assert (Hstep : _send_init io (S fuel) revision l =
            (if res =? 0x00 then ret (Some true)
             else if (res =? 0x01) || (res =? 0x0B) then raise TypeError
             else if res =? 0x02 then
               if negb (rev =? revision) then
                 if rev =? 0x10 then
                   t <- gets txn ;;
                   _ <- modify (upd_chan t (set_protocol tx.Rev10)) ;;
                   _send_init io fuel rev
                 else if rev =? 0x20 then
                   t <- gets txn ;;
                   _ <- modify (upd_chan t (set_protocol tx.Rev20)) ;;
                   _send_init io fuel rev
                 else ret None
               else ret None
             else ret None) l1).
  { cbn [_send_init]. rewrite (bind_Ret _ _ _ _ _ Hcall), Hvals. reflexivity. }
  rewrite Hstep. clear Hstep.
  repeat split; intros;
    repeat match goal with
           | H : _ \/ _ |- _ => destruct H
           end;
    subst;
    repeat match goal with
           | |- context [?a =? ?b] =>
               destruct (Z.eqb_spec a b); try lia; try congruence
           end;
    try reflexivity.
Qed.

End InitNegotiation.

Lemma init_negotiation_witness :
  exists l1,
    d4._send_init mockpipe.io 2 0x20 peer_rev10 =
      d4._send_init mockpipe.io 1 0x10
        (d4.upd_chan (d4.txn l1) (d4.set_protocol tx.Rev10) l1).
Proof.
  destruct (d4.tx_call mockpipe.io "Init" [tx.FInt 0x20] peer_rev10) as [o l1] eqn:E.
  assert (Ho : fst (d4.tx_call mockpipe.io "Init" [tx.FInt 0x20] peer_rev10) =
               Ret (Some {| tx.p_row :=
                              tx.mk 0x80 "InitReply" [tx.B; tx.B] false
                                ["result"; "revision"]%string [tx.FInt 0x20];
                            tx.p_vals := [tx.FInt 0x02; tx.FInt 0x10] |}))
    by (vm_compute; reflexivity).
  rewrite E in Ho. simpl in Ho. subst o.
  exists l1.
  refine (proj1 (proj2 (proj2
            (init_negotiation mockpipe.io 1 0x20 peer_rev10 _ l1 0x02 0x10 E eq_refl)))
          eq_refl _ eq_refl).
  discriminate.
Defined.

(** ** [D4Link.retreive]: reassembly *)

Section Retreive.
Import d4.

Context {P : Type} (io : pipe P).

(** Fewer than six bytes cannot be unpacked as a header. *)
Lemma decode_short (b : bytes) :
  (List.length b < 6)%nat -> packet.decode b = Raise StructError.
Proof.
  intros H. unfold packet.decode.
  destruct b as [|b0 [|b1 [|b2 [|b3 [|b4 [|b5 b]]]]]]; simpl in H; try lia;
    reflexivity.
Qed.

(** A header followed by any bytes decodes to that header and those
    bytes. *)
Lemma decode_header_app (p s len c k : Z) (hdr x : bytes) :
  pack BE packet.hStruct [p; s; len; c; k] = Some hdr ->
  packet.decode (hdr ++ x) =
    Ret ({| packet.psid := p; packet.ssid := s; packet.length := len;
            packet.credit := c; packet.control := k |}, x).
Proof.
  intros Hh. pose proof (pack_length _ _ _ _ Hh) as Hl.
  change (calcsize packet.hStruct) with packet.hLen in Hl.
  unfold packet.decode.
  rewrite firstn_app, Hl, Nat.sub_diag, firstn_O, app_nil_r.
  rewrite <- Hl at 1. rewrite firstn_all.
  rewrite (unpack_pack _ _ _ _ Hh).
  rewrite skipn_app, Hl, Nat.sub_diag. simpl skipn at 2.
  rewrite <- Hl, skipn_all. reflexivity.
Qed.

(** When the first chunk read is shorter than a header, [retreive]
    raises [struct.error] and dispatches nothing. *)
Lemma retreive_short_header (retries : nat) (l : link P) resp l1 :
  received l = [] ->
  with_target (pipe_read io) l = (Ret resp, l1) ->
  resp <> [] -> (List.length resp < 6)%nat ->
  retreive io retries l = (Raise StructError, l1).
Proof.
  intros Hrx Hread Hne Hlen. unfold retreive, bind at 1, gets.
  rewrite Hrx. cbn [Nat.add retreive_loop].
  rewrite (bind_Ret _ _ _ _ _ Hread).
  destruct resp as [|x resp]; [congruence|].
  cbn [app]. unfold bind, lift. rewrite (decode_short _ Hlen). reflexivity.
Qed.

(** One call slices one packet out: when a single read brings a whole
    packet followed by more bytes, that packet alone is handed to
    [_on_received] and the rest is kept in [_received]. *)
Lemma retreive_one_packet (retries : nat) (l : link P) (payload extra pk : bytes)
    (p s c k : Z) l1 :
  received l = [] ->
  packet.encode payload p s c k = Ret pk ->
  with_target (pipe_read io) l = (Ret (pk ++ extra), l1) ->
  retreive io retries l =
    _on_received
      {| packet.psid := p; packet.ssid := s;
         packet.length := 6 + Z.of_nat (List.length payload);
         packet.credit := c; packet.control := k |}
      payload (set_received extra l1).
Proof.
  intros Hrx Henc Hread. unfold packet.encode in Henc.
  destruct (pack BE packet.hStruct _) as [hdr|] eqn:Hh; [|discriminate].
  cbn in Henc. inversion Henc; subst pk; clear Henc.
  change (Z.of_nat packet.hLen) with 6 in Hh.
  unfold retreive, bind at 1, gets. rewrite Hrx. cbn [Nat.add retreive_loop].
  rewrite (bind_Ret _ _ _ _ _ Hread).
  pose proof (pack_length _ _ _ _ Hh) as Hl.
  destruct ((hdr ++ payload) ++ extra) as [|x rest] eqn:Epk.
  { apply (f_equal (@List.length byte)) in Epk.
    rewrite !length_app, Hl in Epk. simpl in Epk. lia. }
  rewrite <- Epk. cbn [app]. rewrite <- app_assoc.
  unfold bind at 1. unfold lift.
  rewrite (decode_header_app _ _ _ _ _ _ _ Hh). cbn [fst snd].
  unfold packet.payload_length. cbn [packet.length].
  change (Z.of_nat packet.hLen) with 6.
  replace (6 + Z.of_nat (List.length payload) - 6)
    with (Z.of_nat (List.length payload)) by lia.
  replace (Z.of_nat (List.length (payload ++ extra)) <? Z.of_nat (List.length payload))
    with false by (symmetry; apply Z.ltb_ge; rewrite length_app; lia).
  unfold py_take, py_drop.
  replace (0 <=? Z.of_nat (List.length payload)) with true
    by (symmetry; apply Z.leb_le; lia).
  rewrite Nat2Z.id.
  rewrite firstn_app, Nat.sub_diag, firstn_O, app_nil_r, firstn_all.
  rewrite skipn_app, Nat.sub_diag, skipn_all. cbn [skipn app].
  reflexivity.
Qed.


Lemma quiet_ret {A} (a : A) : quiet (P := P) (ret a).
Proof. intros l o l' H. inversion H. reflexivity. Qed.

Lemma quiet_raise {A} (e : exn) : quiet (P := P) (@raise (link P) A e).
Proof. intros l o l' H. inversion H. reflexivity. Qed.

Lemma quiet_lift {A} (x : outcome A) : quiet (P := P) (lift x).
Proof. intros l o l' H. inversion H. reflexivity. Qed.

Lemma quiet_gets {A} (f : link P -> A) : quiet (P := P) (gets f).
Proof. intros l o l' H. inversion H. reflexivity. Qed.

Lemma quiet_upd (c : loc) (f : chanobj -> chanobj) : quiet (P := P) (modify (upd_chan c f)).
Proof. intros l o l' H. inversion H. reflexivity. Qed.

Lemma quiet_bind {A B} (m : M (link P) A) (k : A -> M (link P) B) :
  quiet m -> (forall a, quiet (P := P) (k a)) -> quiet (P := P) (bind m k).
Proof.
  intros Hm Hk l o l' H.
  apply bind_inv in H as [(a & l1 & H1 & H2) | (e & H1 & _)].
  - rewrite (Hk a _ _ _ H2). exact (Hm _ _ _ H1).
  - exact (Hm _ _ _ H1).
Qed.

Create HintDb quiet.
#[local] Hint Resolve quiet_ret quiet_raise quiet_lift quiet_gets quiet_upd : quiet.

Ltac quiet_tac :=
  repeat first
    [ apply quiet_bind; [|intros ?]
    | solve [auto with quiet]
    | match goal with
      | |- quiet (P := P) (match ?x with _ => _ end) => destruct x
      | |- quiet (P := P) (if ?x then _ else _) => destruct x
      end ].

Lemma quiet_tx_on_received (self : loc) (data : bytes) :
  quiet (P := P) (tx_on_received self data).
Proof. unfold tx_on_received. quiet_tac. Qed.

Lemma quiet_chan_on_received (c : loc) (data : bytes) :
  quiet (P := P) (chan_on_received c data).
Proof.
  unfold chan_on_received. apply quiet_bind; [auto with quiet|].
  intros [|]; [apply quiet_tx_on_received | auto with quiet].
Qed.

(** The hand-over is recorded exactly once per call of [_on_received],
    whatever the channel does with the packet. *)
Lemma on_received_once (h : packet.hTuple) (payload : bytes) (l : link P) o l' :
  _on_received h payload l = (o, l') ->
  dispatched l' = dispatched l ++ [(h, payload)].
Proof.
  unfold _on_received. intros H.
  apply bind_inv in H as [([] & l1 & H1 & H) | (e & H1 & _)];
    unfold modify in H1; inversion H1; subst l1; clear H1.
  assert (Hq : quiet (P := P) (tbl <- gets channels ;;
                      match tbl !! packet.cid h with
                      | None => ret tt
                      | Some c =>
                          _ <- modify (upd_chan c (add_credit (packet.credit h))) ;;
                          match payload with
                          | [] => ret tt
                          | _ :: _ => chan_on_received c payload
                          end
                      end)).
  { apply quiet_bind; [auto with quiet|]. intros tbl.
    destruct (tbl !! packet.cid h); [|auto with quiet].
    apply quiet_bind; [auto with quiet|]. intros _.
    destruct payload; [auto with quiet | apply quiet_chan_on_received]. }
  rewrite (Hq _ _ _ H). reflexivity.
Qed.

(** C8, on the code.  With the two reads [hdr[:3]] and
    [hdr[3:] + payload], [retreive] raises [struct.error] on the first
    chunk: nothing is dispatched, nothing reaches the channel, and the
    second chunk is never read.  Split after the header, the same packet
    is dispatched once; and of two packets read at once only the first is
    dispatched, the second staying in the buffer. *)
Theorem retreive_split_in_header :
  (let r := retreive mockpipe.io 6
              (EpsonD4_link (mockpipe.start [firstn 3 hello; skipn 3 hello])) in
   fst r = Raise StructError
   /\ dispatched (snd r) = []
   /\ rx_data (obj (snd r) ctrl) = None
   /\ mockpipe.reads (target (snd r)) = [skipn 3 hello])
  /\ (let r := retreive mockpipe.io 6
                 (EpsonD4_link (mockpipe.start [firstn 8 hello; skipn 8 hello])) in
      fst r = Ret tt
      /\ List.length (dispatched (snd r)) = 1%nat
      /\ rx_data (obj (snd r) ctrl) = Some (bs "hello"))
  /\ (let r := retreive mockpipe.io 6
                 (EpsonD4_link (mockpipe.start [hello ++ hello])) in
      fst r = Ret tt
      /\ List.length (dispatched (snd r)) = 1%nat
      /\ received (snd r) = hello).
Proof. vm_compute. repeat split. Qed.

End Retreive.

(** ** The transaction codec: [protocol.encode] and [protocol.decode] *)

Section TxCodec.
Import tx.

Lemma table_wf (r : revision) : Forall (row_wf r) (table r).
Proof.
  destruct r; unfold table, protocol_0x10, protocol_0x20;
    repeat (apply List.Forall_cons;
            [ split; [reflexivity |
              split; [cbn; lia | split; [reflexivity | cbn; lia]]] | ]);
    apply List.Forall_nil.
Qed.

Lemma cmd_by_name_In (r : revision) (cmd : string) (rw : row) :
  cmd_by_name r cmd = Some rw -> List.In rw (table r) /\ name rw = cmd.
Proof.
  unfold cmd_by_name. intros H. apply find_some in H as [Hin He].
  split; [exact Hin | apply String.eqb_eq; exact He].
Qed.

Lemma cmd_by_name_wf (r : revision) (cmd : string) (rw : row) :
  cmd_by_name r cmd = Some rw -> row_wf r rw /\ name rw = cmd.
Proof.
  intros H. apply cmd_by_name_In in H as [Hin Hn]. split; [|exact Hn].
  pose proof (table_wf r) as Hwf. rewrite List.Forall_forall in Hwf.
  apply Hwf, Hin.
Qed.

Lemma as_ints_map : forall vs zs, as_ints vs = Some zs -> vs = map FInt zs.
Proof.
  induction vs as [|v vs IH]; simpl; intros zs H.
  - inversion H. reflexivity.
  - destruct v as [z| |s]; simpl in H; try discriminate.
    destruct (as_ints vs) as [zs'|]; try discriminate.
    inversion H; subst. simpl. f_equal. apply IH. reflexivity.
Qed.

Lemma pack_same_length e : forall fmt vs b,
  pack e fmt vs = Some b -> List.length vs = List.length fmt.
Proof.
  induction fmt as [|c fmt IH]; intros [|v vs] b H; simpl in H;
    try discriminate; try reflexivity.
  destruct (pack1 e c v); try discriminate.
  destruct (pack e fmt vs) eqn:E; try discriminate.
  simpl. f_equal. eapply IH. exact E.
Qed.

(** A tuple with a value for every field takes no default. *)
Lemma make_full (rw : row) (vals : list fval) :
  List.length vals = List.length (fields rw) ->
  (List.length (defaults rw) <= List.length (fields rw))%nat ->
  make rw vals = Ret {| p_row := rw; p_vals := vals |}.
Proof.
  intros Hl Hd. unfold make. rewrite Hl.
  rewrite Nat.ltb_irrefl.
  replace (_ <? _)%nat with false by (symmetry; apply Nat.ltb_ge; lia).
  rewrite skipn_all2 by lia. rewrite app_nil_r. reflexivity.
Qed.

Lemma make_inv (rw : row) (args : list fval) (t : pkt) :
  (List.length (defaults rw) <= List.length (fields rw))%nat ->
  make rw args = Ret t ->
  p_row t = rw /\ List.length (p_vals t) = List.length (fields rw)
  /\ t = {| p_row := rw; p_vals := p_vals t |}.
Proof.
  intros Hd. unfold make.
  destruct (_ <? _)%nat eqn:E1; try discriminate.
  destruct (List.length args <? _)%nat eqn:E2; try discriminate.
  intros H. inversion H; subst; clear H. simpl.
  apply Nat.ltb_ge in E1, E2.
  repeat split. rewrite length_app, length_skipn. lia.
Qed.

Lemma pack_vals_inv (fmt : list fmtc) (vs : list fval) (h : bytes) :
  pack_vals fmt vs = Ret h ->
  exists zs, vs = map FInt zs /\ pack BE fmt zs = Some h.
Proof.
  unfold pack_vals. destruct (as_ints vs) as [zs|] eqn:E; try discriminate.
  destruct (pack BE fmt zs) as [h'|] eqn:Ep; simpl; try discriminate.
  intros H. inversion H; subst. exists zs. split; [apply as_ints_map, E | exact Ep].
Qed.

Lemma ascii_round_trip (s : string) (b : bytes) :
  encode_ascii s = Ret b -> decode_ascii b = Ret s.
Proof.
  unfold encode_ascii, decode_ascii.
  destruct (forallb _ (list_byte_of_string s)) eqn:E; try discriminate.
  intros H. inversion H; subst. rewrite E.
  rewrite string_of_list_byte_of_string. reflexivity.
Qed.

(** What a row encodes, the same row decodes. *)
Lemma row_decode_encode (r : revision) (rw : row) (args : list fval) (b : bytes) :
  row_wf r rw ->
  row_encode rw args = Ret b ->
  exists h t, b = byte_of_Z (code rw) :: h /\ make rw args = Ret t
              /\ row_decode rw h = Ret t.
Proof.
  intros (_ & _ & Hf & Hd). unfold row_encode.
  destruct (make rw args) as [t|e] eqn:Em; simpl; try discriminate.
  destruct (make_inv _ _ _ Hd Em) as (Hrow & Hlen & Heta).
  destruct (star rw) eqn:Es.
  - destruct (pack_vals _ _) as [h|e] eqn:Eh; simpl; try discriminate.
    destruct (List.last (p_vals t) FNone) as [z| |s] eqn:El; try discriminate.
    destruct (encode_ascii s) as [sb|e] eqn:Ea; simpl; try discriminate.
    intros H. inversion H; subst b; clear H.
    exists (h ++ sb), t. split; [reflexivity|]. split; [reflexivity|].
    apply pack_vals_inv in Eh as (zs & Hzs & Hp).
    pose proof (pack_length _ _ _ _ Hp) as Hlh.
    assert (Hne : p_vals t <> []).
    { intros Hnil. rewrite Hnil in El. discriminate. }
    pose proof (app_removelast_last FNone Hne) as Hsplit.
    rewrite Hzs, El in Hsplit.
    unfold row_decode. rewrite Es, andb_false_r.
    rewrite firstn_app, Hlh, Nat.sub_diag, firstn_O, app_nil_r.
    rewrite <- Hlh at 1. rewrite firstn_all.
    rewrite (unpack_pack _ _ _ _ Hp). simpl.
    rewrite skipn_app, Hlh, Nat.sub_diag. simpl skipn at 2.
    rewrite <- Hlh, skipn_all. simpl.
    change (skipn 0 sb) with sb.
    rewrite (ascii_round_trip _ _ Ea). simpl.
    rewrite <- Hsplit. rewrite make_full by (try rewrite Hlen; auto).
    rewrite Heta at 2. reflexivity.
  - destruct (pack_vals _ _) as [h|e] eqn:Eh; simpl; try discriminate.
    intros H. inversion H; subst b; clear H.
    exists h, t. split; [reflexivity|]. split; [reflexivity|].
    apply pack_vals_inv in Eh as (zs & Hzs & Hp).
    pose proof (pack_length _ _ _ _ Hp) as Hlh.
    unfold row_decode. cbv zeta. rewrite Es. cbn [negb]. rewrite andb_true_r.
    replace (List.length h <? calcsize (sformat rw))%nat with false
      by (symmetry; apply Nat.ltb_ge; lia).
    rewrite <- Hlh at 1. rewrite firstn_all.
    rewrite (unpack_pack _ _ _ _ Hp). simpl.
    rewrite <- Hzs. rewrite make_full by (try rewrite Hlen; auto).
    rewrite Heta at 2. reflexivity.
Qed.

(** X1.  Whatever [protocol.encode(cmd, args...)] produces,
    [protocol.decode] of the same revision reads back as the command
    [cmd] with the given arguments, the omitted ones at their defaults.
    This holds for every row of both tables, with or without a trailing
    service name. *)
Theorem tx_decode_encode (r : revision) (cmd : string) (args : list fval)
    (b : bytes) :
  encode r cmd args = Ret b ->
  exists p, decode r b = Ret p
            /\ name (p_row p) = cmd
            /\ make (p_row p) args = Ret p.
Proof.
  unfold encode. destruct (cmd_by_name r cmd) as [rw|] eqn:En; try discriminate.
  intros He. apply cmd_by_name_wf in En as [Hwf Hn].
  destruct (row_decode_encode r rw args b Hwf He) as (h & t & -> & Hm & Hdec).
  exists t. destruct Hwf as (Hc & Hr & Hf & Hd).
  destruct (make_inv _ _ _ Hd Hm) as (Hrow & _ & _).
  split; [|split].
  - unfold decode. simpl firstn. simpl.
    rewrite Z_of_byte_of_Z by exact Hr. rewrite Hc. exact Hdec.
  - rewrite Hrow. exact Hn.
  - rewrite Hrow. exact Hm.
Qed.

Lemma tx_decode_encode_witness :
  exists p, decode Rev20 [Byte.x04; Byte.x02; Byte.x02; Byte.x00; Byte.x00] = Ret p
            /\ name (p_row p) = "CreditRequest"%string
            /\ make (p_row p) [FInt 2; FInt 2] = Ret p.
Proof.
  apply (tx_decode_encode Rev20 "CreditRequest" [FInt 2; FInt 2]).
  reflexivity.
Defined.

Lemma calcsize_firstn_le : forall (fmt : list fmtc) (j k : nat),
  (j <= k)%nat -> (k <= List.length fmt)%nat ->
  (calcsize (firstn j fmt) + (k - j) <= calcsize (firstn k fmt))%nat.
Proof.
  induction fmt as [|c fmt IH]; intros j k Hjk Hk; simpl in Hk.
  - replace k with 0%nat by lia. replace j with 0%nat by lia. simpl. lia.
  - destruct k as [|k]; [replace j with 0%nat by lia; simpl; lia|].
    destruct j as [|j].
    + simpl. specialize (IH 0%nat k). simpl in IH.
      assert (1 <= fsize c)%nat by (destruct c; simpl; lia). lia.
    + simpl. specialize (IH j k). lia.
Qed.

Lemma decode_truncated_hit (rw : row) (zs : list Z) (b : bytes) :
  (1 <= List.length zs)%nat ->
  pack BE (firstn (List.length zs) (sformat rw)) zs = Some b ->
  forall j, (List.length zs <= j)%nat -> (j <= List.length (sformat rw))%nat ->
    decode_truncated rw j b = Some (make rw (map FInt zs)).
Proof.
  intros Hk Hp. pose proof (pack_length _ _ _ _ Hp) as Hlb.
  induction j as [|j IH]; intros Hj Hn; [lia|].
  cbn [decode_truncated].
  destruct (Nat.eq_dec (S j) (List.length zs)) as [E|E].
  - rewrite E, <- Hlb, Nat.leb_refl, firstn_all.
    rewrite (unpack_pack _ _ _ _ Hp). reflexivity.
  - pose proof (calcsize_firstn_le (sformat rw) (List.length zs) (S j)
                  ltac:(lia) Hn) as Hlt.
    replace (_ <=? _)%nat with false by (symmetry; apply Nat.leb_gt; lia).
    apply IH; lia.
Qed.

(** X2.  A reply cut short after at least one whole field decodes as the
    tuple built from the fields that arrived: the missing ones take their
    defaults, and the decoding raises [TypeError] when one of them has
    none. *)
Theorem tx_decode_truncated (rw : row) (zs : list Z) (b : bytes) :
  star rw = false ->
  (1 <= List.length zs < List.length (sformat rw))%nat ->
  pack BE (firstn (List.length zs) (sformat rw)) zs = Some b ->
  row_decode rw b = make rw (map FInt zs).
Proof.
  intros Hs Hk Hp. pose proof (pack_length _ _ _ _ Hp) as Hlb.
  pose proof (calcsize_firstn_le (sformat rw) (List.length zs)
                (List.length (sformat rw)) ltac:(lia) ltac:(lia)) as Hlt.
  rewrite firstn_all in Hlt.
  unfold row_decode. rewrite Hs. cbn [negb].
  replace (_ <? _)%nat with true by (symmetry; apply Nat.ltb_lt; lia).
  cbn [andb].
  rewrite (decode_truncated_hit rw zs b ltac:(lia) Hp) by lia. reflexivity.
Qed.

Lemma tx_decode_truncated_witness :
  decode Rev20 [Byte.x80; Byte.x02] =
    Ret {| p_row := mk 0x80 "InitReply" [B; B] false ["result"; "revision"]%string
                      [FInt 0x20];
           p_vals := [FInt 2; FInt 0x20] |}
  /\ row_decode (mk 0x84 "CreditRequestReply" [B; B; B; H] false
                   ["result"; "sidP"; "sidS"; "addCredit"]%string [])
       [Byte.x00; Byte.x02; Byte.x02] = Raise TypeError.
Proof.
  split.
  - exact (tx_decode_truncated
             (mk 0x80 "InitReply" [B; B] false ["result"; "revision"]%string
                [FInt 0x20])
             [2] [Byte.x02] eq_refl ltac:(simpl; lia) eq_refl).
  - exact (tx_decode_truncated
             (mk 0x84 "CreditRequestReply" [B; B; B; H] false
                ["result"; "sidP"; "sidS"; "addCredit"]%string [])
             [0; 2; 2] [Byte.x00; Byte.x02; Byte.x02]
             eq_refl ltac:(simpl; lia) eq_refl).
Defined.

(** X3.  [D4Link.protocol.decode] raises exactly on an input shorter
    than the six-byte header, and then it is [struct.error]; on any
    longer input it returns the bytes after the header as the payload,
    whatever length the header announces. *)
Theorem packet_decode_cases (b : bytes) :
  match packet.decode b with
  | Ret (h, rest) =>
      (6 <= List.length b)%nat /\ rest = skipn 6 b
      /\ packet.length h = 256 * Z_of_byte (nth 2 b Byte.x00)
                           + Z_of_byte (nth 3 b Byte.x00)
  | Raise e => e = StructError /\ (List.length b < 6)%nat
  end.
Proof.
  unfold packet.decode.
  destruct b as [|b0 [|b1 [|b2 [|b3 [|b4 [|b5 b]]]]]];
    try (cbn; split; [reflexivity | lia]).
  cbn. split; [lia|]. split; reflexivity.
Qed.

End TxCodec.

(** ** [D4Link.retreive] and [_on_received]: what arrives, what is lost *)

Section Receive.
Import d4.

Context {P : Type} (io : pipe P).

Lemma silent_same (n : nat) (l l' : link P) :
  silent io n l l' -> same_channels l l'.
Proof.
  induction 1 as [l|n l l1 l2 Hr _ IH].
  - repeat split.
  - apply with_target_frame in Hr as (H1 & H2 & H3 & H4 & H5 & _).
    destruct IH as (I1 & I2 & I3 & I4 & I5).
    repeat split; congruence.
Qed.

Lemma retreive_loop_silent (n : nat) (rest : bytes) (l l' : link P) :
  silent io n l l' -> retreive_loop io n rest l = (Ret tt, l').
Proof.
  induction 1 as [l|n l l1 l2 Hr _ IH]; cbn [retreive_loop].
  - reflexivity.
  - rewrite (bind_Ret _ _ _ _ _ Hr). exact IH.
Qed.

(** X4.  When every read of a call brings nothing, [retreive] returns
    without dispatching: the channels, their credit and the buffer are
    as before.  This holds whatever the buffer holds, so a whole packet
    left over from an earlier read stays there until new bytes arrive. *)
Theorem retreive_silent (retries : nat) (l l' : link P) :
  silent io (1 + retries) l l' ->
  retreive io retries l = (Ret tt, l') /\ same_channels l l'.
Proof.
  intros H. split; [|eapply silent_same; exact H].
  unfold retreive, bind at 1, gets. apply retreive_loop_silent. exact H.
Qed.

(** X5.  A chunk that leaves the buffer shorter than a header makes
    [retreive] raise [struct.error]; the bytes just read are not kept,
    the buffer is as before the call. *)
Theorem retreive_short_raises (retries : nat) (l : link P) resp l1 :
  with_target (pipe_read io) l = (Ret resp, l1) ->
  resp <> [] -> (List.length (received l ++ resp) < 6)%nat ->
  retreive io retries l = (Raise StructError, l1)
  /\ same_channels l l1.
Proof.
  intros Hread Hne Hlen. split.
  - unfold retreive, bind at 1, gets. cbn [Nat.add retreive_loop].
    rewrite (bind_Ret _ _ _ _ _ Hread).
    destruct resp as [|x resp]; [congruence|].
    unfold bind, lift. rewrite (decode_short _ Hlen). reflexivity.
  - apply with_target_frame in Hread as (H1 & H2 & H3 & H4 & H5 & _).
    repeat split; assumption.
Qed.

(** X6.  A packet whose payload has not all arrived by the last read of
    a call is forgotten: [retreive] returns, nothing was dispatched and
    the buffer is as before the call, without the bytes that were read. *)
Theorem retreive_drops_partial (retries : nat) (l : link P) c1 l1 l2 h pl :
  with_target (pipe_read io) l = (Ret c1, l1) ->
  c1 <> [] ->
  packet.decode (received l ++ c1) = Ret (h, pl) ->
  Z.of_nat (List.length pl) < packet.payload_length h ->
  silent io retries l1 l2 ->
  retreive io retries l = (Ret tt, l2) /\ same_channels l l2.
Proof.
  intros Hread Hne Hdec Hlt Hs. split.
  - unfold retreive, bind at 1, gets. cbn [Nat.add retreive_loop].
    rewrite (bind_Ret _ _ _ _ _ Hread).
    destruct c1 as [|x c1]; [congruence|].
    unfold bind at 1. unfold lift. rewrite Hdec. cbn [fst snd].
    replace (_ <? _) with true by (symmetry; apply Z.ltb_lt; exact Hlt).
    apply retreive_loop_silent. exact Hs.
  - apply with_target_frame in Hread as (H1 & H2 & H3 & H4 & H5 & _).
    apply silent_same in Hs as (I1 & I2 & I3 & I4 & I5).
    repeat split; congruence.
Qed.

End Receive.

Lemma retreive_silent_witness :
  d4.retreive mockpipe.io 6 buffered_hello = (Ret tt, buffered_hello)
  /\ same_channels buffered_hello buffered_hello.
Proof.
  apply (retreive_silent mockpipe.io 6 buffered_hello buffered_hello).
  do 7 (apply (silent_S mockpipe.io _ buffered_hello buffered_hello buffered_hello);
        [vm_compute; reflexivity|]).
  apply silent_O.
Defined.

Lemma retreive_short_raises_witness :
  d4.retreive mockpipe.io 6 (peer_sends [firstn 3 hello; skipn 3 hello])
    = (Raise StructError, peer_sends [skipn 3 hello])
  /\ same_channels (peer_sends [firstn 3 hello; skipn 3 hello])
                   (peer_sends [skipn 3 hello]).
Proof.
  apply (retreive_short_raises mockpipe.io 6 _ (firstn 3 hello)).
  - vm_compute. reflexivity.
  - discriminate.
  - vm_compute. lia.
Defined.

Lemma retreive_drops_partial_witness :
  d4.retreive mockpipe.io 6 (peer_sends [firstn 8 hello])
    = (Ret tt, peer_sends [])
  /\ same_channels (peer_sends [firstn 8 hello]) (peer_sends []).
Proof.
  apply (retreive_drops_partial mockpipe.io 6 _ (firstn 8 hello)
           (peer_sends []) _
           {| packet.psid := 2; packet.ssid := 2; packet.length := 11;
              packet.credit := 0; packet.control := 0 |}
           (firstn 2 (bs "hello"))).
  - vm_compute. reflexivity.
  - discriminate.
  - vm_compute. reflexivity.
  - vm_compute. reflexivity.
  - do 6 (apply (silent_S mockpipe.io _ (peer_sends []) (peer_sends []) (peer_sends []));
          [vm_compute; reflexivity|]).
    apply silent_O.
Defined.
Section Deliver.
Import d4.

Context {P : Type} (io : pipe P).

Lemma obj_upd_other (c c' : loc) (f : chanobj -> chanobj) (l : link P) :
  c' <> c -> obj (upd_chan c f l) c' = obj l c'.
Proof.
  intros H. unfold obj, upd_chan. simpl.
  apply lookup_total_insert_ne. congruence.
Qed.

Lemma obj_heap (l l' : link P) (c : loc) : heap l' = heap l -> obj l' c = obj l c.
Proof. unfold obj. intros ->. reflexivity. Qed.



(** X8.  A whole packet for a channel the link does not know is taken
    out of the stream and ignored: no channel object changes, and the
    bytes after it stay in the buffer. *)
Theorem retreive_unknown_channel (retries : nat) (l : link P)
    (payload extra pk : bytes) (p s c k : Z) l1 :
  received l = [] ->
  packet.encode payload p s c k = Ret pk ->
  with_target (pipe_read io) l = (Ret (pk ++ extra), l1) ->
  channels l !! (p, s) = None ->
  exists l',
    retreive io retries l = (Ret tt, l')
    /\ heap l' = heap l /\ channels l' = channels l
    /\ received l' = extra /\ target l' = target l1.
Proof.
  intros Hrx Henc Hread Hch.
  rewrite (retreive_one_packet io retries l payload extra pk p s c k l1 Hrx Henc Hread).
  apply with_target_frame in Hread as (Hh & Hc & _ & _ & _ & _).
  unfold _on_received.
  unfold bind at 1. unfold modify at 1.
  unfold bind at 1. unfold gets at 1.
  cbn [channels log_dispatch set_received packet.cid packet.psid packet.ssid].
  unfold packet.cid. cbn [packet.psid packet.ssid].
  rewrite Hc, Hch. eexists. split; [reflexivity|].
  repeat split; assumption.
Qed.

End Deliver.


Lemma retreive_unknown_channel_witness :
  exists l',
    d4.retreive mockpipe.io 6 (peer_sends [mockpipe.wire (bs "x") 0x40 0x40 1 0])
      = (Ret tt, l')
    /\ d4.heap l' = d4.heap (peer_sends [mockpipe.wire (bs "x") 0x40 0x40 1 0])
    /\ d4.channels l' = d4.channels (peer_sends [mockpipe.wire (bs "x") 0x40 0x40 1 0])
    /\ d4.received l' = [] /\ d4.target l' = d4.target (peer_sends []).
Proof.
  apply (retreive_unknown_channel mockpipe.io 6
           (peer_sends [mockpipe.wire (bs "x") 0x40 0x40 1 0])
           (bs "x") [] (mockpipe.wire (bs "x") 0x40 0x40 1 0) 0x40 0x40 1 0
           (peer_sends []));
    vm_compute; reflexivity.
Defined.

Section TxReceive.
Import d4.

Context {P : Type} (io : pipe P).

Lemma decode_credit_reply (rev : tx.revision) (res p s hi lo : byte) :
  tx.decode rev [Byte.x84; res; p; s; hi; lo] =
    Ret {| tx.p_row := row_credit_reply;
           tx.p_vals := [tx.FInt (Z_of_byte res); tx.FInt (Z_of_byte p);
                         tx.FInt (Z_of_byte s);
                         tx.FInt (256 * Z_of_byte hi + Z_of_byte lo)] |}.
Proof. destruct rev; reflexivity. Qed.

Lemma decode_error (rev : tx.revision) (ps ss ec : byte) :
  tx.decode rev [Byte.x7f; ps; ss; ec] =
    Ret {| tx.p_row := row_error;
           tx.p_vals := [tx.FInt (Z_of_byte ps); tx.FInt (Z_of_byte ss);
                         tx.FInt (Z_of_byte ec)] |}.
Proof. destruct rev; reflexivity. Qed.

(** X9.  A [CreditRequestReply] adds its [addCredit] to the channel it
    names, whatever its [result] field says and whichever channel the
    request was made for; under either revision. *)
Theorem credit_reply_adds (self c : loc) (res p s hi lo : byte) (l : link P) :
  channels l !! (Z_of_byte p, Z_of_byte s) = Some c ->
  exists l',
    tx_on_received self [Byte.x84; res; p; s; hi; lo] l = (Ret tt, l')
    /\ credit_of l' c = credit_of l c + (256 * Z_of_byte hi + Z_of_byte lo)
    /\ (forall c', c' <> c -> credit_of l' c' = credit_of l c')
    /\ target l' = target l.
Proof.
  intros Hc. unfold tx_on_received.
  unfold bind at 1. unfold gets at 1.
  rewrite decode_credit_reply.
  unfold bind at 1. unfold modify at 1.
  unfold bind at 1.
  change (tx.hasattr _ "addCredit") with true. cbv iota.
  unfold bind at 1. change (int_attr _ "sidP") with (Ret (A := Z) (Z_of_byte p)).
  unfold lift at 1.
  unfold bind at 1. change (int_attr _ "sidS") with (Ret (A := Z) (Z_of_byte s)).
  unfold lift at 1.
  unfold bind at 1. unfold gets at 1. cbn [channels upd_chan].
  rewrite Hc.
  unfold bind at 1.
  change (int_attr _ "addCredit")
    with (Ret (A := Z) (256 * Z_of_byte hi + Z_of_byte lo)).
  unfold lift at 1. unfold modify at 1.
  change (String.eqb _ "Error") with false. cbv iota.
  eexists. split; [reflexivity|]. split; [|split].
  - unfold credit_of. rewrite obj_upd_same. cbn [ch_credit add_credit].
    destruct (Nat.eq_dec c self) as [->|Hne].
    + rewrite obj_upd_same. reflexivity.
    + rewrite obj_upd_other by exact Hne. reflexivity.
  - intros c' Hne. unfold credit_of. rewrite obj_upd_other by exact Hne.
    destruct (Nat.eq_dec c' self) as [->|Hne'].
    + rewrite obj_upd_same. reflexivity.
    + rewrite obj_upd_other by exact Hne'. reflexivity.
  - reflexivity.
Qed.

(** X10.  A [CreditRequestReply] that names a channel the link does not
    know, and an [Error] packet whose code has no text in [ERRORS], make
    [TXChannel.on_received] raise [KeyError]: the [try] covers the
    decoding only, so the exception leaves [retreive]. *)
Theorem tx_on_received_key_errors (self : loc) (l : link P) :
  (forall res p s hi lo,
      channels l !! (Z_of_byte p, Z_of_byte s) = None ->
      fst (tx_on_received self [Byte.x84; res; p; s; hi; lo] l) = Raise KeyError)
  /\ (forall ps ss ec,
      tx.has_error_text (Z_of_byte ec) = false ->
      fst (tx_on_received self [Byte.x7f; ps; ss; ec] l) = Raise KeyError)
  /\ (forall ps ss ec,
      tx.has_error_text (Z_of_byte ec) = true ->
      fst (tx_on_received self [Byte.x7f; ps; ss; ec] l) = Ret tt).
Proof.
  split; [|split].
  - intros res p s hi lo Hc. unfold tx_on_received.
    unfold bind at 1. unfold gets at 1.
    rewrite decode_credit_reply.
    unfold bind at 1. unfold modify at 1.
    unfold bind at 1.
    change (tx.hasattr _ "addCredit") with true. cbv iota.
    unfold bind at 1. change (int_attr _ "sidP") with (Ret (A := Z) (Z_of_byte p)).
    unfold lift at 1.
    unfold bind at 1. change (int_attr _ "sidS") with (Ret (A := Z) (Z_of_byte s)).
    unfold lift at 1.
    unfold bind at 1. unfold gets at 1. cbn [channels upd_chan].
    rewrite Hc. reflexivity.
  - intros ps ss ec He. unfold tx_on_received.
    unfold bind at 1. unfold gets at 1.
    rewrite decode_error.
    unfold bind at 1. unfold modify at 1.
    unfold bind at 1.
    change (tx.hasattr _ "addCredit") with false. cbv iota.
    unfold ret at 1.
    change (String.eqb _ "Error") with true. cbv iota.
    unfold bind at 1. change (int_attr _ "errorCode") with (Ret (A := Z) (Z_of_byte ec)).
    unfold lift at 1. rewrite He. reflexivity.
  - intros ps ss ec He. unfold tx_on_received.
    unfold bind at 1. unfold gets at 1.
    rewrite decode_error.
    unfold bind at 1. unfold modify at 1.
    unfold bind at 1.
    change (tx.hasattr _ "addCredit") with false. cbv iota.
    unfold ret at 1.
    change (String.eqb _ "Error") with true. cbv iota.
    unfold bind at 1. change (int_attr _ "errorCode") with (Ret (A := Z) (Z_of_byte ec)).
    unfold lift at 1. rewrite He. reflexivity.
Qed.

End TxReceive.

Lemma credit_reply_adds_witness :
  exists l',
    d4.tx_on_received 0%nat
      [Byte.x84; Byte.x01; Byte.x02; Byte.x02; Byte.x00; Byte.x03] (peer_sends [])
      = (Ret tt, l')
    /\ d4.credit_of l' d4.ctrl
       = d4.credit_of (peer_sends []) d4.ctrl + (256 * Z_of_byte Byte.x00 + Z_of_byte Byte.x03)
    /\ (forall c', c' <> d4.ctrl ->
          d4.credit_of l' c' = d4.credit_of (peer_sends []) c')
    /\ d4.target l' = d4.target (peer_sends []).
Proof.
  apply (credit_reply_adds (P := mockpipe.state) 0%nat d4.ctrl
           Byte.x01 Byte.x02 Byte.x02 Byte.x00 Byte.x03 (peer_sends [])).
  vm_compute. reflexivity.
Defined.
Section TxCall.
Import d4.

Context {P : Type} (io : pipe P).

Lemma tx_wait_name (self : loc) (cmd : string) :
  forall n (l : link P) p l',
    tx_wait io n self cmd l = (Ret (Some p), l') ->
    tx.name (tx.p_row p) = (cmd ++ "Reply")%string
    /\ tx.truthy p = true /\ rx_pkt (obj l' self) = Some p.
Proof.
  induction n as [|n IH]; intros l p l' H; cbn [tx_wait] in H.
  - unfold ret in H. discriminate.
  - apply bind_Ret_inv in H as ([] & l1 & _ & H).
    apply bind_Ret_inv in H as (r & l2 & H2 & H).
    unfold gets in H2. inversion H2; subst r l2; clear H2.
    destruct (rx_pkt (obj l1 self)) as [q|] eqn:Eq; [|eapply IH; exact H].
    destruct (tx.truthy q && String.eqb _ _) eqn:E; [|eapply IH; exact H].
    unfold ret in H. inversion H; subst q l'; clear H.
    apply andb_true_iff in E as [Et En]. apply String.eqb_eq in En.
    repeat split; assumption.
Qed.

(** X11.  A transaction that returns a packet returns the reply to its
    own command: the packet's name is the command's name followed by
    [Reply], it was the last one received on the transaction channel, and
    replies with other names met while waiting were passed over. *)
Theorem tx_call_reply_name (cmd : string) (args : list tx.fval)
    (l : link P) p l' :
  tx_call io cmd args l = (Ret (Some p), l') ->
  tx.name (tx.p_row p) = (cmd ++ "Reply")%string
  /\ tx.truthy p = true
  /\ rx_pkt (obj l' (txn l)) = Some p.
Proof.
  unfold tx_call. intros H.
  apply bind_Ret_inv in H as (t & l0 & H0 & H).
  unfold gets in H0. inversion H0; subst t l0; clear H0.
  unfold tx_call_with in H.
  apply bind_Ret_inv in H as (rev & l1 & _ & H).
  apply bind_Ret_inv in H as (payload & l2 & _ & H).
  apply bind_Ret_inv in H as (q & l3 & _ & H).
  apply bind_Ret_inv in H as (w & l4 & _ & H).
  apply bind_Ret_inv in H as ([] & l5 & _ & H).
  eapply tx_wait_name. exact H.
Qed.

End TxCall.

Lemma tx_call_reply_name_witness :
  let p := {| tx.p_row := tx.mk 0x80 "InitReply" [FB; FB] false
                            ["result"; "revision"]%string [tx.FInt 0x20];
              tx.p_vals := [tx.FInt 2; tx.FInt 0x10] |} in
  let r := d4.tx_call mockpipe.io "Init" [tx.FInt 0x20] peer_rev10 in
  tx.name (tx.p_row p) = "InitReply"%string
  /\ tx.truthy p = true
  /\ d4.rx_pkt (d4.obj (snd r) (d4.txn peer_rev10)) = Some p.
Proof.
  apply (tx_call_reply_name mockpipe.io "Init" [tx.FInt 0x20] peer_rev10).
  vm_compute. reflexivity.
Defined.
Section ChannelCall.
Import d4.

Context {P : Type} (io : pipe P).


Lemma silent_app (a b : nat) : forall (l l2 : link P),
  silent io (a + b) l l2 -> exists l1, silent io a l l1 /\ silent io b l1 l2.
Proof.
  induction a as [|a IH]; intros l l2 H.
  - exists l. split; [constructor | exact H].
  - cbn [Nat.add] in H. inversion H as [|n x l1 y Hr Hs]; subst.
    destruct (IH _ _ Hs) as (l1' & H1 & H2).
    exists l1'. split; [econstructor; eassumption | exact H2].
Qed.

Lemma channel_loop_silent (self : loc) : forall n (l l' : link P),
  silent io (n * 7) l l' ->
  rx_data (obj l self) = None ->
  Channel.retreive_loop io n self l = (Ret None, l').
Proof.
  induction n as [|n IH]; intros l l' Hs Hrx.
  - inversion Hs; subst. reflexivity.
  - change (S n * 7)%nat with (7 + n * 7)%nat in Hs.
    apply silent_app in Hs as (l1 & H1 & H2).
    cbn [Channel.retreive_loop].
    assert (Hr : retreive io 6 l = (Ret tt, l1)).
    { unfold retreive, bind at 1, gets. apply retreive_loop_silent. exact H1. }
    rewrite (bind_Ret _ _ _ _ _ Hr).
    unfold bind at 1. unfold gets at 1.
    apply silent_same in H1 as (Hh & _).
    rewrite (obj_heap l l1 self Hh), Hrx.
    apply IH; [exact H2|]. rewrite (obj_heap l l1 self Hh). exact Hrx.
Qed.

(** X13.  [Channel.retreive] on a pipe that stays silent through all its
    reads (seven calls of the link's [retreive] of seven reads each, by
    default) returns nothing, even when a payload had been received on
    the channel before the call: that one is discarded at the start. *)
Theorem channel_retreive_timeout (self : loc) (retries : nat) (l l' : link P) :
  silent io ((1 + retries) * 7) (upd_chan self (set_rx_data None) l) l' ->
  Channel.retreive io self retries l = (Ret None, l')
  /\ rx_data (obj l' self) = None.
Proof.
  intros Hs. unfold Channel.retreive. unfold bind at 1. unfold modify at 1.
  split.
  - apply channel_loop_silent; [exact Hs|]. rewrite obj_upd_same. reflexivity.
  - apply silent_same in Hs as (Hh & _).
    rewrite (obj_heap _ l' self Hh), obj_upd_same. reflexivity.
Qed.


End ChannelCall.


Lemma channel_retreive_timeout_witness :
  Channel.retreive mockpipe.io d4.ctrl 6
    (d4.upd_chan d4.ctrl (d4.set_rx_data (Some (bs "stale"))) (peer_sends []))
  = (Ret None, d4.upd_chan d4.ctrl (d4.set_rx_data None)
                 (d4.upd_chan d4.ctrl (d4.set_rx_data (Some (bs "stale")))
                    (peer_sends [])))
  /\ d4.rx_data
       (d4.obj (d4.upd_chan d4.ctrl (d4.set_rx_data None)
                  (d4.upd_chan d4.ctrl (d4.set_rx_data (Some (bs "stale")))
                     (peer_sends []))) d4.ctrl) = None.
Proof.
  apply (channel_retreive_timeout mockpipe.io d4.ctrl 6).
  do 49 (match goal with
         | |- silent _ _ ?l _ =>
             apply (silent_S mockpipe.io _ l l l); [vm_compute; reflexivity|]
         end).
  apply silent_O.
Defined.


(** ** More on the EEPROM operations: what is sent, and when nothing is *)

Section EepromEdges.
Import epson.

Context {X : Type} (ch : channel X).

(** X15.  [Epson.encode] of a plain command: the command's ASCII bytes,
    the payload length as a little-endian 16-bit field, the payload.  A
    non-ASCII command raises a Unicode error, a payload of 65536 bytes or
    more [struct.error]; the read key plays no part. *)
Theorem encode_plain_cases (rk : Z) (cmd : string) (payload : bytes) :
  encode rk (Plain cmd) payload =
    if forallb (fun x => Z_of_byte x <? 128) (bs cmd)
    then if Z.of_nat (List.length payload) <? 65536
         then Ret (bs cmd ++ u16_le (Z.of_nat (List.length payload)) ++ payload)
         else Raise StructError
    else Raise UnicodeError.
Proof.
  unfold encode. cbn [obind fst snd]. unfold encode_ascii, bs.
  destruct (forallb _ (list_byte_of_string cmd)); [|reflexivity].
  cbn [obind]. cbn [pack].
  destruct (Z.of_nat (List.length payload) <? 65536) eqn:E.
  - apply Z.ltb_lt in E. rewrite pack1_u16_le by lia.
    cbn [struct_res obind]. rewrite app_nil_r. reflexivity.
  - apply Z.ltb_ge in E. unfold pack1.
    replace (_ && _) with false by (symmetry; apply andb_false_iff; right; apply Z.ltb_ge; lia).
    reflexivity.
Qed.

Lemma traverse_raise {A B} (f : A -> outcome B) (e : exn) : forall l x,
  List.In x l -> f x = Raise e ->
  (forall y, List.In y l -> f y = Raise e \/ exists z, f y = Ret z) ->
  traverse f l = Raise e.
Proof.
  induction l as [|y l IH]; intros x Hin Hx Hall; [destruct Hin|].
  cbn [traverse]. destruct (Hall y (or_introl eq_refl)) as [Hy|[z Hy]]; rewrite Hy.
  - reflexivity.
  - cbn [obind]. destruct Hin as [->|Hin]; [congruence|].
    rewrite (IH x Hin Hx); [reflexivity|].
    intros y' Hy'. apply Hall. right. exact Hy'.
Qed.

(** X16.  When one of the addresses does not fit the address width,
    [read_eeprom] raises [struct.error] before the channel is entered:
    nothing is sent, not even for the addresses before it. *)
Theorem read_eeprom_bad_address (addr : list Z) (a : Z) (s : estate X) :
  List.In a addr ->
  pack LE [if rlen (spec s) =? 1 then FB else FH] [a] = None ->
  read_eeprom ch addr s = (Raise StructError, s).
Proof.
  intros Hin Hp. unfold read_eeprom.
  unfold bind at 1. unfold gets at 1.
  destruct addr as [|a0 addr]; [destruct Hin|].
  unfold bind at 1. unfold lift.
  rewrite (traverse_raise _ StructError (a0 :: addr) a Hin).
  - reflexivity.
  - rewrite Hp. reflexivity.
  - intros y _. destruct (pack LE _ [y]) as [p|]; [right|left].
    + eexists. reflexivity.
    + reflexivity.
Qed.

Lemma zip_with_fst (c : fmtc) : forall (ads : list Z) (new : list (bytes * option bytes)),
  List.length ads = List.length new ->
  map fst (zip_with (fun a (e : bytes * option bytes) => slot c a (snd e)) ads new)
  = ads.
Proof.
  induction ads as [|a ads IH]; intros [|e new] H; simpl in H; try lia.
  - reflexivity.
  - cbn [zip_with map]. rewrite slot_fst. f_equal. apply IH. lia.
Qed.

(** X17.  A returning [read_eeprom] gives one slot per address, in the
    order asked, whatever the replies were, and sent one message per
    address; without arguments the addresses are [mem_low..mem_high]
    inclusive. *)
Theorem read_eeprom_slots (addr : list Z) (s : estate X) res s' :
  read_eeprom ch addr s = (Ret res, s') ->
  map fst res =
    match addr with
    | [] => py_range (mem_low (spec s)) (mem_high (spec s) + 1)
    | _ :: _ => addr
    end
  /\ List.length (sent s') = (List.length (sent s) + List.length res)%nat.
Proof.
  intros H. apply read_eeprom_run in H as (new & Hs & _ & Hf & Hres).
  cbv zeta in Hf, Hres.
  assert (Hl := Hf). apply Forall2_length in Hl.
  rewrite Hres, Hs. split.
  - apply zip_with_fst. exact Hl.
  - rewrite length_app. f_equal.
    set (z := zip_with _ _ _).
    rewrite <- (List.length_map fst z). unfold z.
    rewrite zip_with_fst by exact Hl. symmetry. exact Hl.
Qed.

(** X18.  Whatever its outcome, [read_eeprom] leaves the spec alone and
    sends nothing but factory reads: no message it sends is a write. *)
Theorem read_eeprom_only_reads (addr : list Z) (s : estate X) o s' :
  read_eeprom ch addr s = (o, s') ->
  spec s' = spec s
  /\ exists new,
       sent s' = sent s ++ new
       /\ Forall (fun e => is_factory_read (fst e)
                           /\ is_factory_write (fst e) = false) new.
Proof.
  intros H. apply read_eeprom_any in H as (Hsp & new & Hs & Hf).
  split; [exact Hsp|]. exists new. split; [exact Hs|].
  eapply List.Forall_impl; [|exact Hf].
  intros e He. split; [exact He | apply factory_read_not_write; exact He].
Qed.

(** A pair that cannot be packed stops a non-atomic write before the
    channel is entered. *)
Lemma write_bad_pair_raises (addrval : list (Z * option Z)) (k : bytes)
    (check_read : bool) (a : Z) (v : option Z) (s : estate X) :
  List.In (a, v) addrval ->
  match v with
  | Some v => pack LE [if wlen (spec s) =? 1 then FB else FH; FB] [a; v] = None
  | None => True
  end ->
  write_eeprom ch addrval (Some k) check_read false s = (Raise StructError, s).
Proof.
  intros Hin Hp. unfold write_eeprom.
  unfold bind at 1. unfold ret at 1.
  unfold bind at 1. unfold gets at 1.
  unfold bind at 1. unfold write_pass.
  unfold bind at 1. unfold gets at 1.
  unfold bind at 1. unfold lift.
  rewrite (traverse_raise _ StructError addrval (a, v) Hin).
  - reflexivity.
  - cbn [fst snd]. destruct v as [v|]; [rewrite Hp|]; reflexivity.
  - intros [y [w|]] _; cbn [fst snd]; [|left; reflexivity].
    destruct (pack LE _ [y; w]) as [p|]; [right|left].
    + eexists. reflexivity.
    + reflexivity.
Qed.


(** X19.  When one of the pairs does not fit (an address beyond the
    width, a value beyond a byte, or no value), [write_eeprom] without
    [atomic] raises [struct.error] before the channel is entered: no
    pair is written, not even the ones before it. *)
Theorem write_eeprom_bad_pair (addrval : list (Z * option Z)) (k : bytes)
    (check_read : bool) (a : Z) (v : option Z) (s : estate X) :
  List.In (a, v) addrval ->
  match v with
  | Some v => pack LE [if wlen (spec s) =? 1 then FB else FH; FB] [a; v] = None
  | None => True
  end ->
  write_eeprom ch addrval (Some k) check_read false s = (Raise StructError, s).
Proof. apply write_bad_pair_raises. Qed.

End EepromEdges.

Lemma read_eeprom_bad_address_witness :
  read_eeprom mock.ch [5; 0x10000] (mock.start epson.default_spec [])
  = (Raise StructError, mock.start epson.default_spec []).
Proof.
  apply (read_eeprom_bad_address mock.ch [5; 0x10000] 0x10000).
  - right. left. reflexivity.
  - reflexivity.
Defined.

Lemma read_eeprom_slots_witness :
  map fst [(5, Some 0x0F); (6, @None Z)] = [5; 6]
  /\ List.length
       (sent (snd (read_eeprom mock.ch [5; 6]
                     (mock.start epson.default_spec [Some (bs "@BDC PS EE:00050F;")]))))
     = (0 + 2)%nat.
Proof.
  apply (read_eeprom_slots mock.ch [5; 6]
           (mock.start epson.default_spec [Some (bs "@BDC PS EE:00050F;")])).
  vm_compute. reflexivity.
Defined.

Lemma read_eeprom_only_reads_witness :
  let s := mock.start epson.default_spec [Some (bs "@BDC PS EE:00050F;")] in
  spec (snd (read_eeprom mock.ch [5] s)) = spec s
  /\ exists new,
       sent (snd (read_eeprom mock.ch [5] s)) = sent s ++ new
       /\ Forall (fun e => is_factory_read (fst e)
                           /\ is_factory_write (fst e) = false) new.
Proof.
  apply (read_eeprom_only_reads mock.ch [5]
           (mock.start epson.default_spec [Some (bs "@BDC PS EE:00050F;")])
           (fst (read_eeprom mock.ch [5]
                   (mock.start epson.default_spec [Some (bs "@BDC PS EE:00050F;")])))).
  apply surjective_pairing.
Defined.

Lemma write_eeprom_bad_pair_witness :
  write_eeprom mock.ch [(5, Some 1); (6, Some 256)] (Some (bs "Azzzzzzz")) true false
    (mock.start epson.default_spec [])
  = (Raise StructError, mock.start epson.default_spec []).
Proof.
  apply (write_eeprom_bad_pair mock.ch [(5, Some 1); (6, Some 256)]
           (bs "Azzzzzzz") true 6 (Some 256)).
  - right. left. reflexivity.
  - reflexivity.
Defined.

Section WriteEdges.
Import epson.

Context {X : Type} (ch : channel X).

Lemma pairs_unchecked (k : bytes) :
  forall av (s : estate X) b s',
    pairs_written ch k false av s b s' ->
    exists new,
      sent s' = sent s ++ new /\ List.length new = List.length av
      /\ Forall (fun e => is_factory_write (fst e) = true) new
      /\ b = forallb acked new /\ spec s' = spec s.
Proof.
  induction 1 as [s|a v rest s m r s1 ok s2 b s3 Hm Hcall Hchk _ IH].
  - exists []. rewrite app_nil_r. repeat split. constructor.
  - destruct IH as (new & Hs & Hl & Hf & Hb & Hsp).
    destruct Hm as (p & _ & Henc).
    apply factory_write_is_write in Henc.
    apply ctrl_call_frame in Hcall as [Hsp1 Hs1]. cbn [reply_of] in Hs1.
    assert (Hok : ok = bytes_in (bs ":OK;") r /\ s2 = s1).
    { unfold pair_checked in Hchk.
      destruct (bytes_in (bs ":OK;") r); destruct Hchk; split; assumption. }
    destruct Hok as [-> ->].
    exists ((m, Some r) :: new). rewrite Hs, Hs1, <- app_assoc. cbn [app].
    repeat split.
    + cbn [List.length]. f_equal. exact Hl.
    + constructor; [exact Henc | exact Hf].
    + cbn [forallb]. unfold acked at 1. cbn [snd]. rewrite Hb. reflexivity.
    + rewrite Hsp. exact Hsp1.
Qed.

(** X20.  A returning [write_eeprom] with neither [check_read] nor
    [atomic] sent exactly one message per pair, each a factory write and
    none a read, and its result tells whether every reply contained
    [":OK;"]; the spec is untouched. *)
Theorem write_unchecked_only_writes (addrval : list (Z * option Z))
    (wk : option bytes) (s : estate X) b s' :
  write_eeprom ch addrval wk false false s = (Ret b, s') ->
  exists new,
    sent s' = sent s ++ new /\ List.length new = List.length addrval
    /\ Forall (fun e => is_factory_write (fst e) = true) new
    /\ b = forallb acked new /\ spec s' = spec s.
Proof.
  unfold write_eeprom. intros H.
  apply bind_Ret_inv in H as (prev & s0 & H0 & H).
  unfold ret in H0. inversion H0; subst prev s0; clear H0.
  apply bind_Ret_inv in H as (sp & s0 & H0 & H).
  unfold gets in H0. inversion H0; subst sp s0; clear H0.
  apply bind_Ret_inv in H as (res & s1 & Hw & H).
  cbn [andb] in H. unfold ret in H. inversion H; subst res s1; clear H.
  apply write_pass_run in Hw as [Hsp Hw].
  destruct addrval as [|av0 rest].
  - destruct Hw as [-> ->]. exists []. rewrite app_nil_r. repeat split. constructor.
  - destruct Hw as (k & s1 & s2 & _ & Hen & Hpw & Hex).
    apply with_chan_frame in Hen as [He1 He2].
    apply with_chan_frame in Hex as [Hx1 Hx2].
    apply pairs_unchecked in Hpw as (new & Hs & Hl & Hf & Hb & Hsp2).
    exists new. rewrite Hx2, Hs, He2. repeat split; assumption.
Qed.



(** X22.  [find_rkey] returns, without an exception, whenever the
    channel never raises, every candidate fits 16 bits and [mem_low] fits
    the address width. *)
Theorem find_rkey_total (ikeys : list Z) (s : estate X) p :
  answering ch ->
  pack LE [if rlen (spec s) =? 1 then FB else FH] [mem_low (spec s)] = Some p ->
  Forall (fun k => 0 <= k < 65536) ikeys ->
  exists r s', find_rkey ch ikeys s = (Ret r, s').
Proof. apply find_rkey_returns. Qed.

End WriteEdges.

Lemma mock_answering : answering mock.ch.
Proof.
  repeat split.
  - intros x. exists x. reflexivity.
  - intros x. exists x. reflexivity.
  - intros m [|r x]; eexists _, _; reflexivity.
Qed.

Lemma write_unchecked_only_writes_witness :
  let r := write_eeprom mock.ch [(5, Some 1); (6, Some 2)] (Some (bs "Azzzzzzz"))
             false false
             (mock.start epson.default_spec
                [Some (bs "@BDC PS EE:OK;"); Some (bs "@BDC PS EE:NA;")]) in
  exists new,
    sent (snd r) = [] ++ new /\ List.length new = 2%nat
    /\ Forall (fun e => is_factory_write (fst e) = true) new
    /\ false = forallb acked new /\ spec (snd r) = epson.default_spec.
Proof.
  apply (write_unchecked_only_writes mock.ch [(5, Some 1); (6, Some 2)]
           (Some (bs "Azzzzzzz"))
           (mock.start epson.default_spec
              [Some (bs "@BDC PS EE:OK;"); Some (bs "@BDC PS EE:NA;")])
           false).
  vm_compute. reflexivity.
Defined.


Lemma find_rkey_total_witness :
  exists r s', find_rkey mock.ch [1; 2; 3]
                 (mock.start epson.default_spec [None; Some (bs "@BDC PS EE:000042;")])
               = (Ret r, s').
Proof.
  apply (find_rkey_total mock.ch [1; 2; 3] _ [Byte.x00; Byte.x00] mock_answering).
  - reflexivity.
  - repeat constructor; lia.
Defined.

(** ** [find_wkey] *)

Section FindWkeyFacts.
Import epson.
Context {X : Type} (ch : channel X).

(** What a returning write of one pair with [check_read] did. *)
Lemma write_one_run (k : bytes) (a v : Z) (s : estate X) b s' :
  write_eeprom ch [(a, Some v)] (Some k) true false s = (Ret b, s') ->
  spec s' = spec s
  /\ exists m r rest,
       sent s' = sent s ++ (m, Some r) :: rest
       /\ write_msg (spec s) k a v m
       /\ (b = true -> bytes_in (bs ":OK;") r = true).
Proof.
  unfold write_eeprom. intros H.
  apply bind_Ret_inv in H as (prev & s0 & H0 & H).
  unfold ret in H0. inversion H0; subst prev s0; clear H0.
  apply bind_Ret_inv in H as (sp & s0 & H0 & H).
  unfold gets in H0. inversion H0; subst sp s0; clear H0.
  apply bind_Ret_inv in H as (res & s1 & Hw & H).
  cbn [andb] in H. unfold ret in H. inversion H; subst res s1; clear H.
  apply write_pass_run in Hw as [Hsp (k' & s1 & s2 & Hk & Hen & Hpw & Hex)].
  inversion Hk; subst k'; clear Hk.
  split; [exact Hsp|].
  apply with_chan_frame in Hen as [He1 He2].
  apply with_chan_frame in Hex as [Hx1 Hx2].
  inversion Hpw as [|a' v' rest' s0' m r s3 ok s4 b' s5 Hm Hcall Hchk Hrest]; subst.
  inversion Hrest; subst.
  apply ctrl_call_frame in Hcall as [Hsp1 Hs1]. cbn [reply_of] in Hs1.
  assert (Hf : (ok = true -> bytes_in (bs ":OK;") r = true)
               /\ exists n2, sent s2 = sent s3 ++ n2).
  { unfold pair_checked in Hchk. destruct (bytes_in (bs ":OK;") r).
    - destruct Hchk as (rd & Hrd & _).
      apply read_eeprom_any in Hrd as (_ & n2 & Hs2 & _).
      split; [reflexivity|]. exists n2. exact Hs2.
    - destruct Hchk as [-> ->]. split; [discriminate|]. exists [].
      rewrite app_nil_r. reflexivity. }
  destruct Hf as (Hok & n2 & Hs2).
  exists m, r, n2. rewrite Hx2, Hs2, Hs1, He2, <- app_assoc. cbn [app].
  split; [reflexivity|]. split.
  - rewrite <- He1. exact Hm.
  - rewrite andb_true_r. exact Hok.
Qed.


Lemma find_wkey_loop_run (a v : Z) :
  forall ikeys (s : estate X) r s',
    find_wkey_loop ch ikeys a v (v + 1) s = (Ret r, s') ->
    match r with
    | Some k =>
        List.In k ikeys /\ spec s' = set_wkey (Some k) (spec s)
        /\ exists pre m rp post,
             sent s' = sent s ++ pre ++ (m, Some rp) :: post
             /\ write_msg (spec s) k a (v + 1) m
             /\ bytes_in (bs ":OK;") rp = true
    | None => spec s' = spec s /\ exists new, sent s' = sent s ++ new
    end.
Proof.
  induction ikeys as [|k ikeys IH]; intros s r s' H; cbn [find_wkey_loop] in H.
  - unfold ret in H. inversion H; subst. split; [reflexivity|].
    exists []. rewrite app_nil_r. reflexivity.
  - apply bind_Ret_inv in H as (ok & s1 & H1 & H).
    apply write_one_run in H1 as (Hsp1 & m & rp & rest & Hs1 & Hm & Hok).
    destruct ok.
    + apply bind_Ret_inv in H as (ok2 & s2 & H2 & H).
      apply write_one_run in H2 as (Hsp2 & m2 & rp2 & rest2 & Hs2 & _ & _).
      apply bind_Ret_inv in H as (u & s3 & H3 & H).
      unfold put_wkey, modify in H3. inversion H3; subst u s3; clear H3.
      unfold ret in H. inversion H; subst r s'; clear H. cbn [spec sent].
      split; [left; reflexivity|]. split; [congruence|].
      exists [], m, rp, (rest ++ (m2, Some rp2) :: rest2).
      rewrite Hs2, Hs1, <- app_assoc. cbn [app].
      split; [reflexivity|]. split; [exact Hm | apply Hok; reflexivity].
    + apply IH in H. destruct r as [k'|].
      * destruct H as (Hin & Hsp & pre & m' & rp' & post & Hs & Hm' & Hok').
        split; [right; exact Hin|]. split; [congruence|].
        exists ((m, Some rp) :: rest ++ pre), m', rp', post.
        rewrite Hs, Hs1, <- !app_assoc. cbn [app]. rewrite <- app_assoc.
        split; [reflexivity|]. split; [rewrite <- Hsp1; exact Hm' | exact Hok'].
      * destruct H as (Hsp & new & Hs).
        split; [congruence|]. exists ((m, Some rp) :: rest ++ new).
        rewrite Hs, Hs1, <- app_assoc. reflexivity.
Qed.

(** X23.  When [find_wkey] returns a key, it is one of the candidates, the
    probe read gave a value [v], a factory write of [v + 1] under that key
    was sent and its reply contained [":OK;"], and [spec.wkey] is now that
    key, no other field of the spec being changed.  When it returns none
    the spec is unchanged. *)
Theorem find_wkey_result (ikeys : list bytes) (addr : option Z) (s : estate X)
    r s' :
  find_wkey ch ikeys addr s = (Ret r, s') ->
  let a := match addr with Some a => a | None => mem_low (spec s) end in
  let c := if rlen (spec s) =? 1 then FB else FH in
  match r with
  | Some k =>
      List.In k ikeys /\ spec s' = set_wkey (Some k) (spec s)
      /\ exists e v pre m rp post,
           sent s' = sent s ++ e :: pre ++ (m, Some rp) :: post
           /\ slot c a (snd e) = (a, Some v)
           /\ write_msg (spec s) k a (v + 1) m
           /\ bytes_in (bs ":OK;") rp = true
  | None => spec s' = spec s
  end.
Proof.
  intros H a c. unfold find_wkey in H.
  apply bind_Ret_inv in H as (a' & s0 & H0 & H).
  assert (a' = a /\ s0 = s) as [-> ->].
  { destruct addr; [unfold ret in H0 | unfold gets in H0];
      inversion H0; subst; split; reflexivity. }
  clear H0.
  apply bind_Ret_inv in H as (rd & s1 & H1 & H).
  apply read_eeprom_run in H1 as (new & Hs1 & Hsp1 & Hf & Hres).
  cbv zeta in Hf, Hres. fold c in Hf, Hres.
  inversion Hf as [|? e ? new' He Hnil]; subst. inversion Hnil; subst.
  cbn [zip_with] in H.
  assert (Hfst : fst (slot c a (snd e)) = a) by apply slot_fst.
  destruct (slot c a (snd e)) as [a1 [v|]] eqn:Esl; cbn [fst] in Hfst; subst a1.
  2:{ apply bind_Ret_inv in H as (val & s2 & H2 & H).
      unfold ret in H2. inversion H2; subst val s2. discriminate H. }
  apply bind_Ret_inv in H as (val & s2 & H2 & H).
  unfold ret in H2. inversion H2; subst val s2; clear H2.
  apply bind_Ret_inv in H as (u & s2 & H2 & H).
  apply with_chan_frame in H2 as [Hsp2 Hs2].
  apply bind_Ret_inv in H as (r' & s3 & H3 & H).
  apply bind_Ret_inv in H as (u' & s4 & H4 & H).
  apply with_chan_frame in H4 as [Hsp4 Hs4].
  unfold ret in H. inversion H; subst r' s4; clear H.
  apply find_wkey_loop_run in H3. destruct r as [k|].
  - destruct H3 as (Hin & Hsp & pre & m & rp & post & Hs & Hm & Hok).
    split; [exact Hin|]. split; [congruence|].
    exists e, v, pre, m, rp, post.
    rewrite Hs4, Hs, Hs2, Hs1, <- app_assoc. cbn [app].
    split; [reflexivity|]. split; [exact Esl|].
    split; [rewrite <- Hsp1, <- Hsp2; exact Hm | exact Hok].
  - destruct H3 as (Hsp & _). congruence.
Qed.

(** X24.  When the probe read gives no value (the printer did not answer,
    or not under this read key), [find_wkey] raises a [TypeError] on
    [val + 1]: no key is tried and nothing is written. *)
Theorem find_wkey_unreadable (ikeys : list bytes) (addr : option Z)
    (s : estate X) a' s1 :
  let a := match addr with Some a => a | None => mem_low (spec s) end in
  read_eeprom ch [a] s = (Ret [(a', None)], s1) ->
  find_wkey ch ikeys addr s = (Raise TypeError, s1)
  /\ spec s1 = spec s
  /\ exists new, sent s1 = sent s ++ new
       /\ Forall (fun e => is_factory_write (fst e) = false) new.
Proof.
  intros a Hrd. split.
  - unfold find_wkey. unfold bind at 1.
    replace (match addr with
             | Some a0 => ret a0
             | None => gets (fun s0 : estate X => mem_low (spec s0))
             end s) with (@Ret Z a, s) by (destruct addr; reflexivity).
    unfold bind at 1. rewrite Hrd. reflexivity.
  - apply read_eeprom_any in Hrd as (Hsp & new & Hs & Hf).
    split; [exact Hsp|]. exists new. split; [exact Hs|].
    eapply List.Forall_impl; [|exact Hf].
    intros e He. apply factory_read_not_write. exact He.
Qed.

Lemma pack_byte_256 (c : fmtc) (a : Z) : pack LE [c; FB] [a; 256] = None.
Proof.
  cbn [pack]. destruct (pack1 LE c a); reflexivity.
Qed.

(** X25.  When the probe read gives [0xFF], the value to try is 256,
    which does not fit a byte: with at least one candidate, [find_wkey]
    raises [struct.error] while building the first write, and nothing is
    written. *)
Theorem find_wkey_value_255 (k : bytes) (rest : list bytes) (addr : option Z)
    (s : estate X) a' s1 x2 :
  let a := match addr with Some a => a | None => mem_low (spec s) end in
  read_eeprom ch [a] s = (Ret [(a', Some 255)], s1) ->
  chan_enter ch (chan s1) = (Ret tt, x2) ->
  exists s',
    find_wkey ch (k :: rest) addr s = (Raise StructError, s')
    /\ spec s' = spec s1 /\ sent s' = sent s1.
Proof.
  intros a Hrd Hen.
  exists {| spec := spec s1; chan := x2; sent := sent s1 |}.
  split; [|split; reflexivity].
  unfold find_wkey. unfold bind at 1.
  replace (match addr with
           | Some a0 => ret a0
           | None => gets (fun s0 : estate X => mem_low (spec s0))
           end s) with (@Ret Z a, s) by (destruct addr; reflexivity).
  unfold bind at 1. rewrite Hrd.
  unfold bind at 1. unfold ret at 1.
  unfold bind at 1. unfold ctrl_enter, with_chan at 1. rewrite Hen.
  unfold bind at 1. cbn [find_wkey_loop].
  unfold bind at 1.
  rewrite (write_bad_pair_raises ch [(a, Some (255 + 1))] k true a (Some (255 + 1))).
  - reflexivity.
  - left. reflexivity.
  - apply pack_byte_256.
Qed.

End FindWkeyFacts.

Lemma find_wkey_result_witness :
  let ikeys := [bs "AAAAAAAA"; bs "Azzzzzzz"] in
  let s' := snd (find_wkey mock.ch ikeys None printer_second_key) in
  List.In (bs "Azzzzzzz") ikeys
  /\ spec s' = set_wkey (Some (bs "Azzzzzzz")) (spec printer_second_key)
  /\ exists e v pre m rp post,
       sent s' = sent printer_second_key ++ e :: pre ++ (m, Some rp) :: post
       /\ epson.slot FH 0 (snd e) = (0, Some v)
       /\ write_msg (spec printer_second_key) (bs "Azzzzzzz") 0 (v + 1) m
       /\ bytes_in (bs ":OK;") rp = true.
Proof.
  apply (find_wkey_result mock.ch [bs "AAAAAAAA"; bs "Azzzzzzz"] None
           printer_second_key (Some (bs "Azzzzzzz"))
           (snd (find_wkey mock.ch [bs "AAAAAAAA"; bs "Azzzzzzz"] None
                   printer_second_key))).
  vm_compute. reflexivity.
Defined.

Lemma find_wkey_unreadable_witness :
  let s1 := snd (read_eeprom mock.ch [0] printer_unreadable) in
  find_wkey mock.ch [bs "Azzzzzzz"] None printer_unreadable = (Raise TypeError, s1)
  /\ spec s1 = spec printer_unreadable
  /\ exists new, sent s1 = sent printer_unreadable ++ new
       /\ Forall (fun e => is_factory_write (fst e) = false) new.
Proof.
  apply (find_wkey_unreadable mock.ch [bs "Azzzzzzz"] None printer_unreadable 0
           (snd (read_eeprom mock.ch [0] printer_unreadable))).
  vm_compute. reflexivity.
Defined.

Lemma find_wkey_value_255_witness :
  let s1 := snd (read_eeprom mock.ch [0] printer_holds_FF) in
  exists s',
    find_wkey mock.ch [bs "Azzzzzzz"] None printer_holds_FF = (Raise StructError, s')
    /\ spec s' = spec s1 /\ sent s' = sent s1.
Proof.
  apply (find_wkey_value_255 mock.ch (bs "Azzzzzzz") [] None printer_holds_FF 0
           (snd (read_eeprom mock.ch [0] printer_holds_FF)) []).
  - vm_compute. reflexivity.
  - reflexivity.
Defined.

Lemma find_wkey_second_key_scenario :
  let r := find_wkey mock.ch [bs "AAAAAAAA"; bs "Azzzzzzz"] None printer_second_key in
  fst r = Ret (Some (bs "Azzzzzzz"))
  /\ count_writes (snd r) = 3%nat
  /\ List.length (sent (snd r)) = 6%nat.
Proof. vm_compute. repeat split. Qed.

(** ** More on the aggregate reset operations *)

Section Aggregate.
Import epson reset.




(** X26.  The addresses of an aggregate reset operation: when every
    matching entry has as many reset values as addresses (or none at
    all), the operation writes each address of each matching entry
    exactly once, and no other address. *)
Theorem aggregate_addresses (sp : Spec) (pat : string) (m : mem_entry) :
  get_mem sp pat = Some m ->
  (forall e, List.In e (mem sp) -> matches pat e = true ->
             match reset e with
             | Some r => (List.length (addr e) <= List.length r)%nat
             | None => True
             end) ->
  List.NoDup (map fst (op_pairs (_make_reset m)))
  /\ forall a, List.In a (map fst (op_pairs (_make_reset m)))
               <-> exists e, List.In e (mem sp) /\ matches pat e = true
                             /\ List.In a (addr e).
Proof. apply aggregate_covers. Qed.


End Aggregate.

Lemma aggregate_addresses_witness :
  List.NoDup (map fst (reset.op_pairs (reset._make_reset all_waste_two)))
  /\ forall a, List.In a (map fst (reset.op_pairs (reset._make_reset all_waste_two)))
               <-> exists e, List.In e (epson.mem spec_two_counters)
                             /\ reset.matches "waste counter" e = true
                             /\ List.In a (epson.addr e).
Proof.
  apply (aggregate_addresses spec_two_counters "waste counter" all_waste_two).
  - vm_compute. reflexivity.
  - intros e [<-|[<-|[<-|[]]]] _; cbn; lia.
Defined.

